(** * Tanh-sinh quadrature ([scipy/integrate/_tanhsinh.py]): model and properties

    The module is embedded shallowly.  Python floats are IEEE-754 binary64
    numbers, modelled by Rocq's primitive [float]; Python integers are [Z];
    exceptions are the [Raised] outcomes of a small error monad.  The
    transcendental functions of the C library and NumPy's summation are not
    fixed by IEEE-754, so they are fields of a [Platform] record the model is
    parameterised by; [ref_platform] is an executable instance. *)

From Stdlib Require Import String ZArith List Bool Lia Floats.
Import ListNotations.

Local Open Scope Z_scope.

(* ================================================================== *)
(** ** Exceptions and outcomes *)

Inductive exn : Type :=
| ValueError (msg : string)
| OverflowError (msg : string)
| IndexError (msg : string)
| KeyError (key : Z).

Inductive outcome (A : Type) : Type :=
| Returned (a : A)
| Raised (e : exn).

Arguments Returned {A} a.
Arguments Raised {A} e.

Definition bind {A B : Type} (m : outcome A) (k : A -> outcome B) : outcome B :=
  match m with
  | Returned a => k a
  | Raised e => Raised e
  end.

Notation "x <- m ;; k" := (bind m (fun x => k))
  (at level 61, m at next level, right associativity).
Notation "' p <- m ;; k" := (bind m (fun x => match x with p => k end))
  (at level 61, p pattern, m at next level, right associativity).

(* ================================================================== *)
(** ** Floating-point helpers (binary64) *)

Module F.

Local Open Scope float_scope.

(** [np.isnan], [np.isinf], [np.isfinite]. *)
Definition isnan (x : float) : bool := PrimFloat.is_nan x.
Definition isinf (x : float) : bool := PrimFloat.is_infinity x.
Definition isfinite (x : float) : bool := PrimFloat.is_finite x.

(** Conversion of an integer that is known to fit ([int64] to [float64]
    casts of NumPy): round to nearest, ties to even. *)
Definition of_Z (z : Z) : float := SF2Prim (binary_normalize prec emax z 0 false).

(** Python's [float(int)], as used when an [int] meets a [float] in an
    arithmetic operation: correctly rounded, [OverflowError] when the integer
    is too large. *)
Definition of_int (z : Z) : outcome float :=
  match binary_normalize prec emax z 0 false with
  | S754_infinity _ => Raised (OverflowError "int too large to convert to float")
  | sf => Returned (SF2Prim sf)
  end.

(** Python's [int / int] on positive operands: the correctly rounded
    quotient. *)
Definition int_truediv (a b : positive) : float :=
  let '(mz, ez, lz) := SFdiv_core_binary prec emax (Zpos a) 0 (Zpos b) 0 in
  SF2Prim (binary_round_aux prec emax false mz ez lz).

(** [np.ceil] on a scalar. *)
Definition ceil (x : float) : float :=
  match Prim2SF x with
  | S754_finite s m e =>
      if (0 <=? e)%Z then x
      else
        let q := (- ((- cond_Zopp s (Zpos m)) / 2 ^ (- e)))%Z in
        if (q =? 0)%Z then (if s then neg_zero else zero) else of_Z q
  | _ => x
  end.

(** Python's [int(float)]: truncation towards zero. *)
Definition to_int (x : float) : outcome Z :=
  match Prim2SF x with
  | S754_nan => Raised (ValueError "cannot convert float NaN to integer")
  | S754_infinity _ => Raised (OverflowError "cannot convert float infinity to integer")
  | S754_zero _ => Returned 0%Z
  | S754_finite s m e =>
      Returned (cond_Zopp s (if (0 <=? e)%Z then Zpos m * 2 ^ e else Zpos m / 2 ^ (- e)))%Z
  end.

(** [np.maximum]: the larger operand, NaN when either is NaN. *)
Definition maximum (x y : float) : float :=
  if isnan x then x else if isnan y then y else if x <? y then y else x.

(** Python's builtin [max(x, y)]: [y] when [y > x], else [x]. *)
Definition py_max (x y : float) : float := if x <? y then y else x.

(** [np.finfo(np.float64).eps] and [np.pi / 2]. *)
Definition eps : float := 0x1p-52.
Definition pi_2 : float := 0x1.921fb54442d18p+0.

End F.

(* ================================================================== *)
(** ** The platform: C library functions and NumPy's summation *)

(** [np.cosh], [np.sinh], [np.exp], [np.log10] and the floating-point power
    ([x ** y] on [float64] operands other than the special-cased square) are
    computed by the platform's mathematical library; [np.sum] adds the
    elements in an order NumPy chooses. *)
Record Platform : Type := {
  cosh : float -> float;
  sinh : float -> float;
  exp : float -> float;
  log10 : float -> float;
  pow : float -> float -> float;
  np_sum : list float -> float
}.

(** Negation up to the sign of zero: [y] is [-x], or both are zeros.  This
    is how the outputs of two runs on [f] and on [-f] compare. *)
Definition negrel (x y : float) : Prop :=
  y = (- x)%float \/ (PrimFloat.is_zero x = true /\ PrimFloat.is_zero y = true).

(** What every summation order guarantees of [np.sum]: negating the
    summands (up to the sign of zeros) negates the sum, and a sum of
    positive zeros is a positive zero. *)
Definition sum_respects_negation (P : Platform) : Prop :=
  forall l l' : list float, Forall2 negrel l l' -> negrel (np_sum P l) (np_sum P l').

Definition sum_of_zeros (P : Platform) : Prop :=
  forall l : list float, Forall (fun x => x = PrimFloat.zero) l -> np_sum P l = PrimFloat.zero.

(* ================================================================== *)
(** ** NumPy array helpers *)

(** Arrays are lists; no limit on their length (memory, the range of the
    index type) is modelled.

    [np.arange(start, stop, step)] for a positive [step]. *)
Definition arange (start stop step : Z) : list Z :=
  map (fun i => start + step * Z.of_nat i)
      (seq 0 (Z.to_nat ((stop - start + step - 1) / step))).

(** Elementwise binary operation on arrays of equal length. *)
Fixpoint zip_with {A B C : Type} (g : A -> B -> C) (xs : list A) (ys : list B) : list C :=
  match xs, ys with
  | x :: xs', y :: ys' => g x y :: zip_with g xs' ys'
  | _, _ => []
  end.

(** [arr[mask] = 0]. *)
Definition mask_zero (mask : list bool) (arr : list float) : list float :=
  zip_with (fun (m : bool) (x : float) => if m then PrimFloat.zero else x) mask arr.

(** [np.max] of a one-dimensional array. *)
Definition np_max (l : list float) : outcome float :=
  match l with
  | [] => Raised (ValueError "zero-size array to reduction operation maximum which has no identity")
  | x :: t => Returned (fold_left F.maximum t x)
  end.

(** [np.reshape(arr, (2, -1))[:, -1]]: the last entry of each of the two rows
    the array is split into. *)
Definition last_column (arr : list float) : outcome (list float) :=
  let m := Nat.div (length arr) 2 in
  if negb (Nat.eqb (Nat.mul 2 m) (length arr)) then
    Raised (ValueError "cannot reshape array into shape (2,newaxis)")
  else
    match m with
    | O => Raised (IndexError "index -1 is out of bounds for axis 1 with size 0")
    | S m' => Returned [nth m' arr PrimFloat.zero; nth (Nat.add m m') arr PrimFloat.zero]
    end.

(* ================================================================== *)
(** ** The pair generator: [_compute_pairs] *)

(** The constant [6.115] of the source. *)
Definition c6115 : float := 0x1.875c28f5c28f6p+2.

(** [max = int(np.ceil(6.115 * 2**k))]. *)
Definition max_index (k : nat) : outcome Z :=
  p <- F.of_int (2 ^ Z.of_nat k) ;;
  F.to_int (F.ceil (c6115 * p)%float).

(** [j = np.arange(max) if k == 0 else np.arange(1, max, 2)]. *)
Definition pair_indices (k : nat) : outcome (list Z) :=
  mx <- max_index k ;;
  Returned (if Nat.eqb k 0 then arange 0 mx 1 else arange 1 mx 2).

(** [h = 1 / (2 ** k)]. *)
Definition step_size (k : nat) : float := F.int_truediv 1 (Z.to_pos (2 ^ Z.of_nat k)).

Section Pairs.

Variable P : Platform.

Local Open Scope float_scope.

Definition u1_of (jh : float) : float := F.pi_2 * cosh P jh.
Definition u2_of (jh : float) : float := F.pi_2 * sinh P jh.

(** [wj = u1 / np.cosh(u2)**2]; the square of an array is an exact product. *)
Definition weight_of (jh : float) : float :=
  let c := cosh P (u2_of jh) in u1_of jh / (c * c).

(** [xjc = 1 / (np.exp(u2) * np.cosh(u2))]. *)
Definition complement_of (jh : float) : float :=
  1 / (exp P (u2_of jh) * cosh P (u2_of jh)).

(** [wj[0] = wj[0] / 2 if k == 0 else wj[0]]. *)
Definition halve_first (k : nat) (wj : list float) : outcome (list float) :=
  match wj with
  | w0 :: t => Returned ((if Nat.eqb k 0 then w0 / 2 else w0) :: t)
  | [] => Raised (IndexError "index 0 is out of bounds for axis 0 with size 0")
  end.

Definition _compute_pairs (k : nat) : outcome (float * list float * list float) :=
  let h := step_size k in
  j <- pair_indices k ;;
  let jh := map (fun j => F.of_Z j * h) j in
  let wj := map weight_of jh in
  let xjc := map complement_of jh in
  wj <- halve_first k wj ;;
  Returned (h, xjc, wj).

End Pairs.

(* ================================================================== *)
(** ** Input validation and domain transformation: [_quadts_iv] *)

(** The integrand.  It is called on an array and works elementwise, so a
    batch call is [map f]. *)
Definition integrand : Type := float -> float.

(** What [_quadts_iv] returns:
    [f, a, b, maxfun, maxiter, atol, rtol, minweight, feval_factor]. *)
Record Standardized : Type := {
  iv_f : integrand;
  iv_a : float;
  iv_b : float;
  iv_maxfun : Z;
  iv_maxiter : Z;
  iv_atol : float;
  iv_rtol : float;
  iv_minweight : float;
  iv_feval_factor : Z
}.

Section Validation.

Variable P : Platform.

Local Open Scope float_scope.

(** [if b < a: f = -f; a, b = b, a]. *)
Definition orient (f : integrand) (a b : float) : integrand * float * float :=
  if b <? a then (fun x => - f x, b, a) else (f, a, b).

(** The treatment of a doubly infinite or lower-infinite range. *)
Definition fold_infinite (f : integrand) (a b : float) : integrand * float * float * Z :=
  if F.isinf a && F.isinf b then (fun x => f x + f (- x), 0, infinity, 2%Z)
  else if F.isinf a then (fun x => f (- x), - b, - a, 1%Z)
  else (f, a, b, 1%Z).

(** [if np.isinf(b): f = f(1/x - 1 + a)*x**-2; a, b = 0, 1]. *)
Definition compactify (f : integrand) (a b : float) : integrand * float * float :=
  if F.isinf b then (fun x => f (1 / x - 1 + a) * pow P x (-2), 0, 1)
  else (f, a, b).

Definition _quadts_iv (f : integrand) (a b : float) (maxfun maxiter : Z)
    (atol rtol minweight : float) : outcome Standardized :=
  (* [f] is a function: [callable(f)] holds.  The five reals are floats:
     the dtype test holds. *)
  if existsb F.isnan [a; b; atol; rtol; minweight] then
    Raised (ValueError "Integration limits `a` and `b`, tolerances `atol` and `rtol`, and `minweight` must be reals.")
  else if existsb (fun x => x <=? 0) [rtol; minweight] || existsb F.isinf [rtol; minweight] then
    Raised (ValueError "`rtol` and `minweight` must be positive and finite.")
  else if (atol <? 0) || F.isinf atol then
    Raised (ValueError "`atol` must be non-negative and finite.")
  else if existsb (fun z => (z <=? 0)%Z) [maxfun; maxiter] then
    Raised (ValueError "`maxfun` and `maxiter` must be positive.")
  else
    let '(f, a, b) := orient f a b in
    let '(f, a, b, feval_factor) := fold_infinite f a b in
    let '(f, a, b) := compactify f a b in
    Returned {| iv_f := f; iv_a := a; iv_b := b; iv_maxfun := maxfun;
                iv_maxiter := maxiter; iv_atol := atol; iv_rtol := rtol;
                iv_minweight := minweight; iv_feval_factor := feval_factor |}.

End Validation.

(* ================================================================== *)
(** ** The result record and the status messages *)

Record QuadratureResult : Type := {
  integral : float;
  error : float;
  feval : Z;
  success : bool;
  status : Z;
  message : string
}.

Definition _status_messages : list (Z * string) :=
  [ (-1, "Iteration in progress.");
    (0, "The algorithm completed successfully, and the error estimate meets the requested tolerance.");
    (1, "The error estimate does not meet the specified tolerance, but performing additional iterations cause the function evaluation limit to be exceeded.");
    (2, "The error estimate does not meet the specified tolerance, but performing additional iterations would cause the iteration limit to be exceeded.");
    (3, "An invalid value (e.g. overflow, NaN) was encountered within the integration interval. See documentation notes for more information.") ]%string.

Fixpoint dict_get (d : list (Z * string)) (key : Z) : outcome string :=
  match d with
  | [] => Raised (KeyError key)
  | (k, v) :: d' => if (k =? key)%Z then Returned v else dict_get d' key
  end.

(* ================================================================== *)
(** ** The quadrature engine: the loop of [_tanhsinh] *)

(** The variables the loop updates. *)
Record LoopState : Type := {
  st_Sk : list float;   (* integral estimates of the completed iterations *)
  st_Sn : float;        (* current integral estimate *)
  st_aerr : float;      (* current error estimate *)
  st_status : Z;
  st_feval : Z
}.

(** How one pass through the loop body ends. *)
Inductive step_result : Type :=
| Continue (st : LoopState)   (* falls through to the next iteration *)
| Break (st : LoopState).     (* leaves the loop by [break] *)

(** The loop variables at the end of a pass. *)
Definition state_of (r : step_result) : LoopState :=
  match r with
  | Continue st => st
  | Break st => st
  end.

(** [Snm2, Snm1 = Sk[-2:]]. *)
Definition last_two (Sk : list float) : outcome (float * float) :=
  match rev Sk with
  | s1 :: s2 :: _ => Returned (s2, s1)
  | _ => Raised (ValueError "not enough values to unpack (expected 2)")
  end.

Section Engine.

Variable P : Platform.

(** The values [_quadts_iv] hands to the loop. *)
Variable f : integrand.
Variables a b : float.
Variables maxfun maxiter : Z.
Variables atol rtol minweight : float.
Variable feval_factor : Z.

Local Open Scope float_scope.

Definition alpha : float := (b - a) / 2.

(** [xj = np.concatenate((-alpha * xjc + b, alpha * xjc + a))]. *)
Definition abscissas (xjc : list float) : list float :=
  map (fun x => - alpha * x + b) xjc ++ map (fun x => alpha * x + a) xjc.

(** [wj *= alpha; wj = np.concatenate((wj, wj))]. *)
Definition scaled_weights (wj : list float) : list float :=
  let wj := map (fun w => w * alpha) wj in wj ++ wj.

(** [len(xj)]. *)
Definition points (xjc : list float) : Z := Z.of_nat (length (abscissas xjc)).

(** [invalid = (xj <= a) | (xj >= b) | (wj <= minweight)]. *)
Definition invalid (x w : float) : bool :=
  (x <=? a) || (b <=? x) || (w <=? minweight).

(** The per-point products after [fjwj[invalid] = 0]. *)
Definition contributions (xjc wj : list float) : list float :=
  let xj := abscissas xjc in
  let wj := scaled_weights wj in
  let fj := map f xj in
  let fjwj := zip_with mul fj wj in
  mask_zero (zip_with invalid xj wj) fjwj.

(** [Snm1 = 0 if not Sk else Sk[-1]; Sn = Snm1/2 + np.sum(fjwj) * h]. *)
Definition estimate (Sk : list float) (fjwj : list float) (h : float) : float :=
  let Snm1 := last Sk 0 in
  Snm1 / 2 + np_sum P fjwj * h.

(** [d4 = np.log10(np.max(np.reshape(np.abs(fjwj), (2, -1))[:, -1]))]. *)
Definition d4_term (fjwj : list float) : outcome float :=
  col <- last_column (map abs fjwj) ;;
  m <- np_max col ;;
  Returned (log10 P m).

(** The error estimate of an iteration [n >= 2]: [(rerr, aerr)]. *)
Definition error_estimate (Sk : list float) (Sn : float) (fjwj : list float)
    : outcome (float * float) :=
  '(Snm2, Snm1) <- last_two Sk ;;
  let d1 := log10 P (abs (Sn - Snm1)) in
  let d2 := log10 P (abs (Sn - Snm2)) in
  let e1 := F.eps in
  m <- np_max (map abs fjwj) ;;
  let d3 := log10 P (e1 * m) in
  d4 <- d4_term fjwj ;;
  d <- np_max [pow P d1 2 / d2; 2 * d1; d3; d4] ;;
  let rerr := pow P 10 d in
  let aerr := F.py_max F.eps rerr * abs Sn in
  Returned (rerr, aerr).

(** [rerr < rtol or rerr*abs(Sn) < atol]. *)
Definition converged (rerr Sn : float) : bool :=
  (rerr <? rtol) || (rerr * abs Sn <? atol).

(** The body of the loop at level [n]. *)
Definition iteration (n : nat) (st : LoopState) : outcome step_result :=
  '(h, xjc, wj) <- _compute_pairs P n ;;
  let len_xj := points xjc in
  if (st_feval st + len_xj * feval_factor >? maxfun)%Z then
    Returned (Break {| st_Sk := st_Sk st; st_Sn := st_Sn st; st_aerr := st_aerr st;
                       st_status := 1; st_feval := st_feval st |})
  else
    let feval' := (st_feval st + len_xj * feval_factor)%Z in
    let fjwj := contributions xjc wj in
    if negb (forallb F.isfinite fjwj) then
      Returned (Break {| st_Sk := st_Sk st; st_Sn := st_Sn st; st_aerr := st_aerr st;
                         st_status := 3; st_feval := feval' |})
    else
      let Sn := estimate (st_Sk st) fjwj h in
      if (2 <=? n)%nat then
        '(rerr, aerr) <- error_estimate (st_Sk st) Sn fjwj ;;
        if converged rerr Sn then
          Returned (Break {| st_Sk := st_Sk st; st_Sn := Sn; st_aerr := aerr;
                             st_status := 0; st_feval := feval' |})
        else
          Returned (Continue {| st_Sk := st_Sk st ++ [Sn]; st_Sn := Sn; st_aerr := aerr;
                                st_status := st_status st; st_feval := feval' |})
      else
        Returned (Continue {| st_Sk := st_Sk st ++ [Sn]; st_Sn := Sn; st_aerr := st_aerr st;
                              st_status := st_status st; st_feval := feval' |}).

(** The state after the [else] clause of the loop. *)
Definition exhausted (st : LoopState) : LoopState :=
  {| st_Sk := st_Sk st; st_Sn := st_Sn st; st_aerr := st_aerr st;
     st_status := 2; st_feval := st_feval st |}.

(** [for n in range(maxiter): ... else: status = 2], from level [n] with
    [fuel] iterations left. *)
Fixpoint loop (fuel : nat) (n : nat) (st : LoopState) : outcome LoopState :=
  match fuel with
  | O => Returned (exhausted st)
  | S fuel' =>
      r <- iteration n st ;;
      match r with
      | Break st' => Returned st'
      | Continue st' => loop fuel' (S n) st'
      end
  end.

(** [Sk = []; Sn = aerr = np.nan; status = -1; feval = 0]. *)
Definition initial_state : LoopState :=
  {| st_Sk := []; st_Sn := nan; st_aerr := nan; st_status := -1; st_feval := 0 |}.

Definition run_loop : outcome LoopState := loop (Z.to_nat maxiter) 0 initial_state.

(** The record built after the loop. *)
Definition report (st : LoopState) : outcome QuadratureResult :=
  message <- dict_get _status_messages (st_status st) ;;
  Returned {| integral := st_Sn st; error := st_aerr st; feval := st_feval st;
              success := (st_status st =? 0)%Z; status := st_status st;
              message := message |}.

Definition engine : outcome QuadratureResult := st <- run_loop ;; report st.

(** States of the loop: [steps n st m st'] when the iterations [n], ...,
    [m - 1], started in [st], all fall through and leave [st']. *)
Inductive steps : nat -> LoopState -> nat -> LoopState -> Prop :=
| steps_refl n st : steps n st n st
| steps_cons n st st' m st'' :
    iteration n st = Returned (Continue st') ->
    steps (S n) st' m st'' ->
    steps n st m st''.

(** [reaches n st]: the loop enters iteration [n] in state [st]. *)
Definition reaches (n : nat) (st : LoopState) : Prop := steps 0 initial_state n st.

(** Iteration [n], entered in [st], gets as far as its convergence check:
    it is one of the iterations [n >= 2], the level fits the evaluation
    budget and every contribution is finite. *)
Definition checks_convergence (n : nat) (st : LoopState) : Prop :=
  exists h xjc wj,
    _compute_pairs P n = Returned (h, xjc, wj) /\
    (2 <= n)%nat /\
    (st_feval st + points xjc * feval_factor <= maxfun)%Z /\
    forallb F.isfinite (contributions xjc wj) = true.

(** The five ways through the body of the loop. *)
Inductive iteration_case (n : nat) (st : LoopState) : step_result -> Prop :=
| case_budget h xjc wj :
    _compute_pairs P n = Returned (h, xjc, wj) ->
    (st_feval st + points xjc * feval_factor > maxfun)%Z ->
    iteration_case n st
      (Break {| st_Sk := st_Sk st; st_Sn := st_Sn st; st_aerr := st_aerr st;
                st_status := 1; st_feval := st_feval st |})
| case_invalid h xjc wj :
    _compute_pairs P n = Returned (h, xjc, wj) ->
    (st_feval st + points xjc * feval_factor <= maxfun)%Z ->
    forallb F.isfinite (contributions xjc wj) = false ->
    iteration_case n st
      (Break {| st_Sk := st_Sk st; st_Sn := st_Sn st; st_aerr := st_aerr st;
                st_status := 3;
                st_feval := st_feval st + points xjc * feval_factor |})
| case_early h xjc wj :
    _compute_pairs P n = Returned (h, xjc, wj) ->
    (st_feval st + points xjc * feval_factor <= maxfun)%Z ->
    forallb F.isfinite (contributions xjc wj) = true ->
    (n < 2)%nat ->
    let Sn := estimate (st_Sk st) (contributions xjc wj) h in
    iteration_case n st
      (Continue {| st_Sk := st_Sk st ++ [Sn]; st_Sn := Sn; st_aerr := st_aerr st;
                   st_status := st_status st;
                   st_feval := st_feval st + points xjc * feval_factor |})
| case_converged h xjc wj rerr aerr :
    _compute_pairs P n = Returned (h, xjc, wj) ->
    (st_feval st + points xjc * feval_factor <= maxfun)%Z ->
    forallb F.isfinite (contributions xjc wj) = true ->
    (2 <= n)%nat ->
    let Sn := estimate (st_Sk st) (contributions xjc wj) h in
    error_estimate (st_Sk st) Sn (contributions xjc wj) = Returned (rerr, aerr) ->
    converged rerr Sn = true ->
    iteration_case n st
      (Break {| st_Sk := st_Sk st; st_Sn := Sn; st_aerr := aerr;
                st_status := 0;
                st_feval := st_feval st + points xjc * feval_factor |})
| case_refine h xjc wj rerr aerr :
    _compute_pairs P n = Returned (h, xjc, wj) ->
    (st_feval st + points xjc * feval_factor <= maxfun)%Z ->
    forallb F.isfinite (contributions xjc wj) = true ->
    (2 <= n)%nat ->
    let Sn := estimate (st_Sk st) (contributions xjc wj) h in
    error_estimate (st_Sk st) Sn (contributions xjc wj) = Returned (rerr, aerr) ->
    converged rerr Sn = false ->
    iteration_case n st
      (Continue {| st_Sk := st_Sk st ++ [Sn]; st_Sn := Sn; st_aerr := aerr;
                   st_status := st_status st;
                   st_feval := st_feval st + points xjc * feval_factor |}).

End Engine.

(** [_tanhsinh(f, a, b, *, maxfun, maxiter, atol, rtol, minweight)]. *)
Definition _tanhsinh (P : Platform) (f : integrand) (a b : float)
    (maxfun maxiter : Z) (atol rtol minweight : float) : outcome QuadratureResult :=
  iv <- _quadts_iv P f a b maxfun maxiter atol rtol minweight ;;
  engine P (iv_f iv) (iv_a iv) (iv_b iv) (iv_maxfun iv) (iv_maxiter iv)
         (iv_atol iv) (iv_rtol iv) (iv_minweight iv) (iv_feval_factor iv).

(** Two runs whose results agree except that the integral of the second is
    the negation of the integral of the first, up to the sign of a zero. *)
Definition result_negrel (r r' : QuadratureResult) : Prop :=
  negrel (integral r) (integral r') /\ error r' = error r /\ feval r' = feval r /\
  success r' = success r /\ status r' = status r /\ message r' = message r.

(** Two outcomes that raise the same exception or return related values. *)
Definition outcome_rel {A : Type} (R : A -> A -> Prop) (o o' : outcome A) : Prop :=
  match o, o' with
  | Returned x, Returned x' => R x x'
  | Raised e, Raised e' => e = e'
  | _, _ => False
  end.

Definition outcome_negrel (o o' : outcome QuadratureResult) : Prop :=
  outcome_rel result_negrel o o'.

(** The same relation on the variables of the loop. *)
Definition state_negrel (st st' : LoopState) : Prop :=
  Forall2 negrel (st_Sk st) (st_Sk st') /\ negrel (st_Sn st) (st_Sn st') /\
  st_aerr st' = st_aerr st /\ st_status st' = st_status st /\ st_feval st' = st_feval st.

Definition step_negrel (r r' : step_result) : Prop :=
  match r, r' with
  | Continue st, Continue st' => state_negrel st st'
  | Break st, Break st' => state_negrel st st'
  | _, _ => False
  end.

(** What [_quadts_iv] returns for [(a, b)] and for [(b, a)], [a < b]: the
    same limits and settings, and integrands that are negations of each
    other at every point. *)
Definition standardized_negrel (iv iv' : Standardized) : Prop :=
  (forall x, negrel (iv_f iv x) (iv_f iv' x)) /\
  iv_a iv' = iv_a iv /\ iv_b iv' = iv_b iv /\
  iv_maxfun iv' = iv_maxfun iv /\ iv_maxiter iv' = iv_maxiter iv /\
  iv_atol iv' = iv_atol iv /\ iv_rtol iv' = iv_rtol iv /\
  iv_minweight iv' = iv_minweight iv /\ iv_feval_factor iv' = iv_feval_factor iv.

(** The keyword defaults:
    [maxfun=5000, maxiter=10, atol=0, rtol=1e-14, minweight=1e-100]. *)
Definition default_maxfun : Z := 5000.
Definition default_maxiter : Z := 10.
Definition default_atol : float := 0%float.
Definition default_rtol : float := 0x1.6849b86a12b9bp-47%float.
Definition default_minweight : float := 0x1.bff2ee48e053p-333%float.

(* ================================================================== *)
(** ** The specification's reading of [d4]

    The specification describes [d4] as the logarithm of the largest
    absolute contribution over the last half of the points.  This second
    definition follows those words, to be compared with [d4_term]. *)

Definition last_half (arr : list float) : list float :=
  skipn (Nat.div (length arr) 2) arr.

Definition spec_d4 (P : Platform) (fjwj : list float) : outcome float :=
  m <- np_max (map abs (last_half fjwj)) ;;
  Returned (log10 P m).

(** The error estimate [(rerr, aerr)] of the specification's convergence
    check: its [d1], [d2], [d3], its [d4] over the last half of the points,
    [d = max(d1^2/d2, 2*d1, d3, d4)], [rerr = 10^d] and
    [aerr = max(machine_epsilon, rerr) * |Sn|]. *)
Definition spec_error_estimate (P : Platform) (Sk : list float) (Sn : float)
    (fjwj : list float) : outcome (float * float) :=
  '(Snm2, Snm1) <- last_two Sk ;;
  let d1 := log10 P (abs (Sn - Snm1)%float) in
  let d2 := log10 P (abs (Sn - Snm2)%float) in
  m <- np_max (map abs fjwj) ;;
  let d3 := log10 P (F.eps * m)%float in
  d4 <- spec_d4 P fjwj ;;
  d <- np_max [(pow P d1 2 / d2)%float; (2 * d1)%float; d3; d4] ;;
  let rerr := pow P 10 d in
  let aerr := (F.py_max F.eps rerr * abs Sn)%float in
  Returned (rerr, aerr).

(* ================================================================== *)
(** ** The specification's reading of the index range

    The specification gives the indices as [0..M-1] at level 0 and the odd
    numbers [1,3,5,...] up to [M-1] at the other levels, with
    [M = ceil(6.115 * 2^k)].  These definitions follow those words; the real
    number [6.115 * 2^k] is taken with the binary64 value of the literal
    [6.115], which is [c6115_scaled / 2^50]. *)

Definition c6115_scaled : Z := 6884877930342646.

Definition exact_max_index (k : nat) : Z :=
  - ((- (c6115_scaled * 2 ^ Z.of_nat k)) / 2 ^ 50).

Definition spec_indices (k : nat) (M : Z) : list Z :=
  let every := map Z.of_nat (seq 0 (Z.to_nat M)) in
  if Nat.eqb k 0 then every else filter Z.odd every.

(** The check that level [k] has the index bound and the step size of the
    specification. *)
Definition level_ok (k : nat) : bool :=
  match max_index k with
  | Returned m =>
      (m =? exact_max_index k)%Z &&
      PrimFloat.Leibniz.eqb (step_size k) (Z.ldexp 1 (- Z.of_nat k))
  | Raised _ => false
  end.

(* ================================================================== *)
(** ** Sizes of the levels, and the integer arguments

    Quantities the further properties at the end are stated with. *)

(** The number of pairs of level [k]: 7 at level 0, and half of
    [ceil(6.115 * 2^k)], rounded down, at the other levels. *)
Definition level_pairs (k : nat) : Z :=
  if Nat.eqb k 0 then 7 else exact_max_index k / 2.

(** The check that level [k + 1] has half the step of level [k] and twice
    its number of pairs, give or take one. *)
Definition doubling_ok (k : nat) : bool :=
  PrimFloat.Leibniz.eqb (step_size (S k)) (step_size k / 2)%float &&
  (2 * level_pairs k - 1 <=? level_pairs (S k)) &&
  (level_pairs (S k) <=? 2 * level_pairs k + 1).

(** The check of the size of level [k]. *)
Definition size_ok (k : nat) : bool :=
  (6 * 2 ^ Z.of_nat k <=? 2 * level_pairs k) &&
  (2 * level_pairs k <=? 14 * 2 ^ Z.of_nat k).

(** The number of points of the levels [0], ..., [n - 1]. *)
Fixpoint evaluations (n : nat) : Z :=
  match n with
  | O => 0
  | S m => evaluations m + 2 * level_pairs m
  end.

(** The integers NumPy stores as [int64]: for these the integer-type check
    of [_quadts_iv] holds. *)
Definition fits_int64 (z : Z) : Prop := (- 2 ^ 63 <= z < 2 ^ 63)%Z.

(* ================================================================== *)
(** ** A reference platform

    An executable instance of [Platform], used to run the model: [exp] by
    argument reduction and a Taylor polynomial, the hyperbolic functions from
    it, [log10] from the inverse hyperbolic tangent series, and a
    left-to-right sum.  It is accurate to a few units in the last place. *)

Module Ref.

Local Open Scope float_scope.

Definition ln2_hi : float := 0x1.62e42fee00000p-1.
Definition ln2_lo : float := 0x1.a39ef35793c76p-33.
Definition inv_ln2 : float := 0x1.71547652b82fep+0.
Definition ln10 : float := 0x1.26bb1bbb55516p+1.
Definition log10_e : float := 0x1.bcb7b1526e50dp-2.
Definition log10_2 : float := 0x1.34413509f79ffp-2.
Definition sqrt_half : float := 0x1.6a09e667f3bcdp-1.

Definition trunc_Z (x : float) : Z :=
  match F.to_int x with
  | Returned z => z
  | Raised _ => 0%Z
  end.

(** [1 + r/1 (1 + r/2 (1 + ... (1 + r/n)))]. *)
Fixpoint exp_poly (r : float) (i : float) (n : nat) : float :=
  match n with
  | O => 1
  | S n' => 1 + r / i * exp_poly r (i + 1) n'
  end.

Definition exp (x : float) : float :=
  if F.isnan x then x
  else if 0x1.62e42fefa39efp+9 <? x then infinity
  else if x <? -0x1.749999999999ap+9 then 0
  else
    let k := trunc_Z (F.ceil (x * inv_ln2 - 0.5)) in
    let kf := F.of_Z k in
    let r := (x - kf * ln2_hi) - kf * ln2_lo in
    Z.ldexp (exp_poly r 1 14) k.

(** [1 + z/(a(a+1)) (1 + z/((a+2)(a+3)) (...))]. *)
Fixpoint sinh_poly (z : float) (a : float) (n : nat) : float :=
  match n with
  | O => 1
  | S n' => 1 + z / (a * (a + 1)) * sinh_poly z (a + 2) n'
  end.

Definition sinh (x : float) : float :=
  if abs x <? 0.5 then x * sinh_poly (x * x) 2 8
  else
    let e := exp (abs x) in
    let s := (e - 1 / e) / 2 in
    if x <? 0 then - s else s.

Definition cosh (x : float) : float :=
  let e := exp (abs x) in (e + 1 / e) / 2.

(** [1/a + z (1/(a+2) + z (...))]. *)
Fixpoint atanh_poly (z : float) (a : float) (n : nat) : float :=
  match n with
  | O => 1 / a
  | S n' => 1 / a + z * atanh_poly z (a + 2) n'
  end.

Definition ln_mantissa (m : float) : float :=
  let s := (m - 1) / (m + 1) in
  2 * s * atanh_poly (s * s) 1 13.

Definition log10 (x : float) : float :=
  if F.isnan x then x
  else if x <? 0 then nan
  else if x =? 0 then neg_infinity
  else if x =? infinity then x
  else
    let '(m, e) := Z.frexp x in
    let '(m, e) := if m <? sqrt_half then (2 * m, (e - 1)%Z) else (m, e) in
    F.of_Z e * log10_2 + ln_mantissa m * log10_e.

Definition pow (x y : float) : float :=
  if y =? 2 then x * x
  else if y =? -2 then 1 / (x * x)
  else if F.isnan x || F.isnan y then nan
  else exp (y * (log10 x * ln10)).

(** The sum of the elements from left to right. *)
Definition np_sum (l : list float) : float :=
  match l with
  | [] => 0
  | x :: t => fold_left add t x
  end.

End Ref.

Definition ref_platform : Platform :=
  {| cosh := Ref.cosh; sinh := Ref.sinh; exp := Ref.exp;
     log10 := Ref.log10; pow := Ref.pow; np_sum := Ref.np_sum |}.

(* ================================================================== *)
(** * Properties *)

(** ** Facts about binary64 arithmetic *)

Module FloatFacts.

Local Open Scope float_scope.

Definition SFis_nan (x : spec_float) : bool :=
  match x with S754_nan => true | _ => false end.

Definition SFis_inf (x : spec_float) : bool :=
  match x with S754_infinity _ => true | _ => false end.

Definition SFis_zero (x : spec_float) : bool :=
  match x with S754_zero _ => true | _ => false end.

Lemma SFcompare_refl_finite s m e :
  SFcompare (S754_finite s m e) (S754_finite s m e) = Some Eq.
Proof.
  simpl. rewrite Z.compare_refl.
  assert (H : Pos.compare_cont Eq m m = Eq) by apply Pos.compare_refl.
  rewrite H. destruct s; reflexivity.
Qed.

Lemma isnan_spec x : F.isnan x = SFis_nan (Prim2SF x).
Proof.
  unfold F.isnan, is_nan. rewrite eqb_spec. unfold SFeqb.
  destruct (Prim2SF x) as [s|s| |s m e]; try (destruct s; reflexivity); try reflexivity.
  rewrite SFcompare_refl_finite. reflexivity.
Qed.

Lemma Prim2SF_infinity : Prim2SF infinity = S754_infinity false.
Proof. reflexivity. Qed.

Lemma Prim2SF_zero : Prim2SF zero = S754_zero false.
Proof. reflexivity. Qed.

Lemma isinf_spec x : F.isinf x = SFis_inf (Prim2SF x).
Proof.
  unfold F.isinf, is_infinity. rewrite eqb_spec, abs_spec, Prim2SF_infinity.
  destruct (Prim2SF x) as [s|s| |s m e]; reflexivity.
Qed.

Lemma isfinite_spec x :
  F.isfinite x = negb (SFis_nan (Prim2SF x) || SFis_inf (Prim2SF x)).
Proof.
  unfold F.isfinite, is_finite.
  change (is_nan x) with (F.isnan x). change (is_infinity x) with (F.isinf x).
  rewrite isnan_spec, isinf_spec. reflexivity.
Qed.

Lemma is_zero_spec x : is_zero x = SFis_zero (Prim2SF x).
Proof.
  unfold is_zero. rewrite eqb_spec, Prim2SF_zero.
  destruct (Prim2SF x) as [s|s| |s m e]; try reflexivity; destruct s; reflexivity.
Qed.


(** *** Negation up to the sign of zero, on specification floats *)

Definition SFnegrel (x y : spec_float) : Prop :=
  y = SFopp x \/ (SFis_zero x = true /\ SFis_zero y = true).

Lemma binary_round_aux_opp s m e l :
  binary_round_aux prec emax (negb s) m e l = SFopp (binary_round_aux prec emax s m e l).
Proof.
  unfold binary_round_aux.
  destruct (shr_fexp prec emax m e l) as [mrs' e'].
  destruct (shr_fexp prec emax _ e' loc_Exact) as [mrs'' e''].
  destruct (shr_m mrs''); try reflexivity.
  destruct (e'' <=? emax - prec)%Z; reflexivity.
Qed.

Lemma binary_round_opp s m e :
  binary_round prec emax (negb s) m e = SFopp (binary_round prec emax s m e).
Proof.
  unfold binary_round.
  destruct (shl_align m e _) as [mz ez]. apply binary_round_aux_opp.
Qed.

Lemma binary_normalize_negrel m e :
  SFnegrel (binary_normalize prec emax m e false) (binary_normalize prec emax (- m) e false).
Proof.
  destruct m as [|p|p]; simpl.
  - right. split; reflexivity.
  - left. apply (binary_round_opp false).
  - left. apply (binary_round_opp true).
Qed.

Lemma cond_Zopp_negb s m : cond_Zopp (negb s) m = (- cond_Zopp s m)%Z.
Proof. destruct s; simpl; lia. Qed.

Ltac negrel_done :=
  solve [ left; reflexivity | right; split; reflexivity ].

Lemma SFadd_negrel x1 y1 x2 y2 :
  SFnegrel x1 y1 -> SFnegrel x2 y2 ->
  SFnegrel (SF64add x1 x2) (SF64add y1 y2).
Proof.
  unfold SF64add.
  intros [H1|[H1 H1']] [H2|[H2 H2']]; subst.
  - destruct x1 as [[]|[]| |s1 m1 e1], x2 as [[]|[]| |s2 m2 e2];
      try negrel_done.
    simpl SFopp. unfold SFadd. cbv zeta.
    rewrite !cond_Zopp_negb, <- Z.opp_add_distr.
    apply binary_normalize_negrel.
  - destruct x2 as [s2|s2| |s2 m2 e2]; try discriminate.
    destruct y2 as [s2'|s2'| |s2' m2' e2']; try discriminate.
    destruct x1 as [[]|[]| |s1 m1 e1], s2, s2'; negrel_done.
  - destruct x1 as [s1|s1| |s1 m1 e1]; try discriminate.
    destruct y1 as [s1'|s1'| |s1' m1' e1']; try discriminate.
    destruct x2 as [[]|[]| |s2 m2 e2], s1, s1'; negrel_done.
  - destruct x1 as [[]|s1| |s1 m1 e1]; try discriminate;
    destruct y1 as [[]|s1'| |s1' m1' e1']; try discriminate;
    destruct x2 as [[]|s2| |s2 m2 e2]; try discriminate;
    destruct y2 as [[]|s2'| |s2' m2' e2']; try discriminate; negrel_done.
Qed.

Lemma SFsub_negrel x1 y1 x2 y2 :
  SFnegrel x1 y1 -> SFnegrel x2 y2 ->
  SFnegrel (SF64sub x1 x2) (SF64sub y1 y2).
Proof.
  unfold SF64sub.
  intros [H1|[H1 H1']] [H2|[H2 H2']]; subst.
  - destruct x1 as [[]|[]| |s1 m1 e1], x2 as [[]|[]| |s2 m2 e2];
      try negrel_done.
    simpl SFopp. unfold SFsub. cbv zeta.
    rewrite !cond_Zopp_negb.
    replace (- cond_Zopp s1 (Z.pos (fst (shl_align m1 e1 (Z.min e1 e2))))
             - - cond_Zopp s2 (Z.pos (fst (shl_align m2 e2 (Z.min e1 e2)))))%Z
      with (- (cond_Zopp s1 (Z.pos (fst (shl_align m1 e1 (Z.min e1 e2))))
              - cond_Zopp s2 (Z.pos (fst (shl_align m2 e2 (Z.min e1 e2))))))%Z by lia.
    apply binary_normalize_negrel.
  - destruct x2 as [s2|s2| |s2 m2 e2]; try discriminate.
    destruct y2 as [s2'|s2'| |s2' m2' e2']; try discriminate.
    destruct x1 as [[]|[]| |s1 m1 e1], s2, s2'; negrel_done.
  - destruct x1 as [s1|s1| |s1 m1 e1]; try discriminate.
    destruct y1 as [s1'|s1'| |s1' m1' e1']; try discriminate.
    destruct x2 as [[]|[]| |[] m2 e2], s1, s1'; negrel_done.
  - destruct x1 as [[]|s1| |s1 m1 e1]; try discriminate;
    destruct y1 as [[]|s1'| |s1' m1' e1']; try discriminate;
    destruct x2 as [[]|s2| |s2 m2 e2]; try discriminate;
    destruct y2 as [[]|s2'| |s2' m2' e2']; try discriminate; negrel_done.
Qed.

Lemma SFmul_negrel x y c :
  SFnegrel x y -> SFnegrel (SF64mul x c) (SF64mul y c).
Proof.
  unfold SF64mul.
  intros [H|[H H']]; subst.
  - left. destruct x as [s|s| |s m e], c as [sc|sc| |sc mc ec];
      try reflexivity; try (destruct s, sc; reflexivity).
    change (binary_round_aux prec emax (xorb (negb s) sc) (Zpos (m * mc)) (e + ec) loc_Exact
            = SFopp (binary_round_aux prec emax (xorb s sc) (Zpos (m * mc)) (e + ec) loc_Exact)).
    rewrite <- binary_round_aux_opp. f_equal. destruct s, sc; reflexivity.
  - destruct x as [s| | |]; try discriminate.
    destruct y as [s'| | |]; try discriminate.
    destruct c as [[]|[]| |[] mc ec], s, s'; negrel_done.
Qed.

Lemma SFdiv_negrel x y c :
  SFnegrel x y -> SFnegrel (SF64div x c) (SF64div y c).
Proof.
  unfold SF64div.
  intros [H|[H H']]; subst.
  - left. destruct x as [s|s| |s m e], c as [sc|sc| |sc mc ec];
      try reflexivity; try (destruct s, sc; reflexivity).
    change ((let '(mz, ez, lz) := SFdiv_core_binary prec emax (Z.pos m) e (Z.pos mc) ec in
             binary_round_aux prec emax (xorb (negb s) sc) mz ez lz)
            = SFopp (let '(mz, ez, lz) := SFdiv_core_binary prec emax (Z.pos m) e (Z.pos mc) ec in
                     binary_round_aux prec emax (xorb s sc) mz ez lz)).
    destruct (SFdiv_core_binary prec emax (Z.pos m) e (Z.pos mc) ec) as [[mz ez] lz].
    rewrite <- binary_round_aux_opp. f_equal. destruct s, sc; reflexivity.
  - destruct x as [s| | |]; try discriminate.
    destruct y as [s'| | |]; try discriminate.
    destruct c as [[]|[]| |[] mc ec], s, s'; negrel_done.
Qed.

Lemma SFabs_negrel x y : SFnegrel x y -> SFabs x = SFabs y.
Proof.
  intros [H|[H H']]; subst.
  - destruct x; reflexivity.
  - destruct x; try discriminate. destruct y; try discriminate. reflexivity.
Qed.

Lemma SFis_nan_negrel x y : SFnegrel x y -> SFis_nan x = SFis_nan y.
Proof.
  intros [H|[H H']]; subst.
  - destruct x; reflexivity.
  - destruct x; try discriminate. destruct y; try discriminate. reflexivity.
Qed.

Lemma SFis_inf_negrel x y : SFnegrel x y -> SFis_inf x = SFis_inf y.
Proof.
  intros [H|[H H']]; subst.
  - destruct x; reflexivity.
  - destruct x; try discriminate. destruct y; try discriminate. reflexivity.
Qed.


(** *** The same facts on primitive floats *)

Lemma negrel_spec x y : negrel x y <-> SFnegrel (Prim2SF x) (Prim2SF y).
Proof.
  unfold negrel, SFnegrel. rewrite !is_zero_spec. split.
  - intros [H|H]; [left|right; exact H]. subst. apply opp_spec.
  - intros [H|H]; [left|right; exact H].
    apply Prim2SF_inj. rewrite opp_spec. exact H.
Qed.

Lemma negrel_opp x : negrel x (- x).
Proof. left. reflexivity. Qed.

Lemma negrel_zero : negrel 0 0.
Proof. right. split; reflexivity. Qed.

Lemma negrel_add x1 y1 x2 y2 :
  negrel x1 y1 -> negrel x2 y2 -> negrel (x1 + x2) (y1 + y2).
Proof. rewrite !negrel_spec, !add_spec. apply SFadd_negrel. Qed.

Lemma negrel_sub x1 y1 x2 y2 :
  negrel x1 y1 -> negrel x2 y2 -> negrel (x1 - x2) (y1 - y2).
Proof. rewrite !negrel_spec, !sub_spec. apply SFsub_negrel. Qed.

Lemma negrel_mul x y c : negrel x y -> negrel (x * c) (y * c).
Proof. rewrite !negrel_spec, !mul_spec. apply SFmul_negrel. Qed.

Lemma negrel_div x y c : negrel x y -> negrel (x / c) (y / c).
Proof. rewrite !negrel_spec, !div_spec. apply SFdiv_negrel. Qed.

Lemma negrel_abs x y : negrel x y -> abs x = abs y.
Proof.
  rewrite negrel_spec. intros H. apply Prim2SF_inj. rewrite !abs_spec.
  apply SFabs_negrel, H.
Qed.

Lemma negrel_isfinite x y : negrel x y -> F.isfinite x = F.isfinite y.
Proof.
  rewrite negrel_spec. intros H. rewrite !isfinite_spec.
  rewrite (SFis_nan_negrel _ _ H), (SFis_inf_negrel _ _ H). reflexivity.
Qed.

(** *** The reference summation obeys the summation laws *)

Lemma fold_add_negrel l l' :
  Forall2 negrel l l' ->
  forall x y, negrel x y -> negrel (fold_left add l x) (fold_left add l' y).
Proof.
  induction 1 as [|u v l l' Huv _ IH]; intros x y Hxy; simpl.
  - exact Hxy.
  - apply IH, negrel_add; assumption.
Qed.

Lemma ref_sum_respects_negation : sum_respects_negation ref_platform.
Proof.
  intros l l' H. simpl. destruct H as [|u v l l' Huv H]; simpl.
  - apply negrel_zero.
  - apply fold_add_negrel; assumption.
Qed.

Lemma fold_add_zeros l :
  Forall (fun x => x = zero) l -> fold_left add l zero = zero.
Proof.
  induction 1 as [|u l Hu _ IH]; simpl.
  - reflexivity.
  - subst u. exact IH.
Qed.

Lemma ref_sum_of_zeros : sum_of_zeros ref_platform.
Proof.
  intros l H. simpl. destruct H as [|u l Hu H]; simpl.
  - reflexivity.
  - subst u. apply fold_add_zeros, H.
Qed.

End FloatFacts.

(* ================================================================== *)
(** ** The domain transformation *)

Section ValidationFacts.

Variable P : Platform.

Local Open Scope float_scope.

Lemma isinf_opp x : F.isinf (- x) = F.isinf x.
Proof.
  rewrite !FloatFacts.isinf_spec, opp_spec. destruct (Prim2SF x); reflexivity.
Qed.

(** What the checks of [_quadts_iv] establish when it returns. *)
Lemma quadts_iv_inv f a b maxfun maxiter atol rtol minweight iv :
  _quadts_iv P f a b maxfun maxiter atol rtol minweight = Returned iv ->
  existsb F.isnan [a; b; atol; rtol; minweight] = false /\
  (rtol <=? 0) = false /\ (minweight <=? 0) = false /\
  F.isinf rtol = false /\ F.isinf minweight = false /\
  (atol <? 0) = false /\ F.isinf atol = false /\
  (0 < maxfun)%Z /\ (0 < maxiter)%Z /\
  iv_maxfun iv = maxfun /\ iv_maxiter iv = maxiter /\
  iv_atol iv = atol /\ iv_rtol iv = rtol /\ iv_minweight iv = minweight /\
  (let '(f1, a1, b1) := orient f a b in
   let '(f2, a2, b2, ff) := fold_infinite f1 a1 b1 in
   let '(f3, a3, b3) := compactify P f2 a2 b2 in
   iv_f iv = f3 /\ iv_a iv = a3 /\ iv_b iv = b3 /\ iv_feval_factor iv = ff).
Proof.
  unfold _quadts_iv.
  destruct (existsb F.isnan _) eqn:Hnan; [discriminate|].
  destruct (existsb (fun x => x <=? 0) [rtol; minweight] || existsb F.isinf [rtol; minweight])%bool
    eqn:Hpos; [discriminate|].
  destruct ((atol <? 0) || F.isinf atol)%bool eqn:Hatol; [discriminate|].
  destruct (existsb (fun z => (z <=? 0)%Z) [maxfun; maxiter]) eqn:Hint; [discriminate|].
  destruct (orient f a b) as [[f1 a1] b1].
  destruct (fold_infinite f1 a1 b1) as [[[f2 a2] b2] ff].
  destruct (compactify P f2 a2 b2) as [[f3 a3] b3].
  intros H. injection H as <-. simpl in Hpos, Hint.
  rewrite !orb_false_r in Hpos.
  apply orb_false_iff in Hpos as [Hp1 Hp2].
  apply orb_false_iff in Hp1 as [? ?]. apply orb_false_iff in Hp2 as [? ?].
  apply orb_false_iff in Hatol as [? ?].
  rewrite orb_false_r in Hint. apply orb_false_iff in Hint as [?%Z.leb_gt ?%Z.leb_gt].
  simpl. repeat split; assumption || reflexivity.
Qed.

(** The evaluation multiplier is 1 or 2. *)
Lemma quadts_iv_feval_factor f a b maxfun maxiter atol rtol minweight iv :
  _quadts_iv P f a b maxfun maxiter atol rtol minweight = Returned iv ->
  iv_feval_factor iv = (if F.isinf a && F.isinf b then 2 else 1)%Z.
Proof.
  intros H. apply quadts_iv_inv in H.
  destruct H as (_ & _ & _ & _ & _ & _ & _ & _ & _ & _ & _ & _ & _ & _ & H).
  unfold orient, fold_infinite, compactify in H.
  destruct (b <? a);
    destruct (F.isinf a) eqn:Ha, (F.isinf b) eqn:Hb; simpl in H;
    rewrite ?Ha, ?Hb in H; simpl in H;
    repeat match type of H with
           | context [if ?c then _ else _] => destruct c
           end; apply H.
Qed.


(** C1 (amended): when [_quadts_iv] accepts its arguments, the limits it
    hands to the loop are [(0, 1)] if at least one of [a], [b] is infinite;
    if both are finite they are [a] and [b] themselves, in increasing
    order, and the loop maps the canonical nodes onto that interval. *)
Theorem quadts_iv_limits f a b maxfun maxiter atol rtol minweight iv :
  _quadts_iv P f a b maxfun maxiter atol rtol minweight = Returned iv ->
  (F.isinf a || F.isinf b = true -> iv_a iv = 0 /\ iv_b iv = 1) /\
  (F.isinf a || F.isinf b = false ->
   iv_a iv = (if b <? a then b else a) /\ iv_b iv = (if b <? a then a else b)).
Proof.
  intros H. apply quadts_iv_inv in H.
  destruct H as (_ & _ & _ & _ & _ & _ & _ & _ & _ & _ & _ & _ & _ & _ & H).
  unfold orient, fold_infinite, compactify in H.
  destruct (b <? a);
    destruct (F.isinf a) eqn:Ha, (F.isinf b) eqn:Hb; simpl in H;
    rewrite ?Ha, ?Hb in H; simpl in H;
    rewrite ?isinf_opp, ?Ha, ?Hb in H;
    try change (F.isinf infinity) with true in H; cbv iota in H;
    destruct H as (_ & -> & -> & _);
    (split; intros E; [ try discriminate E | try discriminate E ]);
    split; reflexivity.
Qed.

End ValidationFacts.

(** The theorem at a doubly infinite range. *)
Lemma quadts_iv_limits_witness :
  exists iv,
    _quadts_iv ref_platform (fun x => x) neg_infinity infinity
      default_maxfun default_maxiter default_atol default_rtol default_minweight
    = Returned iv /\ iv_a iv = 0%float /\ iv_b iv = 1%float.
Proof.
  eexists. split; [reflexivity|].
  apply (quadts_iv_limits ref_platform (fun x => x) neg_infinity infinity
           default_maxfun default_maxiter default_atol default_rtol default_minweight);
    reflexivity.
Defined.

(** C1 as stated fails on a finite range: for [a = 0], [b = 2] the limits
    handed to the loop are [(0, 2)]. *)
Lemma quadts_iv_limits_counterexample :
  exists iv,
    _quadts_iv ref_platform (fun x => x) 0 2
      default_maxfun default_maxiter default_atol default_rtol default_minweight
    = Returned iv /\ iv_a iv = 0%float /\ iv_b iv = 2%float /\ iv_b iv <> 1%float.
Proof.
  eexists. split; [reflexivity|]. simpl. repeat split.
  intros E. apply (f_equal Prim2SF) in E. vm_compute in E. discriminate E.
Qed.

(* ================================================================== *)
(** ** The term [d4] of the error estimate *)

Section D4.

Variable P : Platform.

Local Open Scope float_scope.

Lemma last_column_snoc (left right : list float) (l r : float) :
  length left = length right ->
  last_column ((left ++ [l]) ++ (right ++ [r])) = Returned [l; r].
Proof.
  intros Hlen. unfold last_column.
  assert (Hn : length ((left ++ [l]) ++ right ++ [r]) = Nat.mul 2 (S (length left))).
  { rewrite !length_app. simpl. lia. }
  rewrite Hn.
  replace (Nat.div (Nat.mul 2 (S (length left))) 2) with (S (length left))
    by (symmetry; rewrite Nat.mul_comm; apply Nat.div_mul; discriminate).
  rewrite Nat.eqb_refl. cbn [negb].
  f_equal. f_equal; [|f_equal].
  - rewrite <- app_assoc. apply nth_middle.
  - replace (Nat.add (S (length left)) (length left))
      with (length ((left ++ [l]) ++ right))
      by (rewrite !length_app; simpl; lia).
    rewrite app_assoc. apply nth_middle.
Qed.

(** C2 (amended): the term [d4] of the convergence check is the logarithm
    of the larger of two absolute contributions only: that of the last point
    of the first half of the contribution array and that of the last point
    of its second half (the nodes of the two branches nearest to the
    endpoints). *)
Theorem d4_term_endpoints (left right : list float) (l r : float) :
  length left = length right ->
  d4_term P ((left ++ [l]) ++ (right ++ [r]))
  = Returned (log10 P (F.maximum (abs l) (abs r))).
Proof.
  intros Hlen. unfold d4_term.
  rewrite !map_app. simpl map.
  rewrite last_column_snoc by (rewrite !length_map; exact Hlen).
  reflexivity.
Qed.

End D4.

(** The theorem at a concrete array of four contributions. *)
Lemma d4_term_endpoints_witness :
  d4_term ref_platform (([1] ++ [0.5]) ++ ([-3] ++ [-0.25]))%float
  = Returned (log10 ref_platform (F.maximum (abs 0.5) (abs (-0.25))))%float.
Proof.
  apply (d4_term_endpoints ref_platform [1%float] [(-3)%float]). reflexivity.
Defined.

(** C2 as stated fails at level 2 of the integral of the constant 1 over
    (0, 1): the code's [d4] looks at the two outermost nodes only and is far
    below the logarithm of the largest contribution of the last half of the
    points. *)
Lemma d4_term_counterexample :
  exists h xjc wj d d',
    _compute_pairs ref_platform 2 = Returned (h, xjc, wj) /\
    d4_term ref_platform
      (contributions (fun _ => 1%float) 0 1 default_minweight xjc wj) = Returned d /\
    spec_d4 ref_platform
      (contributions (fun _ => 1%float) 0 1 default_minweight xjc wj) = Returned d' /\
    (d <? -100)%float = true /\ (-1 <? d')%float = true.
Proof.
  do 5 eexists. split; [reflexivity|].
  split; [vm_compute; reflexivity|].
  split; [vm_compute; reflexivity|].
  split; vm_compute; reflexivity.
Qed.

(* ================================================================== *)
(** ** The loop *)

Section EngineFacts.

Variable P : Platform.
Variable f : integrand.
Variables a b : float.
Variables maxfun maxiter : Z.
Variables atol rtol minweight : float.
Variable feval_factor : Z.

Local Open Scope float_scope.

Let iteration' := iteration P f a b maxfun atol rtol minweight feval_factor.
Let steps' := steps P f a b maxfun atol rtol minweight feval_factor.
Let reaches' := reaches P f a b maxfun atol rtol minweight feval_factor.
Let loop' := loop P f a b maxfun atol rtol minweight feval_factor.
Let iteration_case := iteration_case P f a b maxfun atol rtol minweight feval_factor.

Lemma iteration_inv n st r :
  iteration' n st = Returned r -> iteration_case n st r.
Proof.
  unfold iteration', iteration.
  destruct (_compute_pairs P n) as [[[h xjc] wj]|e] eqn:Hp; cbn [bind]; [|discriminate].
  destruct (st_feval st + points a b xjc * feval_factor >? maxfun)%Z eqn:Hb.
  - intros H. injection H as <-. eapply case_budget; eauto. lia.
  - assert (Hb' : (st_feval st + points a b xjc * feval_factor <= maxfun)%Z) by lia.
    destruct (forallb F.isfinite (contributions f a b minweight xjc wj)) eqn:Hfin; cbn [negb].
    + destruct (Nat.leb 2 n) eqn:Hn.
      * apply Nat.leb_le in Hn.
        destruct (error_estimate P (st_Sk st) _ _) as [[rerr aerr]|e] eqn:He; cbn [bind];
          [|discriminate].
        destruct (converged atol rtol rerr _) eqn:Hc;
          intros H; injection H as <-.
        -- eapply case_converged; eauto.
        -- eapply case_refine; eauto.
      * apply Nat.leb_gt in Hn. intros H. injection H as <-.
        eapply case_early; eauto.
    + intros H. injection H as <-. eapply case_invalid; eauto.
Qed.

Lemma iteration_case_sound n st r :
  iteration_case n st r -> iteration' n st = Returned r.
Proof.
  unfold iteration', iteration.
  intros H; destruct H as [h xjc wj Hp Hb|h xjc wj Hp Hb Hf|h xjc wj Hp Hb Hf Hn Sn
                          |h xjc wj rerr aerr Hp Hb Hf Hn Sn He Hc
                          |h xjc wj rerr aerr Hp Hb Hf Hn Sn He Hc];
    rewrite Hp; cbn [bind].
  - replace (_ >? _)%Z with true by lia. reflexivity.
  - replace (_ >? _)%Z with false by lia. rewrite Hf. reflexivity.
  - replace (_ >? _)%Z with false by lia. rewrite Hf. cbn [negb].
    replace (Nat.leb 2 n) with false by (symmetry; apply Nat.leb_gt; lia). reflexivity.
  - replace (_ >? _)%Z with false by lia. rewrite Hf. cbn [negb].
    replace (Nat.leb 2 n) with true by (symmetry; apply Nat.leb_le; lia).
    fold Sn. rewrite He. cbn [bind]. rewrite Hc. reflexivity.
  - replace (_ >? _)%Z with false by lia. rewrite Hf. cbn [negb].
    replace (Nat.leb 2 n) with true by (symmetry; apply Nat.leb_le; lia).
    fold Sn. rewrite He. cbn [bind]. rewrite Hc. reflexivity.
Qed.

(** How the loop ends: by a [break] in some iteration, or by running out
    of iterations. *)
Lemma loop_inv fuel n st fin :
  loop' fuel n st = Returned fin ->
  (exists m stm, (n <= m < n + fuel)%nat /\ steps' n st m stm /\
                 iteration' m stm = Returned (Break fin)) \/
  (exists st', steps' n st (n + fuel) st' /\ fin = exhausted st').
Proof.
  unfold loop', steps', iteration'.
  revert n st. induction fuel as [|fuel IH]; intros n st; simpl.
  - intros H. injection H as <-. right. exists st. split; [|reflexivity].
    rewrite Nat.add_0_r. constructor.
  - destruct (iteration _ _ _ _ _ _ _ _ _ n st) as [[st'|st']|e] eqn:Hit; simpl;
      [| |discriminate].
    + intros H. apply IH in H as [(m & stm & Hm & Hs & Hi)|(st'' & Hs & ->)].
      * left. exists m, stm. split; [lia|]. split; [|exact Hi].
        econstructor; eassumption.
      * right. exists st''. split; [|reflexivity].
        replace (Nat.add n (S fuel)) with (Nat.add (S n) fuel) by lia.
        econstructor; eassumption.
    + intros H. injection H as <-. left. exists n, st.
      split; [lia|]. split; [constructor|exact Hit].
Qed.

Lemma steps_le n st m st' : steps' n st m st' -> (n <= m)%nat.
Proof. induction 1; lia. Qed.


Lemma steps_snoc n st m st' st'' :
  steps' n st m st' -> iteration' m st' = Returned (Continue st'') ->
  steps' n st (S m) st''.
Proof.
  intros H Hit. induction H as [n st|n st st1 m st2 Hit1 _ IH].
  - econstructor; [exact Hit|constructor].
  - econstructor; [exact Hit1|apply IH, Hit].
Qed.

(** Induction along the loop from its initial state. *)
Lemma reaches_ind_inv (Inv : nat -> LoopState -> Prop) :
  Inv O initial_state ->
  (forall n st st', reaches' n st -> Inv n st ->
                    iteration' n st = Returned (Continue st') -> Inv (S n) st') ->
  forall n st, reaches' n st -> Inv n st.
Proof.
  intros H0 Hstep.
  assert (G : forall n st m st', steps' n st m st' ->
                                 reaches' n st -> Inv n st -> Inv m st').
  { intros n st m st' H. induction H as [|n st st1 m st2 Hit _ IH]; intros Hr HI.
    - exact HI.
    - apply IH.
      + eapply steps_snoc; eassumption.
      + eapply Hstep; eassumption. }
  intros n st Hr. apply (G _ _ _ _ Hr); [constructor|exact H0].
Qed.

(** The loop started by [_tanhsinh] ends in a [break] of a reachable
    iteration, or in the [else] clause after [maxiter] iterations. *)
Lemma run_loop_inv fin :
  run_loop P f a b maxfun maxiter atol rtol minweight feval_factor = Returned fin ->
  (exists m stm, (m < Z.to_nat maxiter)%nat /\ reaches' m stm /\
                 iteration' m stm = Returned (Break fin)) \/
  (exists st', reaches' (Z.to_nat maxiter) st' /\ fin = exhausted st').
Proof.
  intros H. apply loop_inv in H as [(m & stm & Hm & Hs & Hi)|(st' & Hs & ->)].
  - left. exists m, stm. split; [lia|]. split; assumption.
  - right. exists st'. split; [exact Hs|reflexivity].
Qed.

(** *** The evaluation counter *)

Lemma points_nonneg xjc : (0 <= points a b xjc)%Z.
Proof. unfold points. lia. Qed.

Lemma iteration_feval n st r :
  (0 <= feval_factor)%Z ->
  (st_feval st <= maxfun)%Z ->
  iteration' n st = Returned r ->
  (st_feval (state_of r) = st_feval st \/
   exists h xjc wj, _compute_pairs P n = Returned (h, xjc, wj) /\
     st_feval (state_of r) = st_feval st + points a b xjc * feval_factor)%Z /\
  (st_feval st <= st_feval (state_of r) <= maxfun)%Z.
Proof.
  intros Hff Hle H. apply iteration_inv in H.
  destruct H as [h xjc wj Hp Hb|h xjc wj Hp Hb Hf|h xjc wj Hp Hb Hf Hn Sn
                |h xjc wj rerr aerr Hp Hb Hf Hn Sn He Hc
                |h xjc wj rerr aerr Hp Hb Hf Hn Sn He Hc]; simpl.
  - split; [left; reflexivity|lia].
  - pose proof (points_nonneg xjc). split; [right; eauto|nia].
  - pose proof (points_nonneg xjc). split; [right; eauto|nia].
  - pose proof (points_nonneg xjc). split; [right; eauto|nia].
  - pose proof (points_nonneg xjc). split; [right; eauto|nia].
Qed.

Lemma reaches_feval n st :
  (0 <= feval_factor)%Z -> (0 <= maxfun)%Z ->
  reaches' n st -> (0 <= st_feval st <= maxfun)%Z.
Proof.
  intros Hff Hmax Hr. revert n st Hr. apply reaches_ind_inv.
  - simpl. lia.
  - intros n st st' _ HI Hit.
    destruct (iteration_feval n st _ Hff (proj2 HI) Hit) as [_ H]. simpl in H. lia.
Qed.

Lemma run_loop_feval fin :
  (0 <= feval_factor)%Z -> (0 <= maxfun)%Z ->
  run_loop P f a b maxfun maxiter atol rtol minweight feval_factor = Returned fin ->
  (0 <= st_feval fin <= maxfun)%Z.
Proof.
  intros Hff Hmax H.
  apply run_loop_inv in H as [(m & stm & Hm & Hr & Hi)|(st' & Hr & ->)].
  - pose proof (reaches_feval _ _ Hff Hmax Hr) as Hb.
    destruct (iteration_feval m stm _ Hff (proj2 Hb) Hi) as [_ H]. simpl in H. lia.
  - apply (reaches_feval _ _ Hff Hmax Hr).
Qed.

Lemma report_fields st r :
  report st = Returned r ->
  integral r = st_Sn st /\ error r = st_aerr st /\ feval r = st_feval st /\
  status r = st_status st /\ success r = (st_status st =? 0)%Z.
Proof.
  unfold report. destruct (dict_get _ _); simpl; [|discriminate].
  intros H. injection H as <-. simpl. repeat split.
Qed.

Lemma engine_inv r :
  engine P f a b maxfun maxiter atol rtol minweight feval_factor = Returned r ->
  exists fin,
    run_loop P f a b maxfun maxiter atol rtol minweight feval_factor = Returned fin /\
    report fin = Returned r.
Proof.
  unfold engine. destruct (run_loop _ _ _ _ _ _ _ _ _ _) as [fin|e]; simpl; [|discriminate].
  intros H. exists fin. split; [reflexivity|exact H].
Qed.


(** *** The error estimate before the third iteration *)

Let checks_convergence' :=
  checks_convergence P f a b maxfun minweight feval_factor.

Lemma reaches_aerr_nan n st :
  reaches' n st -> (n <= 2)%nat -> st_aerr st = nan.
Proof.
  intros Hr. revert n st Hr.
  apply (reaches_ind_inv (fun n st => (n <= 2)%nat -> st_aerr st = nan)).
  - reflexivity.
  - intros n st st' _ HI Hit Hn. apply iteration_inv in Hit.
    inversion Hit; subst; simpl; try (apply HI; lia); lia.
Qed.

Lemma break_aerr_nan n st fin :
  reaches' n st -> (n < 2)%nat ->
  iteration' n st = Returned (Break fin) -> st_aerr fin = nan.
Proof.
  intros Hr Hn Hit. pose proof (reaches_aerr_nan n st Hr ltac:(lia)) as Hnan.
  apply iteration_inv in Hit. inversion Hit; subst; simpl; try exact Hnan; lia.
Qed.

Lemma reaches_aerr_set n st :
  reaches' n st -> st_aerr st <> nan ->
  exists k st0, (k < n)%nat /\ reaches' k st0 /\ checks_convergence' k st0.
Proof.
  intros Hr. revert n st Hr.
  apply (reaches_ind_inv (fun n st => st_aerr st <> nan ->
           exists k st0, (k < n)%nat /\ reaches' k st0 /\ checks_convergence' k st0)).
  - intros H. exfalso. apply H. reflexivity.
  - intros n st st' Hr HI Hit Hne. apply iteration_inv in Hit.
    inversion Hit; subst.
    + simpl in Hne. destruct (HI Hne) as (k & st0 & Hk & Hq).
      exists k, st0. split; [lia|exact Hq].
    + exists n, st. split; [lia|]. split; [exact Hr|].
      exists h, xjc, wj. repeat split; assumption.
Qed.

Lemma run_loop_aerr fin :
  run_loop P f a b maxfun maxiter atol rtol minweight feval_factor = Returned fin ->
  ((maxiter <= 2)%Z -> st_aerr fin = nan) /\
  (st_aerr fin <> nan ->
   exists n st, (n < Z.to_nat maxiter)%nat /\ reaches' n st /\ checks_convergence' n st).
Proof.
  intros H. apply run_loop_inv in H as [(m & stm & Hm & Hr & Hi)|(st' & Hr & ->)].
  - split.
    + intros Hmax. eapply break_aerr_nan; [exact Hr|lia|exact Hi].
    + intros Hne. apply iteration_inv in Hi. inversion Hi; subst; simpl in Hne.
      * destruct (reaches_aerr_set _ _ Hr Hne) as (k & st0 & Hk & Hq).
        exists k, st0. split; [lia|exact Hq].
      * destruct (reaches_aerr_set _ _ Hr Hne) as (k & st0 & Hk & Hq).
        exists k, st0. split; [lia|exact Hq].
      * exists m, stm. split; [exact Hm|]. split; [exact Hr|].
        exists h, xjc, wj. repeat split; assumption.
  - split.
    + intros Hmax. simpl. apply (reaches_aerr_nan _ _ Hr). lia.
    + simpl. intros Hne.
      destruct (reaches_aerr_set _ _ Hr Hne) as (k & st0 & Hk & Hq).
      exists k, st0. split; [lia|exact Hq].
Qed.

End EngineFacts.

(* ================================================================== *)
(** ** Properties of [_tanhsinh] *)

Section TanhsinhFacts.

Variable P : Platform.

Local Open Scope float_scope.

Lemma tanhsinh_unfold f a b maxfun maxiter atol rtol minweight iv :
  _quadts_iv P f a b maxfun maxiter atol rtol minweight = Returned iv ->
  _tanhsinh P f a b maxfun maxiter atol rtol minweight
  = engine P (iv_f iv) (iv_a iv) (iv_b iv) maxfun maxiter atol rtol minweight
           (iv_feval_factor iv).
Proof.
  intros Hiv. unfold _tanhsinh. rewrite Hiv. simpl.
  apply quadts_iv_inv in Hiv.
  destruct Hiv as (_ & _ & _ & _ & _ & _ & _ & _ & _ & -> & -> & -> & -> & -> & _).
  reflexivity.
Qed.

Lemma feval_factor_nonneg f a b maxfun maxiter atol rtol minweight iv :
  _quadts_iv P f a b maxfun maxiter atol rtol minweight = Returned iv ->
  (0 <= iv_feval_factor iv)%Z.
Proof.
  intros H. rewrite (quadts_iv_feval_factor _ _ _ _ _ _ _ _ _ _ H).
  destruct (_ && _); lia.
Qed.

(** C7: the evaluation counter starts at 0; a pass through the loop leaves
    it unchanged or adds the level's number of points times the evaluation
    multiplier, so it never decreases; and it never exceeds [maxfun], in
    any state of the loop and in the result. *)
Theorem feval_never_exceeds_maxfun f a b maxfun maxiter atol rtol minweight iv :
  _quadts_iv P f a b maxfun maxiter atol rtol minweight = Returned iv ->
  let ff := iv_feval_factor iv in
  st_feval initial_state = 0%Z /\
  (forall n st r,
     reaches P (iv_f iv) (iv_a iv) (iv_b iv) maxfun atol rtol minweight ff n st ->
     iteration P (iv_f iv) (iv_a iv) (iv_b iv) maxfun atol rtol minweight ff n st
       = Returned r ->
     (st_feval (state_of r) = st_feval st \/
      exists h xjc wj, _compute_pairs P n = Returned (h, xjc, wj) /\
        st_feval (state_of r) = st_feval st + points (iv_a iv) (iv_b iv) xjc * ff)%Z /\
     (st_feval st <= st_feval (state_of r) <= maxfun)%Z) /\
  (forall r,
     _tanhsinh P f a b maxfun maxiter atol rtol minweight = Returned r ->
     (0 <= feval r <= maxfun)%Z).
Proof.
  intros Hiv ff.
  pose proof (feval_factor_nonneg _ _ _ _ _ _ _ _ _ Hiv) as Hff.
  assert (Hmax : (0 <= maxfun)%Z).
  { apply quadts_iv_inv in Hiv. lia. }
  split; [reflexivity|]. split.
  - intros n st r Hr Hit.
    eapply iteration_feval; [exact Hff| |exact Hit].
    apply (reaches_feval _ _ _ _ _ _ _ _ _ _ _ Hff Hmax Hr).
  - intros r Hr. rewrite (tanhsinh_unfold _ _ _ _ _ _ _ _ _ Hiv) in Hr.
    apply engine_inv in Hr as (fin & Hl & Hrep).
    apply report_fields in Hrep as (_ & _ & -> & _).
    apply (run_loop_feval _ _ _ _ _ _ _ _ _ _ _ Hff Hmax Hl).
Qed.


(** C9: the error estimate is assigned only by the convergence check of an
    iteration [n >= 2].  Hence a [break] in one of the first two iterations
    leaves it NaN, so does a loop of at most two iterations, and a result
    whose [error] is not NaN comes from a run in which some iteration
    [n >= 2] reached its convergence check. *)
Theorem error_nan_before_third_iteration f a b maxfun maxiter atol rtol minweight iv r :
  _quadts_iv P f a b maxfun maxiter atol rtol minweight = Returned iv ->
  _tanhsinh P f a b maxfun maxiter atol rtol minweight = Returned r ->
  let ff := iv_feval_factor iv in
  ((maxiter <= 2)%Z -> error r = nan) /\
  (forall n st fin,
     reaches P (iv_f iv) (iv_a iv) (iv_b iv) maxfun atol rtol minweight ff n st ->
     (n < 2)%nat ->
     iteration P (iv_f iv) (iv_a iv) (iv_b iv) maxfun atol rtol minweight ff n st
       = Returned (Break fin) ->
     st_aerr fin = nan) /\
  (error r <> nan ->
   exists n st,
     (n < Z.to_nat maxiter)%nat /\
     reaches P (iv_f iv) (iv_a iv) (iv_b iv) maxfun atol rtol minweight ff n st /\
     checks_convergence P (iv_f iv) (iv_a iv) (iv_b iv) maxfun minweight ff n st).
Proof.
  intros Hiv Hr ff. rewrite (tanhsinh_unfold _ _ _ _ _ _ _ _ _ Hiv) in Hr.
  apply engine_inv in Hr as (fin & Hl & Hrep).
  apply report_fields in Hrep as (_ & -> & _).
  pose proof (run_loop_aerr _ _ _ _ _ _ _ _ _ _ _ Hl) as [H1 H2].
  split; [exact H1|]. split; [|exact H2].
  intros n st fin'. apply break_aerr_nan.
Qed.

Lemma compute_pairs_0 :
  exists xjc wj,
    _compute_pairs P 0 = Returned (1, xjc, wj) /\ length xjc = 7%nat /\ length wj = 7%nat.
Proof.
  unfold _compute_pairs.
  change (pair_indices 0) with (Returned [0; 1; 2; 3; 4; 5; 6]%Z).
  change (step_size 0) with 1.
  cbn [bind]. do 2 eexists. split; [reflexivity|]. split; reflexivity.
Qed.

Lemma points_length a b xjc :
  points a b xjc = (2 * Z.of_nat (length xjc))%Z.
Proof.
  unfold points, abscissas. rewrite length_app, !length_map. lia.
Qed.

(** C6: the first level has 14 points.  When [maxfun] is below 14 times
    the evaluation multiplier, the first pass through the loop stops at the
    budget check: the result has status 1, a NaN integral (and error) and
    [feval = 0]. *)
Theorem function_limit_at_first_level f a b maxfun maxiter atol rtol minweight iv :
  _quadts_iv P f a b maxfun maxiter atol rtol minweight = Returned iv ->
  (exists h xjc wj,
     _compute_pairs P 0 = Returned (h, xjc, wj) /\
     points (iv_a iv) (iv_b iv) xjc = 14%Z) /\
  ((maxfun < 14 * iv_feval_factor iv)%Z ->
   exists message,
     dict_get _status_messages 1 = Returned message /\
     _tanhsinh P f a b maxfun maxiter atol rtol minweight
     = Returned {| integral := nan; error := nan; feval := 0; success := false;
                   status := 1; message := message |}).
Proof.
  intros Hiv.
  destruct compute_pairs_0 as (xjc & wj & Hp & Hx & Hw).
  assert (Hpts : points (iv_a iv) (iv_b iv) xjc = 14%Z).
  { rewrite points_length, Hx. reflexivity. }
  split; [exists 1, xjc, wj; split; assumption|].
  intros Hlt. rewrite (tanhsinh_unfold _ _ _ _ _ _ _ _ _ Hiv).
  assert (Hpos : (0 < maxiter)%Z) by (apply quadts_iv_inv in Hiv; lia).
  unfold engine, run_loop.
  destruct (Z.to_nat maxiter) as [|k] eqn:Hk; [lia|].
  cbn [loop]. unfold iteration. rewrite Hp. cbn [bind].
  rewrite Hpts. cbn [st_feval initial_state].
  replace (0 + 14 * iv_feval_factor iv >? maxfun)%Z with true by lia.
  cbn. eexists. split; reflexivity.
Qed.

End TanhsinhFacts.

(** The theorem at the integral of the constant 1 over (0, 1) with the
    default settings. *)
Lemma feval_never_exceeds_maxfun_witness :
  exists r,
    _tanhsinh ref_platform (fun _ => 1%float) 0 1
      default_maxfun default_maxiter default_atol default_rtol default_minweight
    = Returned r /\ (0 <= feval r <= default_maxfun)%Z.
Proof.
  eexists. split; [vm_compute; reflexivity|].
  eapply (feval_never_exceeds_maxfun ref_platform (fun _ => 1%float) 0 1
            default_maxfun default_maxiter default_atol default_rtol default_minweight).
  - reflexivity.
  - vm_compute. reflexivity.
Defined.

(** The theorem at a run of two iterations. *)
Lemma error_nan_before_third_iteration_witness :
  exists r,
    _tanhsinh ref_platform (fun _ => 1%float) 0 1
      default_maxfun 2 default_atol default_rtol default_minweight
    = Returned r /\ error r = nan.
Proof.
  eexists. split; [vm_compute; reflexivity|].
  eapply (error_nan_before_third_iteration ref_platform (fun _ => 1%float) 0 1
            default_maxfun 2 default_atol default_rtol default_minweight).
  - reflexivity.
  - vm_compute. reflexivity.
  - vm_compute. discriminate.
Defined.

(** The theorem at a doubly infinite range with a budget of 27 evaluations,
    one short of the 28 that the first level takes. *)
Lemma function_limit_at_first_level_witness :
  exists message,
    dict_get _status_messages 1 = Returned message /\
    _tanhsinh ref_platform (fun x => x) neg_infinity infinity
      27 default_maxiter default_atol default_rtol default_minweight
    = Returned {| integral := nan; error := nan; feval := 0; success := false;
                  status := 1; message := message |}.
Proof.
  eapply (function_limit_at_first_level ref_platform (fun x => x) neg_infinity infinity
            27 default_maxiter default_atol default_rtol default_minweight).
  - reflexivity.
  - vm_compute. reflexivity.
Defined.

(* ================================================================== *)
(** ** Where the loop breaks *)

Section BreakFacts.

Variable P : Platform.
Variable f : integrand.
Variables a b : float.
Variables maxfun maxiter : Z.
Variables atol rtol minweight : float.
Variable feval_factor : Z.

Local Open Scope float_scope.

Let iteration' := iteration P f a b maxfun atol rtol minweight feval_factor.
Let steps' := steps P f a b maxfun atol rtol minweight feval_factor.
Let reaches' := reaches P f a b maxfun atol rtol minweight feval_factor.
Let loop' := loop P f a b maxfun atol rtol minweight feval_factor.
Let run_loop' := run_loop P f a b maxfun maxiter atol rtol minweight feval_factor.

(** The loop follows the iterations that fall through. *)
Lemma loop_steps n st m st' :
  steps' n st m st' ->
  forall fuel, (m - n <= fuel)%nat ->
  loop' fuel n st = loop' (fuel - (m - n)) m st'.
Proof.
  unfold loop', steps'.
  induction 1 as [n st|n st st1 m st2 Hit Hs IH]; intros fuel Hle.
  - rewrite Nat.sub_diag, Nat.sub_0_r. reflexivity.
  - pose proof (steps_le _ _ _ _ _ _ _ _ _ _ _ _ _ Hs) as Hnm.
    destruct fuel as [|fuel]; [lia|].
    cbn [loop]. rewrite Hit. cbn [bind].
    rewrite IH by lia. f_equal. lia.
Qed.

(** A [break] in a reachable iteration below [maxiter] ends the loop. *)
Lemma loop_break n st fin :
  reaches' n st -> (n < Z.to_nat maxiter)%nat ->
  iteration' n st = Returned (Break fin) ->
  run_loop' = Returned fin.
Proof.
  intros Hr Hn Hit. unfold run_loop', run_loop.
  rewrite (loop_steps _ _ _ _ Hr) by lia.
  destruct (Z.to_nat maxiter - (n - 0))%nat as [|k] eqn:Hk; [lia|].
  unfold loop', iteration' in *. cbn [loop]. rewrite Hit. reflexivity.
Qed.

(** The status stays at -1 while the loop runs. *)
Lemma reaches_status n st : reaches' n st -> st_status st = (-1)%Z.
Proof.
  intros Hr. revert n st Hr. apply reaches_ind_inv.
  - reflexivity.
  - intros n st st' _ HI Hit. apply iteration_inv in Hit.
    inversion Hit; subst; simpl; exact HI.
Qed.

(** The status of the final state tells how the loop ended. *)
Lemma run_loop_status fin :
  run_loop' = Returned fin ->
  (exists n st, (n < Z.to_nat maxiter)%nat /\ reaches' n st /\
                iteration' n st = Returned (Break fin) /\
                (st_status fin = 0 \/ st_status fin = 1 \/ st_status fin = 3)%Z) \/
  st_status fin = 2%Z.
Proof.
  intros H. apply run_loop_inv in H as [(m & stm & Hm & Hr & Hi)|(st' & Hr & ->)].
  - left. exists m, stm. repeat split; try assumption.
    apply iteration_inv in Hi. inversion Hi; subst; simpl; auto.
  - right. reflexivity.
Qed.

End BreakFacts.

(* ================================================================== *)
(** ** Order and infinities of binary64 numbers *)

Module FloatOrder.

Import FloatFacts.

Local Open Scope float_scope.

Lemma SFcompare_antisym x y :
  SFcompare y x = option_map CompOpp (SFcompare x y).
Proof.
  destruct x as [sx|sx| |sx mx ex], y as [sy|sy| |sy my ey]; simpl;
    try reflexivity; try (destruct sx; reflexivity); try (destruct sy; reflexivity);
    try (destruct sx, sy; reflexivity).
  rewrite (Z.compare_antisym ey ex).
  assert (Hm : Pos.compare_cont Eq mx my = CompOpp (Pos.compare_cont Eq my mx)).
  { rewrite Pos.compare_cont_antisym. reflexivity. }
  destruct sx, sy; simpl; try reflexivity;
    destruct (ey ?= ex)%Z; simpl; try reflexivity;
    rewrite Hm; destruct (Pos.compare_cont Eq my mx); reflexivity.
Qed.

Lemma ltb_leb_false x y : (x <? y) = true -> (y <=? x) = false.
Proof.
  rewrite ltb_spec, leb_spec. unfold SFltb, SFleb.
  rewrite (SFcompare_antisym (Prim2SF x) (Prim2SF y)).
  destruct (SFcompare (Prim2SF x) (Prim2SF y)) as [[]|]; simpl; congruence.
Qed.

(** A number that is neither NaN nor [<= 0] is positive: a positive finite
    number or [+infinity]. *)
Definition SFis_pos (x : spec_float) : bool :=
  match x with
  | S754_infinity false | S754_finite false _ _ => true
  | _ => false
  end.

Lemma positive_spec x :
  F.isnan x = false -> (x <=? 0) = false -> SFis_pos (Prim2SF x) = true.
Proof.
  rewrite isnan_spec, leb_spec. change (Prim2SF 0) with (S754_zero false). unfold SFleb.
  destruct (Prim2SF x) as [s|[]| |[] m e]; simpl; congruence.
Qed.

Lemma above_positive_spec x y :
  SFis_pos (Prim2SF x) = true -> (x <? y) = true -> SFis_pos (Prim2SF y) = true.
Proof.
  rewrite ltb_spec. unfold SFltb.
  destruct (Prim2SF x) as [s|[]| |[] m e]; simpl; try discriminate;
    destruct (Prim2SF y) as [s'|[]| |[] m' e']; simpl; congruence.
Qed.

(** An infinite integrand value times a weight above a positive
    [minweight] is infinite. *)
Lemma inf_mul_weight x w mw :
  F.isinf x = true ->
  F.isnan mw = false -> (mw <=? 0) = false -> (mw <? w) = true ->
  F.isfinite (x * w) = false.
Proof.
  intros Hx Hnan Hpos Hlt.
  pose proof (above_positive_spec _ _ (positive_spec _ Hnan Hpos) Hlt) as Hw.
  rewrite isinf_spec in Hx. rewrite isfinite_spec, mul_spec.
  destruct (Prim2SF x) as [s|s| |s m e]; try discriminate.
  destruct (Prim2SF w) as [s'|[]| |[] m' e']; try discriminate; reflexivity.
Qed.

End FloatOrder.

(* ================================================================== *)
(** ** Arrays *)

Section ArrayFacts.

Context {A B C : Type}.

Lemma zip_with_length (g : A -> B -> C) xs ys :
  length (zip_with g xs ys) = Nat.min (length xs) (length ys).
Proof.
  revert ys. induction xs as [|x xs IH]; intros [|y ys]; simpl; try reflexivity.
  rewrite IH. reflexivity.
Qed.

Lemma zip_with_nth (g : A -> B -> C) xs ys i dx dy d :
  (i < length xs)%nat -> (i < length ys)%nat ->
  nth i (zip_with g xs ys) d = g (nth i xs dx) (nth i ys dy).
Proof.
  revert ys i. induction xs as [|x xs IH]; intros [|y ys] [|i]; simpl; try lia.
  - reflexivity.
  - intros H1 H2. apply IH; lia.
Qed.

Lemma forallb_false_nth (p : A -> bool) l d :
  forallb p l = false <-> exists i, (i < length l)%nat /\ p (nth i l d) = false.
Proof.
  induction l as [|x l IH]; simpl.
  - split; [discriminate|]. intros (i & Hi & _). lia.
  - rewrite andb_false_iff, IH. split.
    + intros [H|(i & Hi & H)].
      * exists O. split; [lia|exact H].
      * exists (S i). split; [lia|exact H].
    + intros ([|i] & Hi & H).
      * left. exact H.
      * right. exists i. split; [lia|exact H].
Qed.

End ArrayFacts.

Lemma halve_first_length k wj wj' :
  halve_first k wj = Returned wj' -> length wj' = length wj.
Proof. destruct wj; [discriminate|]. intros H. injection H as <-. reflexivity. Qed.

Lemma compute_pairs_inv P k h xjc wj :
  _compute_pairs P k = Returned (h, xjc, wj) ->
  exists j,
    pair_indices k = Returned j /\ h = step_size k /\
    xjc = map (fun i => complement_of P (F.of_Z i * step_size k)%float) j /\
    halve_first k (map (fun i => weight_of P (F.of_Z i * step_size k)%float) j)
    = Returned wj.
Proof.
  unfold _compute_pairs. destruct (pair_indices k) as [j|e]; cbn [bind]; [|discriminate].
  rewrite !map_map.
  destruct (halve_first k _) as [w|e] eqn:Hw; cbn [bind]; [|discriminate].
  intros H. injection H as <- <- <-. exists j. repeat split. exact Hw.
Qed.

Lemma compute_pairs_length P k h xjc wj :
  _compute_pairs P k = Returned (h, xjc, wj) -> length wj = length xjc.
Proof.
  intros H. apply compute_pairs_inv in H as (j & _ & _ & -> & Hw).
  rewrite (halve_first_length _ _ _ Hw), !length_map. reflexivity.
Qed.

Section ContributionFacts.

Variable f : integrand.
Variables a b minweight : float.

Local Open Scope float_scope.

Lemma abscissas_length xjc : length (abscissas a b xjc) = Nat.mul 2 (length xjc).
Proof. unfold abscissas. rewrite length_app, !length_map. lia. Qed.

Lemma scaled_weights_length wj : length (scaled_weights a b wj) = Nat.mul 2 (length wj).
Proof. unfold scaled_weights. rewrite length_app, !length_map. lia. Qed.

Lemma contributions_length xjc wj :
  length wj = length xjc ->
  length (contributions f a b minweight xjc wj) = length (abscissas a b xjc).
Proof.
  intros H. unfold contributions, mask_zero.
  rewrite !zip_with_length, length_map, abscissas_length, scaled_weights_length. lia.
Qed.

(** A contribution is zero where the point is filtered, and the product of
    the integrand value and the scaled weight elsewhere. *)
Lemma contributions_nth xjc wj i :
  length wj = length xjc ->
  (i < length (abscissas a b xjc))%nat ->
  nth i (contributions f a b minweight xjc wj) 0
  = if invalid a b minweight (nth i (abscissas a b xjc) 0) (nth i (scaled_weights a b wj) 0)
    then 0
    else f (nth i (abscissas a b xjc) 0) * nth i (scaled_weights a b wj) 0.
Proof.
  intros H Hi. unfold contributions, mask_zero.
  assert (Hw : (i < length (scaled_weights a b wj))%nat).
  { rewrite scaled_weights_length, H, <- abscissas_length. exact Hi. }
  rewrite (zip_with_nth _ _ _ i false 0 0).
  - rewrite (zip_with_nth _ _ _ i 0 0 false) by assumption.
    rewrite (zip_with_nth _ _ _ i 0 0 0) by (rewrite ?length_map; assumption).
    rewrite (nth_indep (map f _) 0 (f 0)) by (rewrite length_map; exact Hi).
    rewrite map_nth. reflexivity.
  - rewrite zip_with_length. lia.
  - rewrite zip_with_length, length_map. lia.
Qed.

End ContributionFacts.

(* ================================================================== *)
(** ** The validity check and the convergence check *)

Section StepRules.

Variable P : Platform.
Variable f : integrand.
Variables a b : float.
Variables maxfun maxiter : Z.
Variables atol rtol minweight : float.
Variable feval_factor : Z.

Local Open Scope float_scope.

Let iteration' := iteration P f a b maxfun atol rtol minweight feval_factor.
Let reaches' := reaches P f a b maxfun atol rtol minweight feval_factor.
Let run_loop' := run_loop P f a b maxfun maxiter atol rtol minweight feval_factor.

Lemma iteration_status3 n st h xjc wj :
  _compute_pairs P n = Returned (h, xjc, wj) ->
  (st_feval st + points a b xjc * feval_factor <= maxfun)%Z ->
  (exists fin, iteration' n st = Returned (Break fin) /\ st_status fin = 3%Z) <->
  forallb F.isfinite (contributions f a b minweight xjc wj) = false.
Proof.
  intros Hp Hb. split.
  - intros (fin & Hit & Hs). apply iteration_inv in Hit.
    inversion Hit; subst; simpl in Hs; try discriminate Hs;
      match goal with H : _compute_pairs P n = _ |- _ =>
        rewrite Hp in H; injection H as <- <- <- end.
    assumption.
  - intros Hf. eexists. split.
    + apply iteration_case_sound. eapply case_invalid; eassumption.
    + reflexivity.
Qed.

Lemma interior_not_filtered x w :
  (a <? x) = true -> (x <? b) = true -> (minweight <? w) = true ->
  invalid a b minweight x w = false.
Proof.
  intros H1 H2 H3. unfold invalid.
  rewrite (FloatOrder.ltb_leb_false _ _ H1), (FloatOrder.ltb_leb_false _ _ H2),
    (FloatOrder.ltb_leb_false _ _ H3).
  reflexivity.
Qed.

(** C5: at a level that fits the evaluation budget, the points are
    [-alpha * xjc + b] followed by [alpha * xjc + a] and their weights are
    [wj * alpha], twice, with [alpha = (b - a) / 2]; a contribution is forced
    to zero when its abscissa is [<= a] or [>= b] or its scaled weight is
    [<= minweight], before the validity check, and is the product of the
    integrand value and the scaled weight otherwise; the pass ends with
    status 3 exactly when some contribution left after this filtering is not
    finite, and then [success] is [False].  In particular an infinite
    integrand value at a point strictly inside [(a, b)] with weight above
    [minweight] gives status 3, and values at filtered points never do.  The
    run ends with status 3 exactly when some reachable pass does. *)
Theorem invalid_value_rule n st h xjc wj :
  _compute_pairs P n = Returned (h, xjc, wj) ->
  (st_feval st + points a b xjc * feval_factor <= maxfun)%Z ->
  let alpha := (b - a) / 2 in
  let xj := abscissas a b xjc in
  let w := scaled_weights a b wj in
  let fjwj := contributions f a b minweight xjc wj in
  let filtered i :=
    (nth i xj 0 <=? a) || (b <=? nth i xj 0) || (nth i w 0 <=? minweight) in
  (xj = map (fun x => - alpha * x + b) xjc ++ map (fun x => alpha * x + a) xjc /\
   w = map (fun v => v * alpha) wj ++ map (fun v => v * alpha) wj) /\
  (forall i, (i < length xj)%nat ->
     nth i fjwj 0 = if filtered i then 0 else f (nth i xj 0) * nth i w 0) /\
  ((exists fin, iteration' n st = Returned (Break fin) /\ st_status fin = 3%Z) <->
   (exists i, (i < length xj)%nat /\ F.isfinite (nth i fjwj 0) = false)) /\
  (forall fin r,
     iteration' n st = Returned (Break fin) -> st_status fin = 3%Z ->
     report fin = Returned r -> status r = 3%Z /\ success r = false) /\
  (F.isnan minweight = false -> (minweight <=? 0) = false ->
   forall i, (i < length xj)%nat ->
     (a <? nth i xj 0) = true -> (nth i xj 0 <? b) = true ->
     (minweight <? nth i w 0) = true ->
     F.isinf (f (nth i xj 0)) = true ->
     exists fin, iteration' n st = Returned (Break fin) /\ st_status fin = 3%Z) /\
  ((forall i, (i < length xj)%nat ->
      filtered i = false ->
      F.isfinite (f (nth i xj 0) * nth i w 0) = true) ->
   forall fin, iteration' n st = Returned (Break fin) -> st_status fin <> 3%Z) /\
  (forall fin,
     run_loop' = Returned fin ->
     (st_status fin = 3%Z <->
      exists k stk hk xk wk,
        (k < Z.to_nat maxiter)%nat /\ reaches' k stk /\
        _compute_pairs P k = Returned (hk, xk, wk) /\
        (st_feval stk + points a b xk * feval_factor <= maxfun)%Z /\
        forallb F.isfinite (contributions f a b minweight xk wk) = false)).
Proof.
  intros Hp Hb alpha xj w fjwj filtered.
  pose proof (compute_pairs_length _ _ _ _ _ Hp) as Hlen.
  assert (Hnth : forall i, (i < length xj)%nat ->
     nth i fjwj 0 = if filtered i then 0 else f (nth i xj 0) * nth i w 0).
  { intros i Hi.
    change (filtered i) with (invalid a b minweight (nth i xj 0) (nth i w 0)).
    apply contributions_nth; assumption. }
  assert (Hiff : (exists fin, iteration' n st = Returned (Break fin) /\ st_status fin = 3%Z) <->
                 (exists i, (i < length xj)%nat /\ F.isfinite (nth i fjwj 0) = false)).
  { etransitivity; [apply (iteration_status3 n st h xjc wj Hp Hb)|].
    etransitivity; [apply (forallb_false_nth F.isfinite _ 0)|].
    rewrite (contributions_length f a b minweight xjc wj Hlen). reflexivity. }
  split; [split; reflexivity|].
  split; [exact Hnth|]. split; [exact Hiff|]. split; [|split; [|split]].
  - intros fin r _ Hs Hrep.
    apply report_fields in Hrep as (_ & _ & _ & -> & ->). rewrite Hs. split; reflexivity.
  - intros Hnan Hpos i Hi Ha Hbx Hw Hinf. apply Hiff. exists i. split; [exact Hi|].
    rewrite (Hnth i Hi).
    change (filtered i) with (invalid a b minweight (nth i xj 0) (nth i w 0)).
    rewrite (interior_not_filtered _ _ Ha Hbx Hw).
    eapply FloatOrder.inf_mul_weight; eassumption.
  - intros Hall fin Hit Hs.
    destruct (proj1 Hiff (ex_intro _ fin (conj Hit Hs))) as (i & Hi & Hfin).
    rewrite (Hnth i Hi) in Hfin.
    destruct (filtered i) eqn:Hinv.
    + discriminate Hfin.
    + rewrite (Hall i Hi Hinv) in Hfin. discriminate Hfin.
  - intros fin Hrun. split.
    + intros Hs. apply run_loop_inv in Hrun as [(k & stk & Hk & Hr & Hi)|(st' & Hr & ->)];
        [|discriminate Hs].
      apply iteration_inv in Hi. inversion Hi; subst; simpl in Hs; try discriminate Hs.
      exists k, stk. do 3 eexists. repeat split; eassumption.
    + intros (k & stk & hk & xk & wk & Hk & Hr & Hpk & Hbk & Hfk).
      assert (Hbr : iteration' k stk
                    = Returned (Break {| st_Sk := st_Sk stk; st_Sn := st_Sn stk;
                                         st_aerr := st_aerr stk; st_status := 3;
                                         st_feval := st_feval stk
                                                     + points a b xk * feval_factor |})).
      { apply iteration_case_sound. eapply case_invalid; eassumption. }
      pose proof (loop_break P f a b maxfun maxiter atol rtol minweight feval_factor
                    k stk _ Hr Hk Hbr) as Hfin.
      unfold run_loop' in Hrun. rewrite Hrun in Hfin. injection Hfin as ->. reflexivity.
Qed.


Lemma last_two_snoc pre (x y : float) : last_two (pre ++ [x; y]) = Returned (x, y).
Proof.
  unfold last_two. rewrite rev_app_distr. reflexivity.
Qed.

Lemma reaches_Sk_length n st : reaches' n st -> length (st_Sk st) = n.
Proof.
  intros Hr. revert n st Hr. apply reaches_ind_inv.
  - reflexivity.
  - intros n st st' _ HI Hit. apply iteration_inv in Hit.
    inversion Hit; subst; simpl; rewrite length_app; simpl; lia.
Qed.

(** From the third iteration on, the sequence of estimates ends with the
    estimates of the two iterations before. *)
Lemma reaches_Sk_two n st :
  reaches' n st -> (2 <= n)%nat ->
  exists pre Snm2 Snm1, st_Sk st = pre ++ [Snm2; Snm1].
Proof.
  intros Hr Hn. apply reaches_Sk_length in Hr.
  destruct (rev (st_Sk st)) as [|y [|x t]] eqn:E.
  - apply (f_equal (@length float)) in E. rewrite length_rev in E. simpl in E. lia.
  - apply (f_equal (@length float)) in E. rewrite length_rev in E. simpl in E. lia.
  - exists (rev t), x, y. apply (f_equal (@rev float)) in E.
    rewrite rev_involutive in E. rewrite E. simpl. rewrite <- app_assoc. reflexivity.
Qed.

Lemma nth_map_abs i (l : list float) : nth i (map abs l) 0 = abs (nth i l 0).
Proof. change (nth i (map abs l) (abs 0) = abs (nth i l 0)). apply map_nth. Qed.

(** [np.max(np.abs(fjwj))] of an array that is not empty. *)
Lemma np_max_abs (l : list float) :
  l <> [] ->
  np_max (map abs l) = Returned (fold_left F.maximum (map abs (tl l)) (abs (hd 0 l))).
Proof. destruct l as [|x t]; [congruence|]. reflexivity. Qed.

(** The term [d4] of an array of two halves of [half] entries each: the
    logarithm of the larger of the absolute values of the last entry of each
    half. *)
Lemma d4_term_nth (l : list float) half :
  length l = Nat.mul 2 half -> (0 < half)%nat ->
  d4_term P l
  = Returned (log10 P (F.maximum (abs (nth (half - 1) l 0))
                                 (abs (nth (2 * half - 1) l 0)))).
Proof.
  intros Hlen Hpos. unfold d4_term, last_column. rewrite length_map, Hlen.
  replace (Nat.div (Nat.mul 2 half) 2) with half
    by (symmetry; rewrite Nat.mul_comm; apply Nat.div_mul; discriminate).
  rewrite Nat.eqb_refl. cbn [negb].
  destruct half as [|m']; [lia|]. cbn [bind np_max fold_left].
  rewrite !nth_map_abs.
  replace (Nat.sub (S m') 1) with m' by lia.
  replace (Nat.sub (Nat.mul 2 (S m')) 1) with (Nat.add (S m') m') by lia.
  reflexivity.
Qed.

(** C3 (amended): the convergence rule.  A pass that gets past the budget
    check and the validity check computes [Sn]; in iterations [n < 2] it
    goes on without touching the error estimate; in iterations [n >= 2],
    with [Snm2, Snm1] the last two appended estimates,
    [d1 = log10|Sn - Snm1|], [d2 = log10|Sn - Snm2|],
    [d3 = log10(eps * max|contribution|)] and [d4] the logarithm of the
    larger of two absolute contributions, that of the last point of the first
    half and that of the last point of the second half of the contribution
    array, it computes [d = max(d1**2/d2, 2*d1, d3, d4)], [rerr = 10**d] and
    [aerr = max(eps, rerr) * |Sn|], and breaks with status 0 exactly when
    [rerr < rtol] or [rerr * |Sn| < atol]; in a state the loop reaches the
    sequence of estimates does end with two such values; and the run ends
    with status 0 exactly when some reachable iteration does. *)
Theorem convergence_rule n st h xjc wj :
  _compute_pairs P n = Returned (h, xjc, wj) ->
  (st_feval st + points a b xjc * feval_factor <= maxfun)%Z ->
  forallb F.isfinite (contributions f a b minweight xjc wj) = true ->
  let fjwj := contributions f a b minweight xjc wj in
  let Sn := estimate P (st_Sk st) fjwj h in
  let feval' := (st_feval st + points a b xjc * feval_factor)%Z in
  ((n < 2)%nat ->
   iteration' n st
   = Returned (Continue {| st_Sk := st_Sk st ++ [Sn]; st_Sn := Sn; st_aerr := st_aerr st;
                           st_status := st_status st; st_feval := feval' |})) /\
  ((2 <= n)%nat ->
   forall pre Snm2 Snm1,
     st_Sk st = pre ++ [Snm2; Snm1] ->
     let half := length xjc in
     let m := fold_left F.maximum (map abs (tl fjwj)) (abs (hd 0 fjwj)) in
     let d1 := log10 P (abs (Sn - Snm1)) in
     let d2 := log10 P (abs (Sn - Snm2)) in
     let d3 := log10 P (F.eps * m) in
     let d4 := log10 P (F.maximum (abs (nth (half - 1) fjwj 0))
                                  (abs (nth (2 * half - 1) fjwj 0))) in
     let d := F.maximum (F.maximum (F.maximum (pow P d1 2 / d2) (2 * d1)) d3) d4 in
     let rerr := pow P 10 d in
     let aerr := F.py_max F.eps rerr * abs Sn in
     length fjwj = Nat.mul 2 half /\
     error_estimate P (st_Sk st) Sn fjwj = Returned (rerr, aerr) /\
     iteration' n st
     = Returned (if (rerr <? rtol) || (rerr * abs Sn <? atol)
                 then Break {| st_Sk := st_Sk st; st_Sn := Sn; st_aerr := aerr;
                               st_status := 0; st_feval := feval' |}
                 else Continue {| st_Sk := st_Sk st ++ [Sn]; st_Sn := Sn; st_aerr := aerr;
                                  st_status := st_status st; st_feval := feval' |})) /\
  (reaches' n st -> (2 <= n)%nat ->
   exists pre Snm2 Snm1, st_Sk st = pre ++ [Snm2; Snm1]) /\
  (forall fin,
     run_loop' = Returned fin ->
     (st_status fin = 0%Z <->
      exists k stk hk xk wk rerr aerr,
        (2 <= k < Z.to_nat maxiter)%nat /\ reaches' k stk /\
        _compute_pairs P k = Returned (hk, xk, wk) /\
        (st_feval stk + points a b xk * feval_factor <= maxfun)%Z /\
        forallb F.isfinite (contributions f a b minweight xk wk) = true /\
        error_estimate P (st_Sk stk)
          (estimate P (st_Sk stk) (contributions f a b minweight xk wk) hk)
          (contributions f a b minweight xk wk) = Returned (rerr, aerr) /\
        converged atol rtol rerr
          (estimate P (st_Sk stk) (contributions f a b minweight xk wk) hk) = true)).
Proof.
  intros Hp Hb Hf fjwj Sn feval'. split; [|split; [|split]].
  - intros Hn. apply iteration_case_sound. eapply case_early; eassumption.
  - intros Hn pre Snm2 Snm1 HSk half m d1 d2 d3 d4 d rerr aerr.
    pose proof (compute_pairs_length _ _ _ _ _ Hp) as Hlen.
    assert (Hhalf : (0 < half)%nat).
    { apply compute_pairs_inv in Hp as (j & _ & _ & _ & Hw).
      apply halve_first_length in Hw as Hw'. unfold half. rewrite <- Hlen.
      destruct wj; [destruct (map _ j); discriminate Hw|cbn [length]; lia]. }
    assert (Hfl : length fjwj = Nat.mul 2 half).
    { unfold fjwj. rewrite contributions_length, abscissas_length by exact Hlen.
      reflexivity. }
    assert (Hm : np_max (map abs fjwj) = Returned m).
    { apply np_max_abs. intros E. rewrite E in Hfl. cbn [length] in Hfl. lia. }
    assert (Hd4 : d4_term P fjwj = Returned d4) by (apply d4_term_nth; assumption).
    assert (He : error_estimate P (st_Sk st) Sn fjwj = Returned (rerr, aerr)).
    { unfold error_estimate. rewrite HSk, last_two_snoc. cbn [bind].
      rewrite Hm. cbn [bind]. rewrite Hd4. reflexivity. }
    split; [exact Hfl|]. split; [exact He|].
    apply iteration_case_sound.
    fold (converged atol rtol rerr Sn).
    destruct (converged atol rtol rerr Sn) eqn:Hc.
    + eapply case_converged; eassumption.
    + eapply case_refine; eassumption.
  - apply reaches_Sk_two.
  - intros fin Hrun. split.
    + intros Hs. apply run_loop_inv in Hrun as [(k & stk & Hk & Hr & Hi)|(st' & Hr & ->)];
        [|discriminate Hs].
      apply iteration_inv in Hi. inversion Hi; subst; simpl in Hs; try discriminate Hs.
      exists k, stk. do 5 eexists. repeat split; eassumption.
    + intros (k & stk & hk & xk & wk & rerr & aerr & Hk & Hr & Hpk & Hbk & Hfk & He & Hc).
      assert (Hbr : iteration' k stk
                    = Returned (Break {| st_Sk := st_Sk stk;
                                         st_Sn := estimate P (st_Sk stk)
                                                    (contributions f a b minweight xk wk) hk;
                                         st_aerr := aerr; st_status := 0;
                                         st_feval := st_feval stk
                                                     + points a b xk * feval_factor |})).
      { apply iteration_case_sound. eapply case_converged; try eassumption. lia. }
      pose proof (loop_break P f a b maxfun maxiter atol rtol minweight feval_factor
                    k stk _ Hr (proj2 Hk) Hbr) as Hfin.
      unfold run_loop' in Hrun. rewrite Hrun in Hfin. injection Hfin as ->. reflexivity.
Qed.

End StepRules.

(** The theorem at the first level of the integral of [1/x] over (-1, 1):
    the first abscissa is the midpoint 0, where the integrand is infinite. *)
Lemma invalid_value_rule_witness :
  exists fin,
    iteration ref_platform (fun x => 1 / x)%float (-1) 1
      default_maxfun default_atol default_rtol default_minweight 1 0 initial_state
    = Returned (Break fin) /\ st_status fin = 3%Z.
Proof.
  edestruct (invalid_value_rule ref_platform (fun x => 1 / x)%float (-1) 1
               default_maxfun default_maxiter default_atol default_rtol
               default_minweight 1 0 initial_state) as (_ & _ & _ & _ & H & _).
  - vm_compute. reflexivity.
  - vm_compute. discriminate.
  - apply (H eq_refl eq_refl 0%nat).
    + vm_compute. lia.
    + vm_compute. reflexivity.
    + vm_compute. reflexivity.
    + vm_compute. reflexivity.
    + vm_compute. reflexivity.
Defined.

(** The theorem at the integral of the constant 1 over (0, 1) with the
    default settings: the run converges after 98 evaluations, so some
    iteration [k >= 2] passed the convergence test. *)
Lemma convergence_rule_witness :
  exists fin,
    run_loop ref_platform (fun _ => 1%float) 0 1
      default_maxfun default_maxiter default_atol default_rtol default_minweight 1
    = Returned fin /\
    st_status fin = 0%Z /\ st_feval fin = 98%Z /\
    exists k stk hk xk wk rerr aerr,
      (2 <= k < Z.to_nat default_maxiter)%nat /\
      reaches ref_platform (fun _ => 1%float) 0 1
        default_maxfun default_atol default_rtol default_minweight 1 k stk /\
      _compute_pairs ref_platform k = Returned (hk, xk, wk) /\
      (st_feval stk + points 0 1 xk * 1 <= default_maxfun)%Z /\
      forallb F.isfinite (contributions (fun _ => 1%float) 0 1 default_minweight xk wk)
      = true /\
      error_estimate ref_platform (st_Sk stk)
        (estimate ref_platform (st_Sk stk)
           (contributions (fun _ => 1%float) 0 1 default_minweight xk wk) hk)
        (contributions (fun _ => 1%float) 0 1 default_minweight xk wk)
      = Returned (rerr, aerr) /\
      converged default_atol default_rtol rerr
        (estimate ref_platform (st_Sk stk)
           (contributions (fun _ => 1%float) 0 1 default_minweight xk wk) hk) = true.
Proof.
  edestruct (convergence_rule ref_platform (fun _ => 1%float) 0 1
               default_maxfun default_maxiter default_atol default_rtol
               default_minweight 1 0 initial_state) as (_ & _ & _ & H).
  - vm_compute. reflexivity.
  - vm_compute. discriminate.
  - vm_compute. reflexivity.
  - eexists. split; [vm_compute; reflexivity|].
    split; [reflexivity|]. split; [reflexivity|].
    refine (proj1 (H _ _) _); [vm_compute; reflexivity|reflexivity].
Defined.

(** C3 as stated, with [d4] taken over the last half of the points, fails
    for the integral of the constant 1 over (0, 1) with the default
    settings: the loop breaks with status 0 in iteration 3, where the error
    estimate of the specification is about 0.76 and passes neither
    tolerance test. *)
Lemma convergence_rule_counterexample :
  exists st h xjc wj fin rerr' aerr',
    reaches ref_platform (fun _ => 1%float) 0 1
      default_maxfun default_atol default_rtol default_minweight 1 3 st /\
    _compute_pairs ref_platform 3 = Returned (h, xjc, wj) /\
    iteration ref_platform (fun _ => 1%float) 0 1
      default_maxfun default_atol default_rtol default_minweight 1 3 st
    = Returned (Break fin) /\
    st_status fin = 0%Z /\
    spec_error_estimate ref_platform (st_Sk st)
      (estimate ref_platform (st_Sk st)
         (contributions (fun _ => 1%float) 0 1 default_minweight xjc wj) h)
      (contributions (fun _ => 1%float) 0 1 default_minweight xjc wj)
    = Returned (rerr', aerr') /\
    (rerr' <? default_rtol)%float = false /\
    (rerr' * abs (estimate ref_platform (st_Sk st)
                    (contributions (fun _ => 1%float) 0 1 default_minweight xjc wj) h)
     <? default_atol)%float = false.
Proof.
  do 7 eexists. split.
  - eapply steps_cons; [vm_compute; reflexivity|].
    eapply steps_cons; [vm_compute; reflexivity|].
    eapply steps_cons; [vm_compute; reflexivity|apply steps_refl].
  - split; [vm_compute; reflexivity|]. split; [vm_compute; reflexivity|].
    split; [reflexivity|]. split; [vm_compute; reflexivity|].
    split; vm_compute; reflexivity.
Qed.

(* ================================================================== *)
(** ** The pair generator *)

Section PairFacts.

Variable P : Platform.

Local Open Scope float_scope.

Lemma arange_all (M : Z) :
  arange 0 M 1 = map Z.of_nat (seq 0 (Z.to_nat M)).
Proof.
  unfold arange.
  replace ((M - 0 + 1 - 1) / 1)%Z with M by (rewrite Z.div_1_r; lia).
  apply map_ext. intros i. lia.
Qed.

Lemma filter_odd_seq (m : nat) :
  filter Z.odd (map Z.of_nat (seq 0 m))
  = map (fun i => (1 + 2 * Z.of_nat i)%Z) (seq 0 (Nat.div m 2)).
Proof.
  induction m as [|m IH]; [reflexivity|].
  rewrite seq_S, map_app, filter_app, IH.
  change (filter Z.odd (map Z.of_nat [Nat.add 0 m]))
    with (if Z.odd (Z.of_nat m) then [Z.of_nat m] else []).
  destruct (Nat.Even_or_Odd m) as [[q Hq]|[q Hq]]; subst m.
  - replace (Z.odd (Z.of_nat (Nat.mul 2 q))) with false
      by (rewrite Nat2Z.inj_mul, Z.odd_mul; reflexivity).
    replace (Nat.div (S (Nat.mul 2 q)) 2) with q
      by (apply (Nat.div_unique _ 2 q 1); lia).
    replace (Nat.div (Nat.mul 2 q) 2) with q
      by (apply (Nat.div_unique _ 2 q 0); lia).
    apply app_nil_r.
  - replace (Z.odd (Z.of_nat (Nat.add (Nat.mul 2 q) 1))) with true
      by (rewrite Nat2Z.inj_add, Nat2Z.inj_mul, Z.odd_add, Z.odd_mul; reflexivity).
    replace (Nat.div (S (Nat.add (Nat.mul 2 q) 1)) 2) with (S q)
      by (apply (Nat.div_unique _ 2 (S q) 0); lia).
    replace (Nat.div (Nat.add (Nat.mul 2 q) 1) 2) with q
      by (apply (Nat.div_unique _ 2 q 1); lia).
    rewrite seq_S, map_app. f_equal.
    change (map (fun i => (1 + 2 * Z.of_nat i)%Z) [Nat.add 0 q])
      with [(1 + 2 * Z.of_nat q)%Z].
    f_equal. lia.
Qed.

Lemma arange_odd (M : Z) :
  arange 1 M 2 = filter Z.odd (map Z.of_nat (seq 0 (Z.to_nat M))).
Proof.
  rewrite filter_odd_seq. unfold arange. f_equal. f_equal.
  replace (M - 1 + 2 - 1)%Z with M by lia.
  destruct (Z.le_gt_cases 0 M) as [Hm|Hm].
  - rewrite <- (Z2Nat.id M) at 1 by exact Hm.
    change 2%Z with (Z.of_nat 2). rewrite <- Nat2Z.inj_div. apply Nat2Z.id.
  - replace (Z.to_nat M) with O by lia.
    assert (M / 2 < 0)%Z by (apply Z.div_lt_upper_bound; lia). simpl. lia.
Qed.

Lemma pair_indices_spec k M :
  max_index k = Returned M -> pair_indices k = Returned (spec_indices k M).
Proof.
  intros H. unfold pair_indices, spec_indices. rewrite H. cbn [bind].
  destruct (Nat.eqb k 0); [rewrite arange_all|rewrite arange_odd]; reflexivity.
Qed.

(** Every level up to 1021 passes the check. *)
Lemma levels_ok : forallb level_ok (seq 0 1022) = true.
Proof. vm_compute. reflexivity. Qed.

Lemma level_ok_inv k :
  (k <= 1021)%nat ->
  max_index k = Returned (exact_max_index k) /\
  step_size k = Z.ldexp 1 (- Z.of_nat k).
Proof.
  intros Hk. pose proof levels_ok as H. rewrite forallb_forall in H.
  assert (Hin : In k (seq 0 1022)) by (apply in_seq; lia).
  specialize (H k Hin). unfold level_ok in H.
  destruct (max_index k) as [m|e]; [|discriminate H].
  apply andb_prop in H as [H1 H2].
  apply Z.eqb_eq in H1. apply FloatAxioms.Leibniz.eqb_spec in H2.
  subst m. split; [reflexivity|exact H2].
Qed.

Lemma exact_max_index_ge k : (6 <= exact_max_index k)%Z.
Proof.
  unfold exact_max_index, c6115_scaled.
  assert (H1 : (0 < 2 ^ Z.of_nat k)%Z) by (apply Z.pow_pos_nonneg; lia).
  assert (H2 : (- (6884877930342646 * 2 ^ Z.of_nat k) / 2 ^ 50 <= -6)%Z).
  { apply Z.div_le_upper_bound; [reflexivity|].
    change (2 ^ 50)%Z with 1125899906842624%Z. lia. }
  lia.
Qed.

(** The first index of a level is 0 at level 0 and 1 at the other levels. *)
Lemma spec_indices_head k :
  exists rest,
    spec_indices k (exact_max_index k) = (if Nat.eqb k 0 then 0 else 1)%Z :: rest.
Proof.
  pose proof (exact_max_index_ge k) as HM. unfold spec_indices.
  destruct (Z.to_nat (exact_max_index k)) as [|[|m]] eqn:E; try lia.
  destruct (Nat.eqb k 0).
  - eexists. reflexivity.
  - rewrite filter_odd_seq.
    replace (S (S m)) with (Nat.add m (Nat.mul 1 2)) by lia.
    rewrite Nat.div_add by discriminate. rewrite Nat.add_1_r.
    eexists. reflexivity.
Qed.

Lemma spec_indices_nonempty k : spec_indices k (exact_max_index k) <> [].
Proof. destruct (spec_indices_head k) as [rest ->]. discriminate. Qed.

End PairFacts.

(* ================================================================== *)
(** ** The levels at which the pair generator returns *)

Module LevelBound.

Lemma pow2_shift k : (2 ^ Z.of_nat k)%Z = Zpos (Pos.shiftl_nat 1 k).
Proof.
  induction k as [|k IH]; [reflexivity|].
  rewrite Nat2Z.inj_succ, Z.pow_succ_r by lia. rewrite IH. reflexivity.
Qed.

Lemma digits2_shift k : digits2_pos (Pos.shiftl_nat 1 k) = Pos.of_succ_nat k.
Proof.
  induction k as [|k IH]; [reflexivity|].
  change (Pos.shiftl_nat 1 (S k)) with (xO (Pos.shiftl_nat 1 k)).
  simpl. rewrite IH. reflexivity.
Qed.

Lemma iter_pos_nat {A : Type} (g : A -> A) p x :
  iter_pos g p x = Nat.iter (Pos.to_nat p) g x.
Proof.
  revert x. induction p as [p IH|p IH|]; intros x; cbn [iter_pos].
  - rewrite !IH, Pos2Nat.inj_xI.
    rewrite <- Nat.iter_add, Nat.iter_succ_r. f_equal. lia.
  - rewrite !IH, Pos2Nat.inj_xO. rewrite <- Nat.iter_add. f_equal. lia.
  - reflexivity.
Qed.

Lemma shr_iter j r :
  Nat.iter j shr_1
    {| shr_m := Zpos (Pos.shiftl_nat 1 (j + r)); shr_r := false; shr_s := false |}
  = {| shr_m := Zpos (Pos.shiftl_nat 1 r); shr_r := false; shr_s := false |}.
Proof.
  revert r. induction j as [|j IH]; intros r; [reflexivity|].
  rewrite Nat.iter_succ.
  replace (Nat.add (S j) r) with (Nat.add j (S r)) by lia.
  rewrite IH. reflexivity.
Qed.

Lemma fexp_large e : (-1021 <= e)%Z -> fexp prec emax e = (e - 53)%Z.
Proof.
  intros H. unfold fexp, SpecFloat.emin.
  change prec with 53%Z. change emax with 1024%Z. lia.
Qed.

Lemma normalize_pow2_overflow k :
  (1024 <= k)%nat ->
  binary_normalize prec emax (2 ^ Z.of_nat k) 0 false = S754_infinity false.
Proof.
  intros Hk. rewrite pow2_shift.
  unfold binary_normalize, binary_round.
  rewrite digits2_shift.
  assert (Hd : (Z.pos (Pos.of_succ_nat k) + 0 = Z.of_nat k + 1)%Z)
    by (rewrite Zpos_P_of_succ_nat; lia).
  rewrite Hd, fexp_large by lia.
  assert (Hq : exists q, (Z.of_nat k + 1 - 53 = Z.pos q)%Z /\ Pos.to_nat q = (k - 52)%nat).
  { exists (Z.to_pos (Z.of_nat k + 1 - 53)). split.
    - rewrite Z2Pos.id; lia.
    - apply Nat2Z.inj. rewrite positive_nat_Z, Z2Pos.id; lia. }
  destruct Hq as (q & Hq & Hqn).
  unfold shl_align. rewrite Hq. cbn [Z.sub Z.opp Z.add].
  unfold binary_round_aux, shr_fexp.
  cbn [Zdigits2]. rewrite digits2_shift, Hd, fexp_large by lia.
  rewrite Z.sub_0_r, Hq.
  cbn [shr shr_record_of_loc]. rewrite iter_pos_nat, Hqn.
  replace (Pos.shiftl_nat 1 k) with (Pos.shiftl_nat 1 (Nat.add (k - 52) 52))
    by (f_equal; lia).
  rewrite shr_iter.
  cbn [shr_m loc_of_shr_record round_nearest_even Zdigits2].
  change (Z.pos (digits2_pos (Pos.shiftl_nat 1 52))) with 53%Z.
  rewrite fexp_large by lia.
  replace (53 + (0 + Z.pos q) - 53 - (0 + Z.pos q))%Z with 0%Z by lia.
  cbn [shr shr_record_of_loc shr_m].
  change (Pos.shiftl_nat 1 52) with 4503599627370496%positive.
  cbv iota beta.
  replace (0 + Z.pos q <=? emax - prec)%Z with false; [reflexivity|].
  symmetry. apply Z.leb_gt. change emax with 1024%Z. change prec with 53%Z. lia.
Qed.

Lemma of_int_pow2_overflow k :
  (1024 <= k)%nat ->
  F.of_int (2 ^ Z.of_nat k) = Raised (OverflowError "int too large to convert to float").
Proof.
  intros Hk. unfold F.of_int. rewrite normalize_pow2_overflow by exact Hk. reflexivity.
Qed.

(** The pair generator returns at the levels 0..1021 only. *)
Lemma max_index_returns k M : max_index k = Returned M -> (k <= 1021)%nat.
Proof.
  intros H. destruct (Nat.le_gt_cases k 1021) as [Hk|Hk]; [exact Hk|exfalso].
  destruct (Nat.le_gt_cases 1024 k) as [Hk'|Hk'].
  - unfold max_index in H. rewrite of_int_pow2_overflow in H by exact Hk'.
    discriminate H.
  - assert (Hc : k = 1022%nat \/ k = 1023%nat) by lia.
    destruct Hc as [-> | ->]; vm_compute in H; discriminate H.
Qed.

Lemma compute_pairs_returns P k h xjc wj :
  _compute_pairs P k = Returned (h, xjc, wj) -> (k <= 1021)%nat.
Proof.
  intros H. apply compute_pairs_inv in H as (j & Hj & _).
  unfold pair_indices in Hj.
  destruct (max_index k) as [M|e] eqn:HM; [|discriminate Hj].
  eapply max_index_returns, HM.
Qed.

End LevelBound.

(* ================================================================== *)
(** ** What the pair generator returns *)

Section PairSpec.

Variable P : Platform.

Local Open Scope float_scope.

(** C4 (amended): at every level [k] at which the pair generator returns,
    and it does return at the levels 0 to 10, it returns [h = 2^-k] and, with
    [M = ceil(6.115 * 2^k)], the pairs of the indices [0..M-1] when [k = 0]
    and of the odd indices below [M] when [k > 0]; for an index [j], with
    [jh = j*h], [u1 = pi/2 * cosh(jh)] and [u2 = pi/2 * sinh(jh)], the weight
    is [u1 / cosh(u2)^2] and the complement is [1 / (exp(u2) * cosh(u2))]; at
    level 0 the weight of the first index, [j = 0], is halved. *)
Theorem compute_pairs_spec k :
  let h := Z.ldexp 1 (- Z.of_nat k) in
  let u1 j := F.pi_2 * cosh P (F.of_Z j * h) in
  let u2 j := F.pi_2 * sinh P (F.of_Z j * h) in
  let weight j := u1 j / (cosh P (u2 j) * cosh P (u2 j)) in
  let complement j := 1 / (exp P (u2 j) * cosh P (u2 j)) in
  (forall h' xjc wj,
     _compute_pairs P k = Returned (h', xjc, wj) ->
     exists j0 rest,
       spec_indices k (exact_max_index k) = j0 :: rest /\
       j0 = (if Nat.eqb k 0 then 0 else 1)%Z /\
       h' = h /\
       xjc = map complement (j0 :: rest) /\
       wj = (if Nat.eqb k 0 then weight j0 / 2 else weight j0) :: map weight rest) /\
  ((k <= 10)%nat -> exists h' xjc wj, _compute_pairs P k = Returned (h', xjc, wj)).
Proof.
  intros h u1 u2 weight complement.
  assert (G : (k <= 1021)%nat ->
              exists j0 rest,
                spec_indices k (exact_max_index k) = j0 :: rest /\
                j0 = (if Nat.eqb k 0 then 0 else 1)%Z /\
                _compute_pairs P k
                = Returned (h, map complement (j0 :: rest),
                            (if Nat.eqb k 0 then weight j0 / 2 else weight j0)
                            :: map weight rest)).
  { intros Hk. destruct (level_ok_inv k Hk) as [HM Hh].
    destruct (spec_indices_head k) as [rest Hjs].
    exists (if Nat.eqb k 0 then 0 else 1)%Z, rest.
    split; [exact Hjs|]. split; [reflexivity|].
    unfold _compute_pairs. rewrite (pair_indices_spec k _ HM), Hh, Hjs. cbn [bind].
    rewrite !map_map. reflexivity. }
  split.
  - intros h' xjc wj H.
    pose proof (LevelBound.compute_pairs_returns _ _ _ _ _ H) as Hk.
    destruct (G Hk) as (j0 & rest & Hjs & Hj0 & H').
    rewrite H' in H. injection H as <- <- <-.
    exists j0, rest. repeat split; assumption.
  - intros Hk. destruct (G ltac:(lia)) as (j0 & rest & _ & _ & H').
    do 3 eexists. exact H'.
Qed.

End PairSpec.

(** The theorem at level 1: [h = 1/2] and the indices 1, 3, ..., 11. *)
Lemma compute_pairs_spec_witness :
  exists xjc wj,
    _compute_pairs ref_platform 1 = Returned (0.5%float, xjc, wj) /\
    length xjc = 6%nat /\ length wj = 6%nat.
Proof.
  destruct (compute_pairs_spec ref_platform 1) as [_ Hret].
  destruct (Hret ltac:(lia)) as (h & xjc & wj & H).
  destruct (compute_pairs_spec ref_platform 1) as [Hshape _].
  destruct (Hshape h xjc wj H) as (j0 & rest & Hjs & Hj0 & Hh & Hx & Hw).
  vm_compute in Hjs. injection Hjs as <- <-.
  exists xjc, wj. split; [rewrite H, Hh; reflexivity|].
  rewrite Hx, Hw. split; reflexivity.
Defined.

(** C4 as stated fails at level 1022: [6.115 * 2**1022] overflows to
    infinity, and [int(np.ceil(inf))] raises [OverflowError]. *)
Lemma compute_pairs_counterexample :
  _compute_pairs ref_platform 1022
  = Raised (OverflowError "cannot convert float infinity to integer").
Proof. vm_compute. reflexivity. Qed.

(* ================================================================== *)
(** ** Totality: up to 1022 iterations, the loop returns

    These are facts of the model, whose arrays have no limit on their
    length.  NumPy cannot allocate the arrays of the high levels, so of the
    code they hold for the levels whose arrays it can allocate. *)

Section Totality.

Variable P : Platform.
Variable f : integrand.
Variables a b : float.
Variables maxfun maxiter : Z.
Variables atol rtol minweight : float.
Variable feval_factor : Z.

Local Open Scope float_scope.

(** The pairs of a level up to 1021: the two arrays have the same,
    non-zero length. *)
Lemma compute_pairs_total k :
  (k <= 1021)%nat ->
  exists h xjc wj,
    _compute_pairs P k = Returned (h, xjc, wj) /\
    length wj = length xjc /\ (0 < length xjc)%nat.
Proof.
  intros Hk. destruct (level_ok_inv k Hk) as [HM _].
  unfold _compute_pairs. rewrite (pair_indices_spec k _ HM). cbn [bind].
  pose proof (spec_indices_nonempty k) as Hne.
  destruct (spec_indices k (exact_max_index k)) as [|j js]; [congruence|].
  cbn [map halve_first bind]. do 3 eexists. split; [reflexivity|].
  cbn [length]. rewrite !length_map. split; [reflexivity|lia].
Qed.

Lemma np_max_total (l : list float) : l <> [] -> exists m, np_max l = Returned m.
Proof. destruct l; [congruence|]. intros _. eexists. reflexivity. Qed.

Lemma last_column_total (l : list float) m :
  length l = Nat.mul 2 (S m) -> exists x y, last_column l = Returned [x; y].
Proof.
  intros H. unfold last_column. rewrite H.
  replace (Nat.div (Nat.mul 2 (S m)) 2) with (S m)
    by (apply (Nat.div_unique _ 2 (S m) 0); lia).
  rewrite Nat.eqb_refl. cbn [negb]. do 2 eexists. reflexivity.
Qed.

Lemma error_estimate_total Sk Sn fjwj m :
  (2 <= length Sk)%nat -> length fjwj = Nat.mul 2 (S m) ->
  exists rerr aerr, error_estimate P Sk Sn fjwj = Returned (rerr, aerr).
Proof.
  intros HSk Hlen. unfold error_estimate, last_two.
  destruct (rev Sk) as [|y [|x t]] eqn:E;
    try (apply (f_equal (@length float)) in E; rewrite length_rev in E; simpl in E; lia).
  cbn [bind].
  destruct (np_max_total (map abs fjwj)) as (mx & ->).
  { intros E'. apply (f_equal (@length float)) in E'. rewrite length_map, Hlen in E'.
    simpl in E'. lia. }
  cbn [bind]. unfold d4_term.
  destruct (last_column_total (map abs fjwj) m) as (u & v & ->);
    [rewrite length_map; exact Hlen|].
  cbn. do 2 eexists. reflexivity.
Qed.

Lemma iteration_total n st :
  (n <= 1021)%nat -> length (st_Sk st) = n ->
  exists r, iteration P f a b maxfun atol rtol minweight feval_factor n st = Returned r.
Proof.
  intros Hn HSk.
  destruct (compute_pairs_total n Hn) as (h & xjc & wj & Hp & Hlen & Hpos).
  unfold iteration. rewrite Hp. cbn [bind].
  destruct (_ >? _)%Z; [eexists; reflexivity|].
  destruct (forallb F.isfinite _); cbn [negb]; [|eexists; reflexivity].
  destruct (Nat.leb 2 n) eqn:H2; [|eexists; reflexivity].
  apply Nat.leb_le in H2.
  destruct (error_estimate_total (st_Sk st)
              (estimate P (st_Sk st) (contributions f a b minweight xjc wj) h)
              (contributions f a b minweight xjc wj) (length xjc - 1))
    as (rerr & aerr & ->).
  - lia.
  - rewrite contributions_length, abscissas_length by exact Hlen. lia.
  - cbn [bind]. destruct (converged _ _ _ _); eexists; reflexivity.
Qed.

Lemma loop_total fuel n st :
  (n + fuel <= 1022)%nat -> length (st_Sk st) = n ->
  exists fin, loop P f a b maxfun atol rtol minweight feval_factor fuel n st = Returned fin.
Proof.
  revert n st. induction fuel as [|fuel IH]; intros n st Hn HSk.
  - eexists. reflexivity.
  - cbn [loop].
    destruct (iteration_total n st ltac:(lia) HSk) as (r & Hit). rewrite Hit. cbn [bind].
    destruct r as [st'|st']; [|eexists; reflexivity].
    apply IH; [lia|].
    apply iteration_inv in Hit. inversion Hit; subst; simpl;
      rewrite length_app; simpl; lia.
Qed.

Lemma report_total st :
  (st_status st = 0 \/ st_status st = 1 \/ st_status st = 2 \/ st_status st = 3)%Z ->
  exists r, report st = Returned r.
Proof.
  unfold report. intros [H|[H|[H|H]]]; rewrite H; eexists; reflexivity.
Qed.

(** The engine returns a result whenever it is asked for at most 1022
    iterations. *)
Lemma engine_total :
  (maxiter <= 1022)%Z ->
  exists r, engine P f a b maxfun maxiter atol rtol minweight feval_factor = Returned r.
Proof.
  intros Hmax. unfold engine, run_loop.
  destruct (loop_total (Z.to_nat maxiter) 0 initial_state ltac:(lia) eq_refl) as (fin & Hl).
  rewrite Hl. cbn [bind]. apply report_total.
  pose proof (run_loop_status P f a b maxfun maxiter atol rtol minweight feval_factor fin Hl)
    as [(n & st & _ & _ & _ & H)|H]; lia.
Qed.

End Totality.

(** [_tanhsinh] returns a result whenever its arguments pass the validation
    and [maxiter] is at most 1022. *)
Lemma tanhsinh_total P f a b maxfun maxiter atol rtol minweight iv :
  _quadts_iv P f a b maxfun maxiter atol rtol minweight = Returned iv ->
  (maxiter <= 1022)%Z ->
  exists r, _tanhsinh P f a b maxfun maxiter atol rtol minweight = Returned r.
Proof.
  intros Hiv Hmax. rewrite (tanhsinh_unfold _ _ _ _ _ _ _ _ _ _ Hiv).
  apply engine_total, Hmax.
Qed.

(* ================================================================== *)
(** ** Arithmetic with zeros *)

Module FloatZero.

Import FloatFacts.

Local Open Scope float_scope.

Definition SFis_fin (x : spec_float) : bool :=
  match x with S754_zero _ | S754_finite _ _ _ => true | _ => false end.

Lemma isfinite_fin x : F.isfinite x = SFis_fin (Prim2SF x).
Proof. rewrite isfinite_spec. destruct (Prim2SF x); reflexivity. Qed.

Lemma SFcompare_Eq_finite s1 m1 e1 s2 m2 e2 :
  SFcompare (S754_finite s1 m1 e1) (S754_finite s2 m2 e2) = Some Eq ->
  s1 = s2 /\ m1 = m2 /\ e1 = e2.
Proof.
  simpl. destruct s1, s2; try discriminate;
    destruct (e1 ?= e2)%Z eqn:He; try discriminate;
    apply Z.compare_eq in He; subst e2; intros H;
    assert (Hm : Pos.compare_cont Eq m1 m2 = Eq)
      by (destruct (Pos.compare_cont Eq m1 m2); simpl in H; congruence);
    apply Pos.compare_eq in Hm; subst m2; repeat split.
Qed.

(** The difference of two equal finite numbers is a zero. *)
Lemma sub_eqb_zero a b :
  F.isfinite a = true -> (a =? b) = true -> is_zero (b - a) = true.
Proof.
  rewrite isfinite_fin, eqb_spec, is_zero_spec, sub_spec. unfold SFeqb, SF64sub.
  destruct (Prim2SF a) as [sa|sa| |sa ma ea]; try discriminate;
    destruct (Prim2SF b) as [sb|sb| |sb mb eb]; intros _ H;
    try (destruct sa, sb; reflexivity || discriminate H);
    try (destruct sa; discriminate H); try (destruct sb; discriminate H);
    try discriminate H.
  destruct (SFcompare (S754_finite sa ma ea) (S754_finite sb mb eb)) as [[]|] eqn:E;
    try discriminate H.
  apply SFcompare_Eq_finite in E as (<- & <- & <-).
  unfold SFsub. rewrite Z.sub_diag. reflexivity.
Qed.

Lemma zero_half x : is_zero x = true -> is_zero (x / 2) = true.
Proof.
  rewrite !is_zero_spec, div_spec.
  change (Prim2SF 2) with (S754_finite false 4503599627370496 (-51)).
  destruct (Prim2SF x); try discriminate. reflexivity.
Qed.

Lemma zero_opp x : is_zero x = true -> is_zero (- x) = true.
Proof.
  rewrite !is_zero_spec, opp_spec. destruct (Prim2SF x); try discriminate. reflexivity.
Qed.

Lemma zero_mul z x :
  is_zero z = true -> F.isfinite x = true -> is_zero (z * x) = true.
Proof.
  rewrite !is_zero_spec, isfinite_fin, mul_spec.
  destruct (Prim2SF z); try discriminate.
  destruct (Prim2SF x); try discriminate; reflexivity.
Qed.

(** Adding a zero to a finite number gives a number equal to it. *)
Lemma zero_add z b a :
  is_zero z = true -> F.isfinite b = true -> (a =? b) = true ->
  (z + b =? a) = true /\ (b <=? z + b) = true /\ (z + b <=? a) = true.
Proof.
  rewrite is_zero_spec, isfinite_fin, !eqb_spec, !leb_spec, add_spec.
  unfold SFeqb, SFleb, SF64add.
  destruct (Prim2SF z) as [sz| | |]; try discriminate. intros _.
  destruct (Prim2SF b) as [sb|sb| |sb mb eb]; try discriminate; intros _.
  - destruct (Prim2SF a) as [sa|sa| |sa ma ea]; intros H;
      try (destruct sa; discriminate H); try discriminate H.
    destruct sz, sb; repeat split; reflexivity.
  - change (SFadd prec emax (S754_zero sz) (S754_finite sb mb eb))
      with (S754_finite sb mb eb).
    rewrite SFcompare_refl_finite.
    rewrite (FloatOrder.SFcompare_antisym (Prim2SF a) (S754_finite sb mb eb)).
    destruct (SFcompare (Prim2SF a) (S754_finite sb mb eb)) as [[]|];
      try discriminate. repeat split; reflexivity.
Qed.

Lemma eqb_refl_finite a : F.isfinite a = true -> (a =? a) = true.
Proof.
  rewrite isfinite_fin, eqb_spec. unfold SFeqb.
  destruct (Prim2SF a) as [s|s| |s m e]; try discriminate; intros _.
  - reflexivity.
  - rewrite SFcompare_refl_finite. reflexivity.
Qed.

(** The estimate built from a zero predecessor and a zero sum. *)
Lemma zero_estimate h : F.isfinite h = true -> 0 / 2 + 0 * h = 0.
Proof.
  rewrite isfinite_fin. intros Hh. apply Prim2SF_inj.
  rewrite add_spec, div_spec, mul_spec.
  change (Prim2SF 0) with (S754_zero false).
  change (Prim2SF 2) with (S754_finite false 4503599627370496 (-51)).
  destruct (Prim2SF h) as [[]|s| |[] m e]; try discriminate; reflexivity.
Qed.

Lemma eqb_finite a b : F.isfinite a = true -> (a =? b) = true -> F.isfinite b = true.
Proof.
  rewrite !isfinite_fin, eqb_spec. unfold SFeqb.
  destruct (Prim2SF a) as [sa|sa| |sa ma ea]; try discriminate;
    destruct (Prim2SF b) as [sb|sb| |sb mb eb]; intros _ H;
    try reflexivity; try (destruct sb; discriminate H); discriminate H.
Qed.

Lemma eqb_not_ltb a b : (a =? b) = true -> (b <? a) = false.
Proof.
  rewrite eqb_spec, ltb_spec. unfold SFeqb, SFltb.
  rewrite (FloatOrder.SFcompare_antisym (Prim2SF a) (Prim2SF b)).
  destruct (SFcompare (Prim2SF a) (Prim2SF b)) as [[]|]; try discriminate. reflexivity.
Qed.

Lemma isfinite_not_isinf a : F.isfinite a = true -> F.isinf a = false.
Proof.
  rewrite isfinite_spec, isinf_spec. destruct (Prim2SF a); try discriminate; reflexivity.
Qed.

End FloatZero.

(* ================================================================== *)
(** ** Equal finite limits *)

Section EqualLimits.

Variable P : Platform.
Variable f : integrand.
Variables a b : float.
Variables maxfun maxiter : Z.
Variables atol rtol minweight : float.
Variable feval_factor : Z.

Local Open Scope float_scope.

Hypothesis a_finite : F.isfinite a = true.
Hypothesis a_eq_b : (a =? b) = true.
Hypothesis sum_zeros : sum_of_zeros P.
Hypothesis complements_finite :
  forall k h xjc wj,
    (k < Z.to_nat maxiter)%nat ->
    _compute_pairs P k = Returned (h, xjc, wj) ->
    Forall (fun x => F.isfinite x = true) xjc.

Let reaches' := reaches P f a b maxfun atol rtol minweight feval_factor.
Let iteration' := iteration P f a b maxfun atol rtol minweight feval_factor.

Lemma alpha_zero : is_zero (alpha a b) = true.
Proof.
  unfold alpha. apply FloatZero.zero_half, FloatZero.sub_eqb_zero; assumption.
Qed.

Lemma b_finite : F.isfinite b = true.
Proof. eapply FloatZero.eqb_finite; eassumption. Qed.

(** Every abscissa is equal to [a] and is filtered. *)
Lemma abscissas_equal xjc :
  Forall (fun x => F.isfinite x = true) xjc ->
  Forall (fun x => (x =? a) = true /\ forall w, invalid a b minweight x w = true)
         (abscissas a b xjc).
Proof.
  intros Hx. unfold abscissas. apply Forall_app. split; apply Forall_map;
    (eapply Forall_impl; [|exact Hx]); intros x Hfin; cbv beta.
  - destruct (FloatZero.zero_add (- alpha a b * x) b a) as (H1 & H2 & _);
      [apply FloatZero.zero_mul; [apply FloatZero.zero_opp, alpha_zero|exact Hfin]
      |exact b_finite|exact a_eq_b|].
    split; [exact H1|]. intros w. unfold invalid. rewrite H2.
    rewrite orb_true_r. reflexivity.
  - destruct (FloatZero.zero_add (alpha a b * x) a a) as (H1 & _ & H3);
      [apply FloatZero.zero_mul; [apply alpha_zero|exact Hfin]
      |exact a_finite|apply FloatZero.eqb_refl_finite, a_finite|].
    split; [exact H1|]. intros w. unfold invalid. rewrite H3. reflexivity.
Qed.

Lemma mask_zero_filtered (xs ws cs : list float) :
  Forall (fun x => forall w, invalid a b minweight x w = true) xs ->
  Forall (fun c => c = 0) (mask_zero (zip_with (invalid a b minweight) xs ws) cs).
Proof.
  intros H. revert ws cs. induction H as [|x xs Hx _ IH]; intros [|w ws] [|c cs];
    try constructor.
  - cbn. rewrite Hx. reflexivity.
  - apply IH.
Qed.

Lemma contributions_zero xjc wj :
  Forall (fun x => F.isfinite x = true) xjc ->
  Forall (fun c => c = 0) (contributions f a b minweight xjc wj).
Proof.
  intros Hx. unfold contributions. apply mask_zero_filtered.
  eapply Forall_impl; [|apply abscissas_equal, Hx]. intros x [_ H]. exact H.
Qed.

Lemma zeros_finite (l : list float) :
  Forall (fun c => c = 0) l -> forallb F.isfinite l = true.
Proof.
  induction 1 as [|c l Hc _ IH]; [reflexivity|]. subst c. simpl. exact IH.
Qed.

Lemma last_zeros (l : list float) : Forall (fun c => c = 0) l -> last l 0 = 0.
Proof.
  induction 1 as [|c l Hc Hl IH]; [reflexivity|]. subst c.
  destruct l; [reflexivity|]. exact IH.
Qed.

Lemma step_size_finite k : (k <= 1021)%nat -> F.isfinite (step_size k) = true.
Proof.
  intros Hk.
  assert (H : forallb (fun k => F.isfinite (step_size k)) (seq 0 1022) = true)
    by (vm_compute; reflexivity).
  rewrite forallb_forall in H. apply H, in_seq. lia.
Qed.

Lemma estimate_zero k h xjc wj Sk :
  (k < Z.to_nat maxiter)%nat ->
  _compute_pairs P k = Returned (h, xjc, wj) ->
  Forall (fun c => c = 0) Sk ->
  estimate P Sk (contributions f a b minweight xjc wj) h = 0.
Proof.
  intros Hk Hp HSk. unfold estimate.
  rewrite (last_zeros _ HSk).
  rewrite (sum_zeros _ (contributions_zero xjc wj (complements_finite _ _ _ _ Hk Hp))).
  apply FloatZero.zero_estimate.
  pose proof (LevelBound.compute_pairs_returns _ _ _ _ _ Hp) as Hle.
  apply compute_pairs_inv in Hp as (_ & _ & -> & _).
  apply step_size_finite, Hle.
Qed.

(** Along the loop every estimate is the positive zero. *)
Lemma reaches_zero n st :
  reaches' n st -> (n <= Z.to_nat maxiter)%nat ->
  Forall (fun c => c = 0) (st_Sk st) /\ ((1 <= n)%nat -> st_Sn st = 0).
Proof.
  intros Hr. revert n st Hr.
  apply (reaches_ind_inv P f a b maxfun atol rtol minweight feval_factor
           (fun n st => (n <= Z.to_nat maxiter)%nat ->
              Forall (fun c => c = 0) (st_Sk st) /\ ((1 <= n)%nat -> st_Sn st = 0))).
  - intros _. split; [constructor|lia].
  - intros n st st' _ HI Hit Hn. destruct (HI ltac:(lia)) as [HSk _].
    apply iteration_inv in Hit. inversion Hit; subst; simpl;
      (assert (E : Sn = 0) by (eapply estimate_zero; [|eassumption|exact HSk]; lia));
      rewrite E; (split; [|reflexivity]);
      (apply Forall_app; split; [exact HSk|repeat constructor]).
Qed.

Lemma iteration_never_invalid n st fin :
  (n < Z.to_nat maxiter)%nat ->
  iteration' n st = Returned (Break fin) -> st_status fin <> 3%Z.
Proof.
  intros Hn Hit. apply iteration_inv in Hit. inversion Hit; subst; simpl; try discriminate.
  match goal with Hp : _compute_pairs P n = _, Hf : forallb _ _ = false |- _ =>
    rewrite (zeros_finite _ (contributions_zero _ _ (complements_finite _ _ _ _ Hn Hp))) in Hf;
    discriminate Hf end.
Qed.

Lemma run_loop_zero fin :
  (0 < maxiter)%Z -> (14 * feval_factor <= maxfun)%Z ->
  run_loop P f a b maxfun maxiter atol rtol minweight feval_factor = Returned fin ->
  st_Sn fin = 0 /\ st_status fin <> 3%Z.
Proof.
  intros Hpos Hbudget H.
  apply run_loop_inv in H as [(m & stm & Hm & Hr & Hi)|(st' & Hr & ->)].
  - split; [|eapply iteration_never_invalid; eassumption].
    destruct (reaches_zero m stm Hr ltac:(lia)) as [HSk HSn].
    apply iteration_inv in Hi. inversion Hi; subst; simpl.
    + destruct m as [|m]; [|apply HSn; lia].
      exfalso. destruct (compute_pairs_0 P) as (x0 & w0 & Hp0 & Hx0 & _).
      match goal with Hp : _compute_pairs P 0 = _ |- _ =>
        rewrite Hp0 in Hp; injection Hp as <- <- <- end.
      pose proof (reaches_feval P f a b maxfun atol rtol minweight feval_factor) as Hfe.
      assert (E : st_feval stm = 0%Z).
      { inversion Hr; subst; [reflexivity|].
        match goal with Hs : steps _ _ _ _ _ _ _ _ _ _ _ _ _ |- _ =>
          apply steps_le in Hs; lia end. }
      rewrite E, points_length, Hx0 in *. lia.
    + exfalso.
      match goal with Hp : _compute_pairs P m = _, Hf : forallb _ _ = false |- _ =>
        rewrite (zeros_finite _ (contributions_zero _ _ (complements_finite _ _ _ _ Hm Hp)))
          in Hf; discriminate Hf end.
    + eapply estimate_zero; [|eassumption|exact HSk]. lia.
  - simpl. split; [|discriminate].
    apply (reaches_zero _ _ Hr); lia.
Qed.

End EqualLimits.

Section EqualLimitsTop.

Variable P : Platform.

Local Open Scope float_scope.

Lemma quadts_iv_finite f a b maxfun maxiter atol rtol minweight iv :
  _quadts_iv P f a b maxfun maxiter atol rtol minweight = Returned iv ->
  F.isfinite a = true -> F.isfinite b = true -> (b <? a) = false ->
  iv_f iv = f /\ iv_a iv = a /\ iv_b iv = b /\ iv_feval_factor iv = 1%Z.
Proof.
  intros H Ha Hb Hlt. apply quadts_iv_inv in H.
  destruct H as (_ & _ & _ & _ & _ & _ & _ & _ & _ & _ & _ & _ & _ & _ & H).
  unfold orient, fold_infinite, compactify in H.
  rewrite Hlt, (FloatZero.isfinite_not_isinf _ Ha), (FloatZero.isfinite_not_isinf _ Hb) in H.
  cbn [andb] in H. cbv beta iota zeta in H.
  rewrite (FloatZero.isfinite_not_isinf _ Hb) in H. exact H.
Qed.

(** C10: when the limits are finite and equal and [maxfun] admits the
    first level, [alpha] is a zero, every abscissa equals [a], every
    contribution is forced to zero whatever the integrand returns, status 3
    is never returned, every estimate is [0.0] and so is the returned
    integral.  The complements the platform's functions produce are assumed
    finite (they lie in [0, 1]), and [np.sum] to add zeros to zero. *)
Theorem equal_limits_integral_zero f a b maxfun maxiter atol rtol minweight iv :
  F.isfinite a = true -> (a =? b) = true ->
  _quadts_iv P f a b maxfun maxiter atol rtol minweight = Returned iv ->
  (14 <= maxfun)%Z ->
  sum_of_zeros P ->
  (forall k h xjc wj,
     (k < Z.to_nat maxiter)%nat ->
     _compute_pairs P k = Returned (h, xjc, wj) ->
     Forall (fun x => F.isfinite x = true) xjc) ->
  is_zero (alpha a b) = true /\
  (forall k h xjc wj,
     (k < Z.to_nat maxiter)%nat ->
     _compute_pairs P k = Returned (h, xjc, wj) ->
     Forall (fun x => (x =? a) = true) (abscissas a b xjc) /\
     Forall (fun c => c = 0) (contributions f a b minweight xjc wj)) /\
  (forall n st,
     reaches P f a b maxfun atol rtol minweight 1 n st ->
     (1 <= n <= Z.to_nat maxiter)%nat -> st_Sn st = 0) /\
  (forall r,
     _tanhsinh P f a b maxfun maxiter atol rtol minweight = Returned r ->
     integral r = 0 /\ status r <> 3%Z) /\
  ((maxiter <= 1022)%Z ->
   exists r, _tanhsinh P f a b maxfun maxiter atol rtol minweight = Returned r).
Proof.
  intros Ha Hab Hiv Hbudget Hsum Hx.
  pose proof (FloatZero.eqb_finite _ _ Ha Hab) as Hb.
  pose proof (FloatZero.eqb_not_ltb _ _ Hab) as Hlt.
  destruct (quadts_iv_finite _ _ _ _ _ _ _ _ _ Hiv Ha Hb Hlt) as (Ef & Ea & Eb & Eff).
  split; [apply alpha_zero; assumption|]. split; [|split; [|split]].
  - intros k h xjc wj Hk Hp. split.
    + eapply Forall_impl; [|apply (abscissas_equal a b minweight Ha Hab), (Hx _ _ _ _ Hk Hp)].
      intros x [H _]. exact H.
    + apply (contributions_zero f a b minweight Ha Hab), (Hx _ _ _ _ Hk Hp).
  - intros n st Hr Hn.
    apply (reaches_zero P f a b maxfun maxiter atol rtol minweight 1 Ha Hab Hsum Hx n st Hr);
      lia.
  - intros r Hr. rewrite (tanhsinh_unfold _ _ _ _ _ _ _ _ _ _ Hiv) in Hr.
    rewrite Ef, Ea, Eb, Eff in Hr.
    apply engine_inv in Hr as (fin & Hl & Hrep).
    apply report_fields in Hrep as (-> & _ & _ & -> & _).
    apply (run_loop_zero P f a b maxfun maxiter atol rtol minweight 1 Ha Hab Hsum Hx fin);
      [apply quadts_iv_inv in Hiv; lia|lia|exact Hl].
  - intros Hmax. eapply tanhsinh_total; eassumption.
Qed.

End EqualLimitsTop.

(** The theorem at [a = b = 3] with an integrand that is NaN everywhere,
    run for three iterations on the reference platform. *)
Lemma equal_limits_integral_zero_witness :
  exists r,
    _tanhsinh ref_platform (fun _ => nan) 3 3
      default_maxfun 3 default_atol default_rtol default_minweight = Returned r /\
    integral r = 0%float /\ status r <> 3%Z.
Proof.
  eexists. split; [vm_compute; reflexivity|].
  eapply (equal_limits_integral_zero ref_platform (fun _ => nan) 3 3
            default_maxfun 3 default_atol default_rtol default_minweight).
  - reflexivity.
  - reflexivity.
  - reflexivity.
  - vm_compute. discriminate.
  - exact FloatFacts.ref_sum_of_zeros.
  - intros k h xjc wj Hk Hp.
    destruct k as [|[|[|k]]]; [| | |vm_compute in Hk; lia];
      vm_compute in Hp; injection Hp as <- <- <-;
      repeat constructor.
  - vm_compute. reflexivity.
Defined.

(* ================================================================== *)
(** ** Reversed limits *)

Section Reversal.

Variable P : Platform.
Hypothesis sum_neg : sum_respects_negation P.

Local Open Scope float_scope.

Import FloatFacts.

Lemma Forall2_rev {A B : Type} (R : A -> B -> Prop) l l' :
  Forall2 R l l' -> Forall2 R (rev l) (rev l').
Proof.
  induction 1 as [|x y l l' Hxy _ IH]; simpl; [constructor|].
  apply Forall2_app; [exact IH|]. constructor; [exact Hxy|constructor].
Qed.

Lemma Forall2_negrel_abs l l' : Forall2 negrel l l' -> map abs l = map abs l'.
Proof.
  induction 1 as [|x y l l' Hxy _ IH]; simpl; [reflexivity|].
  rewrite (negrel_abs _ _ Hxy), IH. reflexivity.
Qed.

Lemma Forall2_negrel_isfinite l l' :
  Forall2 negrel l l' -> forallb F.isfinite l = forallb F.isfinite l'.
Proof.
  induction 1 as [|x y l l' Hxy _ IH]; simpl; [reflexivity|].
  rewrite (negrel_isfinite _ _ Hxy), IH. reflexivity.
Qed.

Lemma Forall2_negrel_last l l' :
  Forall2 negrel l l' -> negrel (last l 0) (last l' 0).
Proof.
  induction 1 as [|x y l l' Hxy Hl IH]; [apply negrel_zero|].
  destruct Hl; [exact Hxy|exact IH].
Qed.

Section TwoIntegrands.

Variables f g : integrand.
Hypothesis fg : forall x, negrel (f x) (g x).

Variables a b : float.
Variables maxfun maxiter : Z.
Variables atol rtol minweight : float.
Variable feval_factor : Z.

Lemma masked_products_negrel (m : list bool) (xs ws : list float) :
  Forall2 negrel (mask_zero m (zip_with mul (map f xs) ws))
                 (mask_zero m (zip_with mul (map g xs) ws)).
Proof.
  unfold mask_zero. revert m ws.
  induction xs as [|x xs IH]; intros m ws; simpl.
  - destruct m; constructor.
  - destruct ws as [|w ws]; [destruct m; constructor|].
    destruct m as [|[] m]; simpl; constructor; try apply IH.
    + apply negrel_zero.
    + apply negrel_mul, fg.
Qed.

Lemma contributions_negrel xjc wj :
  Forall2 negrel (contributions f a b minweight xjc wj)
                 (contributions g a b minweight xjc wj).
Proof. unfold contributions. apply masked_products_negrel. Qed.

Lemma estimate_negrel Sk Sk' c c' h :
  Forall2 negrel Sk Sk' -> Forall2 negrel c c' ->
  negrel (estimate P Sk c h) (estimate P Sk' c' h).
Proof.
  intros HSk Hc. unfold estimate.
  apply negrel_add.
  - apply negrel_div, Forall2_negrel_last, HSk.
  - apply negrel_mul, sum_neg, Hc.
Qed.

Lemma error_estimate_negrel Sk Sk' Sn Sn' c c' :
  Forall2 negrel Sk Sk' -> negrel Sn Sn' -> Forall2 negrel c c' ->
  error_estimate P Sk' Sn' c' = error_estimate P Sk Sn c.
Proof.
  intros HSk HSn Hc. unfold error_estimate, last_two, d4_term.
  rewrite <- (Forall2_negrel_abs _ _ Hc), <- (negrel_abs _ _ HSn).
  apply Forall2_rev in HSk.
  destruct HSk as [|y y' t t' Hy Ht]; [reflexivity|].
  destruct Ht as [|x x' t t' Hx Ht]; [reflexivity|].
  cbn [bind].
  rewrite <- (negrel_abs _ _ (negrel_sub _ _ _ _ HSn Hy)).
  rewrite <- (negrel_abs _ _ (negrel_sub _ _ _ _ HSn Hx)).
  reflexivity.
Qed.

Lemma converged_negrel rerr Sn Sn' :
  negrel Sn Sn' -> converged atol rtol rerr Sn' = converged atol rtol rerr Sn.
Proof.
  intros H. unfold converged. rewrite (negrel_abs _ _ H). reflexivity.
Qed.

Lemma iteration_negrel n st st' :
  state_negrel st st' ->
  outcome_rel step_negrel
    (iteration P f a b maxfun atol rtol minweight feval_factor n st)
    (iteration P g a b maxfun atol rtol minweight feval_factor n st').
Proof.
  intros (HSk & HSn & Haerr & Hstatus & Hfeval).
  unfold iteration.
  destruct (_compute_pairs P n) as [[[h xjc] wj]|e]; cbn [bind]; [|reflexivity].
  rewrite Hfeval.
  destruct (_ >? _)%Z.
  { cbn. repeat split; assumption. }
  pose proof (contributions_negrel xjc wj) as Hc.
  rewrite <- (Forall2_negrel_isfinite _ _ Hc).
  destruct (forallb F.isfinite _); cbn [negb].
  - pose proof (estimate_negrel _ _ _ _ h HSk Hc) as HE.
    destruct (Nat.leb 2 n).
    + rewrite (error_estimate_negrel _ _ _ _ _ _ HSk HE Hc).
      destruct (error_estimate P _ _ _) as [[rerr aerr]|e]; cbn [bind]; [|reflexivity].
      rewrite (converged_negrel rerr _ _ HE).
      destruct (converged _ _ _ _); cbn; repeat split; try assumption.
      apply Forall2_app; [exact HSk|]. constructor; [exact HE|constructor].
    + cbn. repeat split; try assumption.
      apply Forall2_app; [exact HSk|]. constructor; [exact HE|constructor].
  - cbn. repeat split; assumption.
Qed.

Lemma loop_negrel fuel n st st' :
  state_negrel st st' ->
  outcome_rel state_negrel
    (loop P f a b maxfun atol rtol minweight feval_factor fuel n st)
    (loop P g a b maxfun atol rtol minweight feval_factor fuel n st').
Proof.
  revert n st st'. induction fuel as [|fuel IH]; intros n st st' Hst.
  - destruct Hst as (H1 & H2 & H3 & H4 & H5). cbn. repeat split; assumption.
  - cbn [loop]. pose proof (iteration_negrel n st st' Hst) as Hit.
    destruct (iteration P f _ _ _ _ _ _ _ n st) as [[s|s]|e];
      destruct (iteration P g _ _ _ _ _ _ _ n st') as [[s'|s']|e'];
      cbn in Hit |- *; try contradiction; try assumption.
    apply IH, Hit.
Qed.

Lemma report_negrel st st' :
  state_negrel st st' -> outcome_rel result_negrel (report st) (report st').
Proof.
  intros (HSk & HSn & Haerr & Hstatus & Hfeval). unfold report. rewrite Hstatus.
  destruct (dict_get _ _); cbn; [|reflexivity].
  unfold result_negrel. cbn. rewrite ?Hstatus, ?Haerr, ?Hfeval. repeat split. exact HSn.
Qed.

Lemma engine_negrel :
  outcome_negrel
    (engine P f a b maxfun maxiter atol rtol minweight feval_factor)
    (engine P g a b maxfun maxiter atol rtol minweight feval_factor).
Proof.
  unfold engine, run_loop.
  assert (H0 : state_negrel initial_state initial_state).
  { unfold state_negrel. cbn. repeat split; [constructor|apply (negrel_opp nan)]. }
  pose proof (loop_negrel (Z.to_nat maxiter) 0 _ _ H0) as Hl.
  destruct (loop P f _ _ _ _ _ _ _ _ _ _) as [s|e];
    destruct (loop P g _ _ _ _ _ _ _ _ _ _) as [s'|e'];
    cbn in Hl |- *; try contradiction; try assumption.
  apply report_negrel in Hl.
  destruct (report s), (report s'); cbn in Hl |- *; assumption.
Qed.

End TwoIntegrands.


Lemma ltb_asym x y : (x <? y) = true -> (y <? x) = false.
Proof.
  rewrite !ltb_spec. unfold SFltb.
  rewrite (FloatOrder.SFcompare_antisym (Prim2SF x) (Prim2SF y)).
  destruct (SFcompare (Prim2SF x) (Prim2SF y)) as [[]|]; try discriminate. reflexivity.
Qed.

Lemma ltb_not_nan x y : (x <? y) = true -> F.isnan x = false /\ F.isnan y = false.
Proof.
  rewrite ltb_spec, !isnan_spec. unfold SFltb.
  destruct (Prim2SF x) as [sx|sx| |sx mx ex], (Prim2SF y) as [sy|sy| |sy my ey];
    try discriminate; intros _; split; reflexivity.
Qed.

Lemma quadts_iv_reversed f a b maxfun maxiter atol rtol minweight :
  (a <? b) = true ->
  outcome_rel standardized_negrel
    (_quadts_iv P f a b maxfun maxiter atol rtol minweight)
    (_quadts_iv P f b a maxfun maxiter atol rtol minweight).
Proof.
  intros Hlt. destruct (ltb_not_nan _ _ Hlt) as [Ha Hb].
  unfold _quadts_iv. cbn [existsb]. rewrite Ha, Hb. cbn [orb].
  destruct (F.isnan atol || _)%bool; [reflexivity|].
  destruct (_ || _)%bool; [reflexivity|].
  destruct (_ || _)%bool; [reflexivity|].
  destruct (_ || _)%bool; [reflexivity|].
  unfold orient. rewrite Hlt, (ltb_asym _ _ Hlt).
  unfold fold_infinite, compactify.
  destruct (F.isinf a && F.isinf b)%bool.
  - change (F.isinf infinity) with true. cbn.
    unfold standardized_negrel. cbn. repeat split.
    intros x. apply negrel_mul, negrel_add; apply negrel_opp.
  - destruct (F.isinf a).
    + destruct (F.isinf (- a)); cbn; unfold standardized_negrel; cbn; repeat split;
        intros x; try apply negrel_mul; apply negrel_opp.
    + destruct (F.isinf b); cbn; unfold standardized_negrel; cbn; repeat split;
        intros x; try apply negrel_mul; apply negrel_opp.
Qed.

(** C8 (amended): for [a < b], running over [(b, a)] gives the same
    outcome as running over [(a, b)] with the same status, [feval], error,
    success flag and message, and an integral that is the negation of the
    other one, except that a zero integral is a zero in both runs, whatever
    its sign.  [np.sum] is assumed to add in an order that does not
    depend on the values. *)
Theorem reversed_limits_negate f a b maxfun maxiter atol rtol minweight :
  (a <? b) = true ->
  outcome_negrel
    (_tanhsinh P f a b maxfun maxiter atol rtol minweight)
    (_tanhsinh P f b a maxfun maxiter atol rtol minweight).
Proof.
  intros Hlt. unfold _tanhsinh.
  pose proof (quadts_iv_reversed f a b maxfun maxiter atol rtol minweight Hlt) as Hiv.
  destruct (_quadts_iv P f a b _ _ _ _ _) as [iv|e];
    destruct (_quadts_iv P f b a _ _ _ _ _) as [iv'|e'];
    cbn in Hiv |- *; try contradiction; try assumption.
  destruct Hiv as (Hf & -> & -> & -> & -> & -> & -> & -> & ->).
  apply engine_negrel, Hf.
Qed.

End Reversal.

(** The theorem at the integral of [x -> x*x] over (0, 2) and (2, 0). *)
Lemma reversed_limits_negate_witness :
  outcome_negrel
    (_tanhsinh ref_platform (fun x => x * x)%float 0 2
       default_maxfun default_maxiter default_atol default_rtol default_minweight)
    (_tanhsinh ref_platform (fun x => x * x)%float 2 0
       default_maxfun default_maxiter default_atol default_rtol default_minweight).
Proof.
  apply (reversed_limits_negate ref_platform FloatFacts.ref_sum_respects_negation).
  reflexivity.
Defined.

(** C8 as stated fails for the integrand that is zero everywhere: over
    (0, 1) and over (1, 0) the integral is the same [+0.0], which is not the
    negation [-0.0] of itself. *)
Lemma reversed_limits_counterexample :
  exists r r',
    _tanhsinh ref_platform (fun _ => 0%float) 0 1
      default_maxfun default_maxiter default_atol default_rtol default_minweight
    = Returned r /\
    _tanhsinh ref_platform (fun _ => 0%float) 1 0
      default_maxfun default_maxiter default_atol default_rtol default_minweight
    = Returned r' /\
    integral r = 0%float /\ integral r' = 0%float /\
    integral r' <> (- integral r)%float.
Proof.
  do 2 eexists. split; [vm_compute; reflexivity|]. split; [vm_compute; reflexivity|].
  cbn [integral]. repeat split.
  intros E. apply (f_equal Prim2SF) in E. vm_compute in E. discriminate E.
Qed.

(* ================================================================== *)
(** * Further properties

    Properties of [_quadts_iv], [_compute_pairs] and [_tanhsinh] beyond the
    ones above: what the validation accepts and how it transforms the range,
    the sizes of the levels, the invariants of the loop, and how the result
    depends on the two budgets, the tolerances and the integrand. *)

(* ================================================================== *)
(** ** Further properties of the validation *)

Module FloatSign.

Import FloatFacts.

Local Open Scope float_scope.

Lemma isfinite_iff x :
  F.isfinite x = true <-> F.isnan x = false /\ F.isinf x = false.
Proof.
  rewrite isfinite_spec, isnan_spec, isinf_spec.
  destruct (Prim2SF x); simpl; intuition congruence.
Qed.

(** For a number that is not NaN, [x <= 0] fails exactly when [0 < x]. *)
Lemma leb0_false x : F.isnan x = false -> ((x <=? 0) = false <-> (0 <? x) = true).
Proof.
  rewrite isnan_spec, leb_spec, ltb_spec. change (Prim2SF 0) with (S754_zero false).
  unfold SFleb, SFltb.
  destruct (Prim2SF x) as [s|[]| |[] m e]; simpl; intuition congruence.
Qed.

(** For a number that is not NaN, [x < 0] fails exactly when [0 <= x]. *)
Lemma ltb0_false x : F.isnan x = false -> ((x <? 0) = false <-> (0 <=? x) = true).
Proof.
  rewrite isnan_spec, leb_spec, ltb_spec. change (Prim2SF 0) with (S754_zero false).
  unfold SFleb, SFltb.
  destruct (Prim2SF x) as [s|[]| |[] m e]; simpl; intuition congruence.
Qed.

Lemma SFcompare_None x y :
  SFcompare x y = None -> SFis_nan x = true \/ SFis_nan y = true.
Proof.
  destruct x as [sx|sx| |sx mx ex], y as [sy|sy| |sy my ey]; simpl; auto;
    try (destruct sx; discriminate); try (destruct sy; discriminate);
    try (destruct sx, sy; discriminate).
Qed.

(** Two numbers that are not NaN are comparable. *)
Lemma not_ltb_leb x y :
  F.isnan x = false -> F.isnan y = false -> (y <? x) = false -> (x <=? y) = true.
Proof.
  rewrite !isnan_spec, ltb_spec, leb_spec. unfold SFltb, SFleb.
  rewrite (FloatOrder.SFcompare_antisym (Prim2SF x) (Prim2SF y)).
  intros Hx Hy.
  destruct (SFcompare (Prim2SF x) (Prim2SF y)) as [[]|] eqn:E; simpl; try congruence.
  apply SFcompare_None in E. destruct E; congruence.
Qed.

(** The two infinities. *)
Lemma isinf_cases x : F.isinf x = true -> x = neg_infinity \/ x = infinity.
Proof.
  rewrite isinf_spec. intros H.
  destruct (Prim2SF x) as [s|[]| |s m e] eqn:E; try discriminate H.
  - left. apply Prim2SF_inj. rewrite E. reflexivity.
  - right. apply Prim2SF_inj. rewrite E. reflexivity.
Qed.

Lemma ltb_infinity x : (infinity <? x) = false.
Proof.
  rewrite ltb_spec. change (Prim2SF infinity) with (S754_infinity false).
  unfold SFltb. destruct (Prim2SF x) as [s|[]| |s m e]; reflexivity.
Qed.

Lemma ltb_neg_infinity x : (x <? neg_infinity) = false.
Proof.
  rewrite ltb_spec. change (Prim2SF neg_infinity) with (S754_infinity true).
  unfold SFltb. destruct (Prim2SF x) as [s|[]| |[] m e]; reflexivity.
Qed.

End FloatSign.

Section ValidationMore.

Variable P : Platform.

Local Open Scope float_scope.

(** X1: for [maxfun] and [maxiter] in the range of [int64],
    [_quadts_iv] accepts its arguments exactly when neither limit is NaN,
    [atol] is finite and not negative, [rtol] and [minweight] are finite and
    positive, and [maxfun] and [maxiter] are positive (infinite limits are
    accepted); whatever it rejects, it rejects with a [ValueError]. *)
Theorem quadts_iv_accepts_iff f a b maxfun maxiter atol rtol minweight :
  fits_int64 maxfun -> fits_int64 maxiter ->
  ((exists iv, _quadts_iv P f a b maxfun maxiter atol rtol minweight = Returned iv) <->
   (F.isnan a = false /\ F.isnan b = false /\
    F.isfinite atol = true /\ (0 <=? atol) = true /\
    F.isfinite rtol = true /\ (0 <? rtol) = true /\
    F.isfinite minweight = true /\ (0 <? minweight) = true /\
    (0 < maxfun)%Z /\ (0 < maxiter)%Z)) /\
  (forall e, _quadts_iv P f a b maxfun maxiter atol rtol minweight = Raised e ->
             exists msg, e = ValueError msg).
Proof.
  intros _ _. split; [split|].
  - intros [iv H]. apply quadts_iv_inv in H.
    destruct H as (Hnan & Hr & Hm & Hri & Hmi & Ha & Hai & Hf & Hi & _).
    cbn [existsb] in Hnan. rewrite orb_false_r in Hnan.
    apply orb_false_iff in Hnan as [Hna Hnan].
    apply orb_false_iff in Hnan as [Hnb Hnan].
    apply orb_false_iff in Hnan as [Hnat Hnan].
    apply orb_false_iff in Hnan as [Hnr Hnm].
    repeat split; try assumption.
    + apply FloatSign.isfinite_iff. split; assumption.
    + apply FloatSign.ltb0_false; assumption.
    + apply FloatSign.isfinite_iff. split; assumption.
    + apply FloatSign.leb0_false; assumption.
    + apply FloatSign.isfinite_iff. split; assumption.
    + apply FloatSign.leb0_false; assumption.
  - intros (Hna & Hnb & Hat & Ha0 & Hrt & Hr0 & Hmw & Hm0 & Hf & Hi).
    apply FloatSign.isfinite_iff in Hat as [Hnat Hiat].
    apply FloatSign.isfinite_iff in Hrt as [Hnr Hir].
    apply FloatSign.isfinite_iff in Hmw as [Hnm Him].
    apply (FloatSign.ltb0_false _ Hnat) in Ha0.
    apply (FloatSign.leb0_false _ Hnr) in Hr0.
    apply (FloatSign.leb0_false _ Hnm) in Hm0.
    unfold _quadts_iv. cbn [existsb].
    rewrite Hna, Hnb, Hnat, Hnr, Hnm, Hr0, Hm0, Hir, Him, Ha0, Hiat.
    cbn [orb].
    replace (maxfun <=? 0)%Z with false by lia.
    replace (maxiter <=? 0)%Z with false by lia.
    cbn [orb].
    destruct (orient f a b) as [[f1 a1] b1].
    destruct (fold_infinite f1 a1 b1) as [[[f2 a2] b2] ff].
    destruct (compactify P f2 a2 b2) as [[f3 a3] b3].
    eexists. reflexivity.
  - intros e. unfold _quadts_iv.
    destruct (existsb F.isnan _); [intros H; injection H as <-; eexists; reflexivity|].
    destruct (_ || _)%bool; [intros H; injection H as <-; eexists; reflexivity|].
    destruct (_ || _)%bool; [intros H; injection H as <-; eexists; reflexivity|].
    destruct (existsb _ _); [intros H; injection H as <-; eexists; reflexivity|].
    destruct (orient f a b) as [[f1 a1] b1].
    destruct (fold_infinite f1 a1 b1) as [[[f2 a2] b2] ff].
    destruct (compactify P f2 a2 b2) as [[f3 a3] b3].
    discriminate.
Qed.

(** What [_quadts_iv] does to the limits and the integrand, by the kind of
    range. *)
Lemma quadts_iv_transform f a b maxfun maxiter atol rtol minweight iv :
  _quadts_iv P f a b maxfun maxiter atol rtol minweight = Returned iv ->
  F.isnan a = false /\ F.isnan b = false /\
  (iv_f iv, iv_a iv, iv_b iv) =
  (let '(f1, a1, b1) := orient f a b in
   let '(f2, a2, b2, _) := fold_infinite f1 a1 b1 in
   compactify P f2 a2 b2).
Proof.
  intros H. apply quadts_iv_inv in H.
  destruct H as (Hnan & _ & _ & _ & _ & _ & _ & _ & _ & _ & _ & _ & _ & _ & H).
  cbn [existsb] in Hnan.
  apply orb_false_iff in Hnan as [Hna Hnan].
  apply orb_false_iff in Hnan as [Hnb _].
  split; [exact Hna|]. split; [exact Hnb|].
  destruct (orient f a b) as [[f1 a1] b1].
  destruct (fold_infinite f1 a1 b1) as [[[f2 a2] b2] ff].
  destruct (compactify P f2 a2 b2) as [[f3 a3] b3].
  destruct H as (-> & -> & -> & _). reflexivity.
Qed.

(** X2: the limits [_quadts_iv] hands to the loop are always finite and in
    increasing order, whatever the range asked for; the evaluation
    multiplier is 2 when both limits are infinite and 1 otherwise; the
    tolerances and the two budgets are handed over unchanged. *)
Theorem standardized_interval f a b maxfun maxiter atol rtol minweight iv :
  _quadts_iv P f a b maxfun maxiter atol rtol minweight = Returned iv ->
  F.isfinite (iv_a iv) = true /\ F.isfinite (iv_b iv) = true /\
  (iv_a iv <=? iv_b iv) = true /\
  iv_feval_factor iv = (if F.isinf a && F.isinf b then 2 else 1)%Z /\
  iv_maxfun iv = maxfun /\ iv_maxiter iv = maxiter /\
  iv_atol iv = atol /\ iv_rtol iv = rtol /\ iv_minweight iv = minweight.
Proof.
  intros H.
  pose proof (quadts_iv_feval_factor _ _ _ _ _ _ _ _ _ _ H) as Hff.
  pose proof (quadts_iv_transform _ _ _ _ _ _ _ _ _ H) as (Hna & Hnb & Ht).
  apply quadts_iv_inv in H.
  destruct H as (_ & _ & _ & _ & _ & _ & _ & _ & _ & Hf & Hi & Ha & Hr & Hm & _).
  assert (G : F.isfinite (iv_a iv) = true /\ F.isfinite (iv_b iv) = true /\
              (iv_a iv <=? iv_b iv) = true).
  { unfold orient, fold_infinite, compactify in Ht.
    destruct (b <? a) eqn:Hba;
      destruct (F.isinf a) eqn:Ha', (F.isinf b) eqn:Hb'; cbn [andb] in Ht;
      rewrite ?Ha', ?Hb' in Ht; cbn [andb] in Ht;
      rewrite ?isinf_opp, ?Ha', ?Hb' in Ht;
      try change (F.isinf infinity) with true in Ht; cbv iota in Ht;
      injection Ht as _ -> ->;
      try (repeat split; reflexivity).
    - repeat split.
      + apply FloatSign.isfinite_iff; split; assumption.
      + apply FloatSign.isfinite_iff; split; assumption.
      + apply FloatOrder.ltb_leb_false in Hba.
        apply FloatSign.not_ltb_leb; try assumption.
        rewrite ltb_spec. rewrite leb_spec in Hba. unfold SFltb, SFleb in *.
        destruct (SFcompare (Prim2SF a) (Prim2SF b)) as [[]|]; congruence.
    - repeat split.
      + apply FloatSign.isfinite_iff; split; assumption.
      + apply FloatSign.isfinite_iff; split; assumption.
      + apply FloatSign.not_ltb_leb; assumption. }
  destruct G as (G1 & G2 & G3). repeat split; assumption.
Qed.

(** X3: the integrand the loop evaluates.  Finite limits leave [f] as it
    is, negated when [b < a]; a range with an infinite end is mapped to
    [(0, 1)] by [t = 1/x - 1] with the factor [x**-2]: the loop evaluates
    [f(t + a) * x**-2] for the range [(a, inf)], [f(-(t + -b)) * x**-2] for
    [(-inf, b)] and [(f(t + 0) + f(-(t + 0))) * x**-2] for [(-inf, inf)]. *)
Theorem standardized_integrand f a b maxfun maxiter atol rtol minweight iv :
  _quadts_iv P f a b maxfun maxiter atol rtol minweight = Returned iv ->
  (F.isinf a = false -> F.isinf b = false ->
   forall x, iv_f iv x = if b <? a then - f x else f x) /\
  (F.isinf a = false -> b = infinity ->
   forall x, iv_f iv x = f (1 / x - 1 + a) * pow P x (-2)) /\
  (a = neg_infinity -> F.isinf b = false ->
   forall x, iv_f iv x = f (- (1 / x - 1 + - b)) * pow P x (-2)) /\
  (a = neg_infinity -> b = infinity ->
   forall x, iv_f iv x = (f (1 / x - 1 + 0) + f (- (1 / x - 1 + 0))) * pow P x (-2)).
Proof.
  intros H.
  pose proof (quadts_iv_transform _ _ _ _ _ _ _ _ _ H) as (Hna & Hnb & Ht).
  unfold orient, fold_infinite, compactify in Ht.
  split; [|split; [|split]].
  - intros Ha Hb x. destruct (b <? a); rewrite ?Ha, ?Hb in Ht; cbn [andb] in Ht;
      rewrite ?Ha, ?Hb in Ht; injection Ht as -> _ _; reflexivity.
  - intros Ha -> x. rewrite FloatSign.ltb_infinity in Ht.
    rewrite Ha in Ht. cbn [andb] in Ht.
    change (F.isinf infinity) with true in Ht. cbv iota in Ht.
    injection Ht as -> _ _. reflexivity.
  - intros -> Hb x. rewrite FloatSign.ltb_neg_infinity in Ht.
    change (F.isinf neg_infinity) with true in Ht. rewrite Hb in Ht. cbn [andb] in Ht.
    change (F.isinf (- neg_infinity)) with true in Ht. cbv iota in Ht.
    injection Ht as -> _ _. reflexivity.
  - intros -> -> x.
    change (infinity <? neg_infinity) with false in Ht.
    change (F.isinf neg_infinity) with true in Ht.
    change (F.isinf infinity) with true in Ht. cbn [andb] in Ht. cbv iota in Ht.
    injection Ht as -> _ _. reflexivity.
Qed.

(** X4: when both limits are infinite and [b < a] does not hold, their
    signs play no part: the range is treated as [(-inf, inf)].  So
    [a = b = inf] (or [-inf]) integrates [f] over the whole line and counts
    every evaluation twice. *)
Theorem infinite_limits_ignore_sign f a b maxfun maxiter atol rtol minweight :
  F.isinf a = true -> F.isinf b = true -> (b <? a) = false ->
  _tanhsinh P f a b maxfun maxiter atol rtol minweight
  = _tanhsinh P f neg_infinity infinity maxfun maxiter atol rtol minweight.
Proof.
  intros Ha Hb Hba.
  assert (E : _quadts_iv P f a b maxfun maxiter atol rtol minweight
              = _quadts_iv P f neg_infinity infinity maxfun maxiter atol rtol minweight).
  { apply FloatSign.isinf_cases in Ha, Hb.
    destruct Ha as [-> | ->], Hb as [-> | ->]; try reflexivity.
    vm_compute in Hba. discriminate Hba. }
  unfold _tanhsinh. rewrite E. reflexivity.
Qed.

End ValidationMore.

(** The theorem at the default settings: they are accepted. *)
Lemma quadts_iv_accepts_iff_witness :
  exists iv,
    _quadts_iv ref_platform (fun x => x) 0 1
      default_maxfun default_maxiter default_atol default_rtol default_minweight
    = Returned iv.
Proof.
  destruct (quadts_iv_accepts_iff ref_platform (fun x => x) 0 1
              default_maxfun default_maxiter default_atol default_rtol default_minweight)
    as [[_ Hacc] _].
  - unfold fits_int64, default_maxfun. lia.
  - unfold fits_int64, default_maxiter. lia.
  - apply Hacc. repeat split.
Defined.

(** The theorem at the reversed finite range from 2 down to -1. *)
Lemma standardized_interval_witness :
  exists iv,
    _quadts_iv ref_platform (fun x => x) 2 (-1)
      default_maxfun default_maxiter default_atol default_rtol default_minweight
    = Returned iv /\
    F.isfinite (iv_a iv) = true /\ F.isfinite (iv_b iv) = true /\
    (iv_a iv <=? iv_b iv)%float = true.
Proof.
  eexists. split; [reflexivity|].
  destruct (standardized_interval ref_platform (fun x => x) 2 (-1)
              default_maxfun default_maxiter default_atol default_rtol default_minweight
              _ eq_refl) as (H1 & H2 & H3 & _).
  repeat split; assumption.
Defined.

(** The theorem at the range from 2 to infinity. *)
Lemma standardized_integrand_witness :
  exists iv,
    _quadts_iv ref_platform (fun x => x) 2 infinity
      default_maxfun default_maxiter default_atol default_rtol default_minweight
    = Returned iv /\
    forall x, iv_f iv x = ((1 / x - 1 + 2) * pow ref_platform x (-2))%float.
Proof.
  eexists. split; [reflexivity|].
  destruct (standardized_integrand ref_platform (fun x => x) 2 infinity
              default_maxfun default_maxiter default_atol default_rtol default_minweight
              _ eq_refl) as (_ & H & _).
  apply H; reflexivity.
Defined.

(** The theorem at [a = b = inf]. *)
Lemma infinite_limits_ignore_sign_witness :
  _tanhsinh ref_platform (fun x => x) infinity infinity
    default_maxfun default_maxiter default_atol default_rtol default_minweight
  = _tanhsinh ref_platform (fun x => x) neg_infinity infinity
      default_maxfun default_maxiter default_atol default_rtol default_minweight.
Proof.
  apply (infinite_limits_ignore_sign ref_platform (fun x => x) infinity infinity
           default_maxfun default_maxiter default_atol default_rtol default_minweight);
    reflexivity.
Defined.

(* ================================================================== *)
(** ** Further properties of the pair generator *)

Section PairsMore.

Variable P : Platform.

Lemma max_index_raises k e :
  max_index k = Raised e -> (1022 <= k)%nat /\ exists msg, e = OverflowError msg.
Proof.
  intros H. destruct (Nat.le_gt_cases k 1021) as [Hk|Hk].
  - destruct (level_ok_inv k Hk) as [HM _]. rewrite HM in H. discriminate H.
  - split; [lia|]. destruct (Nat.le_gt_cases 1024 k) as [Hk'|Hk'].
    + unfold max_index in H. rewrite LevelBound.of_int_pow2_overflow in H by exact Hk'.
      cbn [bind] in H. injection H as <-. eexists. reflexivity.
    + assert (Hc : k = 1022%nat \/ k = 1023%nat) by lia.
      destruct Hc as [-> | ->]; vm_compute in H; injection H as <-; eexists; reflexivity.
Qed.

(** X5: from level 1022 on the pair generator raises [OverflowError],
    from [int(np.ceil(6.115 * 2**k))] or, once [2**k] is too large for a
    float, from [6.115 * 2**k] itself, before it builds any array; so it
    returns at levels up to 1021 only. *)
Theorem compute_pairs_overflows k :
  ((1022 <= k)%nat -> exists msg, _compute_pairs P k = Raised (OverflowError msg)) /\
  (forall h xjc wj, _compute_pairs P k = Returned (h, xjc, wj) -> (k <= 1021)%nat).
Proof.
  split.
  - intros Hk. unfold _compute_pairs, pair_indices.
    destruct (max_index k) as [M|e] eqn:HM.
    + apply LevelBound.max_index_returns in HM. lia.
    + destruct (max_index_raises k e HM) as [_ [msg ->]].
      cbn [bind]. exists msg. reflexivity.
  - intros h xjc wj H. eapply LevelBound.compute_pairs_returns, H.
Qed.

Lemma spec_indices_length k M :
  (0 <= M)%Z ->
  Z.of_nat (length (spec_indices k M)) = if Nat.eqb k 0 then M else (M / 2)%Z.
Proof.
  intros HM. unfold spec_indices. destruct (Nat.eqb k 0).
  - rewrite length_map, length_seq. lia.
  - rewrite filter_odd_seq, length_map, length_seq.
    change 2%Z with (Z.of_nat 2). rewrite Nat2Z.inj_div. rewrite Z2Nat.id by exact HM.
    reflexivity.
Qed.

Lemma compute_pairs_count k h xjc wj :
  _compute_pairs P k = Returned (h, xjc, wj) ->
  Z.of_nat (length xjc) = level_pairs k /\ length wj = length xjc.
Proof.
  intros H. pose proof (LevelBound.compute_pairs_returns _ _ _ _ _ H) as Hk.
  pose proof (compute_pairs_length _ _ _ _ _ H) as Hlen.
  split; [|exact Hlen].
  apply compute_pairs_inv in H as (j & Hj & _ & -> & _).
  destruct (level_ok_inv k Hk) as [HM _].
  rewrite (pair_indices_spec k _ HM) in Hj. injection Hj as <-.
  rewrite length_map, spec_indices_length by (pose proof (exact_max_index_ge k); lia).
  unfold level_pairs. destruct (Nat.eqb k 0) eqn:E; [|reflexivity].
  apply Nat.eqb_eq in E. subst k. reflexivity.
Qed.

Lemma sizes_ok : forallb size_ok (seq 0 1022) = true.
Proof. vm_compute. reflexivity. Qed.

Lemma doublings_ok : forallb doubling_ok (seq 1 1021) = true.
Proof. vm_compute. reflexivity. Qed.

(** X6: the two arrays of a level have the same length: 7 pairs at level
    0 and [floor(ceil(6.115 * 2^k) / 2)] pairs at a level [k > 0]; the number
    of points of the level, twice that, lies between [6 * 2^k] and
    [14 * 2^k]. *)
Theorem compute_pairs_sizes k h xjc wj :
  _compute_pairs P k = Returned (h, xjc, wj) ->
  length wj = length xjc /\
  Z.of_nat (length xjc) = (if Nat.eqb k 0 then 7 else exact_max_index k / 2)%Z /\
  (6 * 2 ^ Z.of_nat k <= 2 * Z.of_nat (length xjc) <= 14 * 2 ^ Z.of_nat k)%Z.
Proof.
  intros H. pose proof (LevelBound.compute_pairs_returns _ _ _ _ _ H) as Hk.
  destruct (compute_pairs_count _ _ _ _ H) as [Hc Hlen].
  split; [exact Hlen|]. split; [exact Hc|].
  rewrite Hc. pose proof sizes_ok as Hs. rewrite forallb_forall in Hs.
  assert (Hin : In k (seq 0 1022)) by (apply in_seq; lia).
  specialize (Hs k Hin). unfold size_ok in Hs.
  apply andb_prop in Hs as [H1 H2]. apply Z.leb_le in H1, H2. lia.
Qed.

(** X7: from level 1 on, the next level has half the step and twice as
    many pairs, give or take one. *)
Theorem compute_pairs_doubling k h xjc wj h' xjc' wj' :
  (1 <= k)%nat ->
  _compute_pairs P k = Returned (h, xjc, wj) ->
  _compute_pairs P (S k) = Returned (h', xjc', wj') ->
  h' = (h / 2)%float /\
  (2 * Z.of_nat (length xjc) - 1 <= Z.of_nat (length xjc')
   <= 2 * Z.of_nat (length xjc) + 1)%Z.
Proof.
  intros Hk H H'.
  pose proof (LevelBound.compute_pairs_returns _ _ _ _ _ H') as Hk'.
  destruct (compute_pairs_count _ _ _ _ H) as [Hc _].
  destruct (compute_pairs_count _ _ _ _ H') as [Hc' _].
  apply compute_pairs_inv in H as (_ & _ & -> & _).
  apply compute_pairs_inv in H' as (_ & _ & -> & _).
  rewrite Hc, Hc'. pose proof doublings_ok as Hd. rewrite forallb_forall in Hd.
  assert (Hin : In k (seq 1 1021)) by (apply in_seq; lia).
  specialize (Hd k Hin). unfold doubling_ok in Hd.
  apply andb_prop in Hd as [Hd H3]. apply andb_prop in Hd as [H1 H2].
  apply FloatAxioms.Leibniz.eqb_spec in H1. apply Z.leb_le in H2, H3.
  split; [exact H1|lia].
Qed.

End PairsMore.

(** The theorem at the levels 1 and 2 of the reference platform: 6 and 12
    pairs, steps 1/2 and 1/4. *)
Lemma compute_pairs_doubling_witness :
  exists h xjc wj h' xjc' wj',
    _compute_pairs ref_platform 1 = Returned (h, xjc, wj) /\
    _compute_pairs ref_platform 2 = Returned (h', xjc', wj') /\
    h' = (h / 2)%float /\
    (2 * Z.of_nat (length xjc) - 1 <= Z.of_nat (length xjc')
     <= 2 * Z.of_nat (length xjc) + 1)%Z.
Proof.
  do 6 eexists. split; [vm_compute; reflexivity|]. split; [vm_compute; reflexivity|].
  eapply (compute_pairs_doubling ref_platform 1); [lia| |]; vm_compute; reflexivity.
Defined.

(** The theorem at level 3 of the reference platform: 24 pairs. *)
Lemma compute_pairs_sizes_witness :
  exists h xjc wj,
    _compute_pairs ref_platform 3 = Returned (h, xjc, wj) /\
    length wj = length xjc /\ Z.of_nat (length xjc) = 24%Z.
Proof.
  do 3 eexists. split; [vm_compute; reflexivity|].
  destruct (compute_pairs_sizes ref_platform 3 _ _ _ eq_refl) as (H1 & H2 & _).
  split; [exact H1|exact H2].
Defined.

(* ================================================================== *)
(** ** Further properties of the loop *)

Section LoopMore.

Variable P : Platform.
Variable f : integrand.
Variables a b : float.
Variables maxfun maxiter : Z.
Variables atol rtol minweight : float.
Variable feval_factor : Z.

Local Open Scope float_scope.

Local Abbreviation iteration' := (iteration P f a b maxfun atol rtol minweight feval_factor).
Local Abbreviation steps' := (steps P f a b maxfun atol rtol minweight feval_factor).
Local Abbreviation reaches' := (reaches P f a b maxfun atol rtol minweight feval_factor).
Local Abbreviation loop' := (loop P f a b maxfun atol rtol minweight feval_factor).
Local Abbreviation run_loop' :=
  (run_loop P f a b maxfun maxiter atol rtol minweight feval_factor).
Local Abbreviation engine' :=
  (engine P f a b maxfun maxiter atol rtol minweight feval_factor).

(** *** Exceptions *)

Lemma loop_raises fuel n st e :
  loop' fuel n st = Raised e ->
  exists m stm, (n <= m < n + fuel)%nat /\ steps' n st m stm /\
                iteration' m stm = Raised e.
Proof.
  revert n st. induction fuel as [|fuel IH]; intros n st; cbn [loop].
  - discriminate.
  - destruct (iteration' n st) as [[st'|st']|e'] eqn:Hit; cbn [bind].
    + intros H. apply IH in H as (m & stm & Hm & Hs & Hi).
      exists m, stm. split; [lia|]. split; [econstructor; eassumption|exact Hi].
    + discriminate.
    + intros H. injection H as <-. exists n, st.
      split; [lia|]. split; [constructor|exact Hit].
Qed.

(** In a state the loop reaches, a pass raises only what the pair generator
    raises. *)
Lemma iteration_raises n st e :
  length (st_Sk st) = n -> iteration' n st = Raised e -> _compute_pairs P n = Raised e.
Proof.
  intros HSk H. destruct (_compute_pairs P n) as [[[h xjc] wj]|e'] eqn:Hp.
  - apply LevelBound.compute_pairs_returns in Hp.
    destruct (iteration_total P f a b maxfun atol rtol minweight feval_factor n st Hp HSk)
      as (r & Hr).
    rewrite Hr in H. discriminate H.
  - unfold iteration in H. rewrite Hp in H. cbn [bind] in H. injection H as <-. reflexivity.
Qed.

Lemma report_returns fin :
  run_loop' = Returned fin -> exists r, report fin = Returned r.
Proof.
  intros H. apply report_total.
  destruct (run_loop_status _ _ _ _ _ _ _ _ _ _ _ H) as [(n & st & _ & _ & _ & Hs)|Hs]; lia.
Qed.

(** With the pairs of its level, a pass of the loop returns: in a state
    the loop reaches the unpacking of the last two estimates, the reductions
    and the reshape never fail. *)
Lemma iteration_returns n st h xjc wj :
  length (st_Sk st) = n -> _compute_pairs P n = Returned (h, xjc, wj) ->
  exists r, iteration' n st = Returned r.
Proof.
  intros HSk Hp. destruct (iteration' n st) as [r|e] eqn:Hit; [exists r; reflexivity|].
  apply (iteration_raises _ _ _ HSk) in Hit. rewrite Hp in Hit. discriminate Hit.
Qed.

Lemma engine_raises e :
  engine' = Raised e ->
  exists n, (n < Z.to_nat maxiter)%nat /\ _compute_pairs P n = Raised e.
Proof.
  unfold engine. destruct run_loop' as [fin|e'] eqn:Hl; cbn [bind].
  - destruct (report_returns fin Hl) as (r & ->). discriminate.
  - intros H. injection H as ->. unfold run_loop in Hl.
    apply loop_raises in Hl as (m & stm & Hm & Hs & Hi).
    pose proof (reaches_Sk_length _ _ _ _ _ _ _ _ _ _ _ Hs) as HSk.
    apply (iteration_raises _ _ _ HSk) in Hi.
    exists m. split; [lia|exact Hi].
Qed.

(** *** The result record *)

Lemma engine_record r :
  engine' = Returned r ->
  (status r = 0 \/ status r = 1 \/ status r = 2 \/ status r = 3)%Z /\
  success r = (status r =? 0)%Z /\
  dict_get _status_messages (status r) = Returned (message r).
Proof.
  intros H. apply engine_inv in H as (fin & Hl & Hrep).
  assert (Hs : (st_status fin = 0 \/ st_status fin = 1 \/ st_status fin = 2 \/
                st_status fin = 3)%Z).
  { destruct (run_loop_status _ _ _ _ _ _ _ _ _ _ _ Hl) as [(n & st & _ & _ & _ & Hs)|Hs];
      lia. }
  unfold report in Hrep.
  destruct (dict_get _status_messages (st_status fin)) as [msg|e] eqn:Hd; [|discriminate Hrep].
  cbn [bind] in Hrep. injection Hrep as <-. cbn [status success message].
  split; [exact Hs|]. split; [reflexivity|exact Hd].
Qed.

(** *** The evaluation counter *)

Lemma reaches_evaluations n st :
  reaches' n st -> st_feval st = (feval_factor * evaluations n)%Z.
Proof.
  intros Hr. revert n st Hr. apply reaches_ind_inv.
  - cbn. lia.
  - intros n st st' _ HI Hit. apply iteration_inv in Hit.
    inversion Hit; subst; cbn [st_feval evaluations];
      match goal with Hp : _compute_pairs P n = Returned (_, ?x, _) |- _ =>
        destruct (compute_pairs_count _ _ _ _ _ Hp) as [Hc _];
        rewrite points_length, Hc, HI
      end; ring.
Qed.

Lemma run_loop_evaluations fin :
  run_loop' = Returned fin ->
  exists m, (m <= Z.to_nat maxiter)%nat /\
    st_feval fin = (feval_factor * evaluations m)%Z /\
    (st_status fin = 2%Z -> m = Z.to_nat maxiter) /\
    (st_status fin = 1%Z ->
     (m < Z.to_nat maxiter)%nat /\ (maxfun < feval_factor * evaluations (S m))%Z) /\
    (st_status fin = 0%Z \/ st_status fin = 3%Z -> (1 <= m)%nat).
Proof.
  intros H. apply run_loop_inv in H as [(n & st & Hn & Hr & Hi)|(st' & Hr & ->)].
  - pose proof (reaches_evaluations _ _ Hr) as He.
    apply iteration_inv in Hi.
    inversion Hi; subst; cbn [st_feval st_status];
      match goal with Hp : _compute_pairs P n = Returned (_, ?x, _) |- _ =>
        destruct (compute_pairs_count _ _ _ _ _ Hp) as [Hc _];
        pose proof (points_length a b x) as Hpt; rewrite Hc in Hpt
      end.
    + exists n. split; [lia|]. split; [exact He|]. split; [discriminate|].
      split; [|intros [?|?]; discriminate]. intros _. split; [exact Hn|].
      cbn [evaluations]. rewrite Hpt, He in *. lia.
    + exists (S n). split; [lia|]. split.
      * cbn [evaluations]. rewrite Hpt, He. ring.
      * split; [discriminate|]. split; [discriminate|]. intros _. lia.
    + exists (S n). split; [lia|]. split.
      * cbn [evaluations]. rewrite Hpt, He. ring.
      * split; [discriminate|]. split; [discriminate|]. intros _. lia.
  - exists (Z.to_nat maxiter). split; [lia|]. cbn [exhausted st_feval st_status].
    split; [apply (reaches_evaluations _ _ Hr)|].
    split; [reflexivity|]. split; [discriminate|]. intros [?|?]; discriminate.
Qed.

Lemma level_pairs_nonneg k : (0 <= level_pairs k)%Z.
Proof.
  unfold level_pairs. destruct (Nat.eqb k 0); [lia|].
  pose proof (exact_max_index_ge k). apply Z.div_pos; lia.
Qed.

Lemma evaluations_mono n m : (n <= m)%nat -> (evaluations n <= evaluations m)%Z.
Proof.
  induction 1 as [|m Hle IH]; [lia|].
  cbn [evaluations]. pose proof (level_pairs_nonneg m). lia.
Qed.

(** A run converges in an iteration [n >= 2], after the levels 0, 1 and 2
    at least: 14 + 12 + 24 points. *)
Lemma run_loop_converged fin :
  (0 <= feval_factor)%Z ->
  run_loop' = Returned fin -> st_status fin = 0%Z ->
  (3 <= maxiter)%Z /\ (50 * feval_factor <= st_feval fin)%Z.
Proof.
  intros Hff H Hs. apply run_loop_inv in H as [(n & st & Hn & Hr & Hi)|(st' & Hr & ->)];
    [|discriminate Hs].
  pose proof (reaches_evaluations _ _ Hr) as He.
  apply iteration_inv in Hi. inversion Hi; subst; try discriminate Hs.
  split; [lia|]. cbn [st_feval].
  match goal with Hp : _compute_pairs P n = Returned (_, ?x, _) |- _ =>
    destruct (compute_pairs_count _ _ _ _ _ Hp) as [Hc _];
    rewrite points_length, Hc, He
  end.
  assert (Hm : (50 <= evaluations (S n))%Z).
  { change 50%Z with (evaluations 3). apply evaluations_mono. lia. }
  cbn [evaluations] in Hm. nia.
Qed.

(** *** The sequence of estimates *)

Lemma steps_Sk n st m st' :
  steps' n st m st' ->
  exists more, st_Sk st' = st_Sk st ++ more /\ length more = (m - n)%nat.
Proof.
  induction 1 as [n st|n st st1 m st2 Hit Hs IH].
  - exists []. rewrite app_nil_r, Nat.sub_diag. split; reflexivity.
  - destruct IH as (more & HSk & Hlen).
    pose proof (steps_le _ _ _ _ _ _ _ _ _ _ _ _ _ Hs) as Hle.
    apply iteration_inv in Hit.
    inversion Hit; subst; cbn [st_Sk] in HSk;
      rewrite <- app_assoc in HSk; eexists; (split; [exact HSk|]);
      cbn [length app]; rewrite Hlen; lia.
Qed.

Lemma reaches_Sn n st : reaches' n st -> st_Sn st = last (st_Sk st) nan.
Proof.
  intros Hr. revert n st Hr. apply reaches_ind_inv.
  - reflexivity.
  - intros n st st' _ HI Hit. apply iteration_inv in Hit.
    inversion Hit; subst; cbn [st_Sn st_Sk]; rewrite last_last; reflexivity.
Qed.

(** X8: the invariants of the loop.  When the loop enters iteration [n],
    [Sk] holds exactly [n] estimates, one for each completed iteration; [Sn]
    is the last of them (NaN before the first); the status is still -1; and
    later iterations only append to [Sk], one estimate each. *)
Theorem estimates_sequence n st :
  reaches P f a b maxfun atol rtol minweight feval_factor n st ->
  length (st_Sk st) = n /\ st_Sn st = last (st_Sk st) nan /\ st_status st = (-1)%Z /\
  (forall m st',
     steps P f a b maxfun atol rtol minweight feval_factor n st m st' ->
     exists more, st_Sk st' = st_Sk st ++ more /\ length more = (m - n)%nat).
Proof.
  intros Hr. split; [|split; [|split]].
  - apply (reaches_Sk_length _ _ _ _ _ _ _ _ _ _ _ Hr).
  - apply (reaches_Sn _ _ Hr).
  - apply (reaches_status _ _ _ _ _ _ _ _ _ _ _ Hr).
  - intros m st'. apply steps_Sk.
Qed.

Lemma run_loop_last_estimate fin :
  run_loop' = Returned fin -> st_status fin <> 0%Z ->
  exists n st,
    reaches' n st /\ length (st_Sk st) = n /\
    (((n < Z.to_nat maxiter)%nat /\ iteration' n st = Returned (Break fin)) \/
     (n = Z.to_nat maxiter /\ fin = exhausted st)) /\
    st_Sn fin = last (st_Sk st) nan /\ st_aerr fin = st_aerr st /\
    (n = O -> st_Sn fin = nan).
Proof.
  intros H Hs. apply run_loop_inv in H as [(n & st & Hn & Hr & Hi)|(st' & Hr & ->)].
  - exists n, st. pose proof (reaches_Sn _ _ Hr) as HSn.
    pose proof (reaches_Sk_length _ _ _ _ _ _ _ _ _ _ _ Hr) as HSk.
    assert (H0 : n = O -> last (st_Sk st) nan = nan).
    { intros ->. destruct (st_Sk st); [reflexivity|discriminate HSk]. }
    split; [exact Hr|]. split; [exact HSk|].
    split; [left; split; [exact Hn|exact Hi]|].
    apply iteration_inv in Hi.
    inversion Hi; subst; cbn [st_Sn st_aerr st_status] in *; try congruence;
      rewrite HSn; repeat split; exact H0.
  - exists (Z.to_nat maxiter), st'. pose proof (reaches_Sn _ _ Hr) as HSn.
    pose proof (reaches_Sk_length _ _ _ _ _ _ _ _ _ _ _ Hr) as HSk.
    cbn [exhausted st_Sn st_aerr]. split; [exact Hr|]. split; [exact HSk|].
    split; [right; split; reflexivity|].
    split; [exact HSn|]. split; [reflexivity|].
    intros E. rewrite HSn. rewrite E in HSk.
    destruct (st_Sk st'); [reflexivity|discriminate HSk].
Qed.

(** *** How the status tells the limit that was hit *)

Lemma reaches_exhausts st :
  reaches' (Z.to_nat maxiter) st -> run_loop' = Returned (exhausted st).
Proof.
  intros Hr. unfold run_loop. rewrite (loop_steps _ _ _ _ _ _ _ _ _ _ _ _ _ Hr) by lia.
  rewrite Nat.sub_0_r, Nat.sub_diag. reflexivity.
Qed.

(** X9: the status of a run tells which limit stopped it.  It is 2 exactly
    when all [maxiter] iterations were completed, and 1 exactly when some
    iteration found that its level would take the evaluation counter past
    [maxfun]; in both cases the loop variables are left as the last completed
    iteration set them. *)
Theorem status_tells_limit fin :
  run_loop P f a b maxfun maxiter atol rtol minweight feval_factor = Returned fin ->
  (st_status fin = 2%Z <->
   exists st,
     reaches P f a b maxfun atol rtol minweight feval_factor (Z.to_nat maxiter) st /\
     fin = exhausted st) /\
  (st_status fin = 1%Z <->
   exists n st h xjc wj,
     (n < Z.to_nat maxiter)%nat /\
     reaches P f a b maxfun atol rtol minweight feval_factor n st /\
     _compute_pairs P n = Returned (h, xjc, wj) /\
     (st_feval st + points a b xjc * feval_factor > maxfun)%Z /\
     fin = {| st_Sk := st_Sk st; st_Sn := st_Sn st; st_aerr := st_aerr st;
              st_status := 1; st_feval := st_feval st |}).
Proof.
  intros Hrun. split; split.
  - intros Hs. apply run_loop_inv in Hrun as [(n & st & Hn & Hr & Hi)|(st' & Hr & ->)].
    + apply iteration_inv in Hi. inversion Hi; subst; discriminate Hs.
    + exists st'. split; [exact Hr|reflexivity].
  - intros (st & Hr & ->). reflexivity.
  - intros Hs. apply run_loop_inv in Hrun as [(n & st & Hn & Hr & Hi)|(st' & Hr & ->)].
    + apply iteration_inv in Hi. inversion Hi; subst; try discriminate Hs.
      exists n, st, h, xjc, wj. repeat split; assumption.
    + discriminate Hs.
  - intros (n & st & h & xjc & wj & Hn & Hr & Hp & Hb & ->). reflexivity.
Qed.

End LoopMore.

(** The theorem at the state after the first iteration of that run. *)
Lemma estimates_sequence_witness :
  exists st,
    reaches ref_platform (fun _ => 1%float) 0 1
      default_maxfun default_atol default_rtol default_minweight 1 1 st /\
    length (st_Sk st) = 1%nat /\ st_Sn st = last (st_Sk st) nan.
Proof.
  eexists. split.
  - eapply steps_cons; [vm_compute; reflexivity|apply steps_refl].
  - edestruct (estimates_sequence ref_platform (fun _ => 1%float) 0 1
                 default_maxfun default_atol default_rtol default_minweight 1 1)
      as (H1 & H2 & _).
    + eapply steps_cons; [vm_compute; reflexivity|apply steps_refl].
    + split; [exact H1|exact H2].
Defined.

(** The theorem at the same run of two iterations. *)
Lemma status_tells_limit_witness :
  exists fin,
    run_loop ref_platform (fun _ => 1%float) 0 1
      default_maxfun 2 default_atol default_rtol default_minweight 1
    = Returned fin /\
    exists st,
      reaches ref_platform (fun _ => 1%float) 0 1
        default_maxfun default_atol default_rtol default_minweight 1 (Z.to_nat 2) st /\
      fin = exhausted st.
Proof.
  eexists. split; [vm_compute; reflexivity|].
  refine (proj1 (proj1 (status_tells_limit ref_platform (fun _ => 1%float) 0 1
                          default_maxfun 2 default_atol default_rtol default_minweight 1
                          _ _)) _).
  - vm_compute. reflexivity.
  - reflexivity.
Defined.

(* ================================================================== *)
(** ** Larger budgets *)

Section Budgets.

Variable P : Platform.
Variable f : integrand.
Variables a b : float.
Variables maxfun maxfun' maxiter maxiter' : Z.
Variables atol rtol minweight : float.
Variable feval_factor : Z.

Local Open Scope float_scope.

Hypothesis maxfun_le : (maxfun <= maxfun')%Z.
Hypothesis maxiter_le : (maxiter <= maxiter')%Z.

(** A pass that does not stop at the budget check does the same under a
    larger budget. *)
Lemma iteration_larger_budget n st r :
  iteration P f a b maxfun atol rtol minweight feval_factor n st = Returned r ->
  (forall fin, r = Break fin -> st_status fin <> 1%Z) ->
  iteration P f a b maxfun' atol rtol minweight feval_factor n st = Returned r.
Proof.
  intros Hit Hs. apply iteration_inv in Hit. apply iteration_case_sound.
  destruct Hit as [h xjc wj Hp Hb|h xjc wj Hp Hb Hf|h xjc wj Hp Hb Hf Hn Sn
                  |h xjc wj rerr aerr Hp Hb Hf Hn Sn He Hc
                  |h xjc wj rerr aerr Hp Hb Hf Hn Sn He Hc].
  - exfalso. eapply Hs; reflexivity.
  - eapply case_invalid; [exact Hp|lia|exact Hf].
  - eapply case_early; [exact Hp|lia|exact Hf|exact Hn].
  - eapply case_converged; [exact Hp|lia|exact Hf|exact Hn|exact He|exact Hc].
  - eapply case_refine; [exact Hp|lia|exact Hf|exact Hn|exact He|exact Hc].
Qed.

Lemma reaches_larger_budget n st :
  reaches P f a b maxfun atol rtol minweight feval_factor n st ->
  reaches P f a b maxfun' atol rtol minweight feval_factor n st.
Proof.
  intros Hr. revert n st Hr. apply reaches_ind_inv.
  - constructor.
  - intros n st st' _ HI Hit. eapply steps_snoc; [exact HI|].
    apply iteration_larger_budget; [exact Hit|]. intros fin E. discriminate E.
Qed.

Lemma run_loop_larger_maxfun fin :
  run_loop P f a b maxfun maxiter atol rtol minweight feval_factor = Returned fin ->
  st_status fin <> 1%Z ->
  run_loop P f a b maxfun' maxiter atol rtol minweight feval_factor = Returned fin.
Proof.
  intros H Hs. apply run_loop_inv in H as [(n & st & Hn & Hr & Hi)|(st' & Hr & ->)].
  - eapply loop_break; [apply reaches_larger_budget, Hr|exact Hn|].
    apply iteration_larger_budget; [exact Hi|]. intros fin' E. injection E as <-. exact Hs.
  - apply reaches_exhausts, reaches_larger_budget, Hr.
Qed.

Lemma run_loop_larger_maxiter fin :
  run_loop P f a b maxfun maxiter atol rtol minweight feval_factor = Returned fin ->
  st_status fin <> 2%Z ->
  run_loop P f a b maxfun maxiter' atol rtol minweight feval_factor = Returned fin.
Proof.
  intros H Hs. apply run_loop_inv in H as [(n & st & Hn & Hr & Hi)|(st' & Hr & ->)].
  - eapply loop_break; [exact Hr|lia|exact Hi].
  - exfalso. apply Hs. reflexivity.
Qed.

End Budgets.

(* ================================================================== *)
(** ** Integrand values at the limits *)

Section EndpointValues.

Variable P : Platform.
Variables f g : integrand.
Variables a b : float.
Variables maxfun maxiter : Z.
Variables atol rtol minweight : float.
Variable feval_factor : Z.

Local Open Scope float_scope.

(** The two integrands agree wherever the filter [xj <= a | xj >= b] lets a
    point through. *)
Hypothesis fg : forall x, (x <=? a) = false -> (b <=? x) = false -> f x = g x.

Lemma masked_products_ext (xs ws : list float) :
  mask_zero (zip_with (invalid a b minweight) xs ws) (zip_with mul (map f xs) ws)
  = mask_zero (zip_with (invalid a b minweight) xs ws) (zip_with mul (map g xs) ws).
Proof.
  revert ws. induction xs as [|x xs IH]; intros [|w ws]; try reflexivity.
  cbn [map zip_with mask_zero]. unfold mask_zero in IH. f_equal; [|apply IH].
  unfold invalid. destruct (x <=? a) eqn:H1; [reflexivity|].
  destruct (b <=? x) eqn:H2; [reflexivity|].
  rewrite (fg x H1 H2). reflexivity.
Qed.

Lemma contributions_ext xjc wj :
  contributions f a b minweight xjc wj = contributions g a b minweight xjc wj.
Proof. unfold contributions. apply masked_products_ext. Qed.

Lemma iteration_ext n st :
  iteration P f a b maxfun atol rtol minweight feval_factor n st
  = iteration P g a b maxfun atol rtol minweight feval_factor n st.
Proof.
  unfold iteration. destruct (_compute_pairs P n) as [[[h xjc] wj]|e]; [|reflexivity].
  cbn [bind]. rewrite contributions_ext. reflexivity.
Qed.

Lemma loop_ext fuel n st :
  loop P f a b maxfun atol rtol minweight feval_factor fuel n st
  = loop P g a b maxfun atol rtol minweight feval_factor fuel n st.
Proof.
  revert n st. induction fuel as [|fuel IH]; intros n st; [reflexivity|].
  cbn [loop]. rewrite iteration_ext.
  destruct (iteration P g a b maxfun atol rtol minweight feval_factor n st) as [[st'|st']|e];
    cbn [bind]; [apply IH|reflexivity|reflexivity].
Qed.

Lemma engine_ext :
  engine P f a b maxfun maxiter atol rtol minweight feval_factor
  = engine P g a b maxfun maxiter atol rtol minweight feval_factor.
Proof. unfold engine, run_loop. rewrite loop_ext. reflexivity. Qed.

End EndpointValues.

(* ================================================================== *)
(** ** Further properties of [_tanhsinh] *)

Section TanhsinhMore.

Variable P : Platform.

Local Open Scope float_scope.

Lemma tanhsinh_inv f a b maxfun maxiter atol rtol minweight r :
  _tanhsinh P f a b maxfun maxiter atol rtol minweight = Returned r ->
  exists iv,
    _quadts_iv P f a b maxfun maxiter atol rtol minweight = Returned iv /\
    engine P (iv_f iv) (iv_a iv) (iv_b iv) maxfun maxiter atol rtol minweight
      (iv_feval_factor iv) = Returned r.
Proof.
  intros H. destruct (_quadts_iv P f a b maxfun maxiter atol rtol minweight) as [iv|e] eqn:Hiv.
  - exists iv. split; [reflexivity|].
    rewrite <- (tanhsinh_unfold _ _ _ _ _ _ _ _ _ _ Hiv). exact H.
  - unfold _tanhsinh in H. rewrite Hiv in H. discriminate H.
Qed.

(** The validation does not look at the values of the two budgets beyond
    their sign. *)
Lemma quadts_iv_budgets f a b maxfun maxiter maxfun' maxiter' atol rtol minweight iv :
  _quadts_iv P f a b maxfun maxiter atol rtol minweight = Returned iv ->
  (0 < maxfun')%Z -> (0 < maxiter')%Z ->
  exists iv',
    _quadts_iv P f a b maxfun' maxiter' atol rtol minweight = Returned iv' /\
    iv_f iv' = iv_f iv /\ iv_a iv' = iv_a iv /\ iv_b iv' = iv_b iv /\
    iv_feval_factor iv' = iv_feval_factor iv.
Proof.
  unfold _quadts_iv. intros H Hf Hi.
  destruct (existsb F.isnan _); [discriminate H|].
  destruct (_ || _)%bool; [discriminate H|].
  destruct (_ || _)%bool; [discriminate H|].
  destruct (existsb _ [maxfun; maxiter]); [discriminate H|].
  cbn [existsb]. replace (maxfun' <=? 0)%Z with false by lia.
  replace (maxiter' <=? 0)%Z with false by lia. cbn [orb].
  destruct (orient f a b) as [[f1 a1] b1].
  destruct (fold_infinite f1 a1 b1) as [[[f2 a2] b2] ff].
  destruct (compactify P f2 a2 b2) as [[f3 a3] b3].
  injection H as <-. eexists. split; [reflexivity|]. repeat split.
Qed.

(** X10: the record [_tanhsinh] returns is consistent.  Its status is 0, 1,
    2 or 3, never the -1 of a loop in progress; [success] is [True] exactly
    when the status is 0; and [message] is the entry of [_status_messages]
    for the status. *)
Theorem result_record_consistent f a b maxfun maxiter atol rtol minweight r :
  _tanhsinh P f a b maxfun maxiter atol rtol minweight = Returned r ->
  (status r = 0 \/ status r = 1 \/ status r = 2 \/ status r = 3)%Z /\
  success r = (status r =? 0)%Z /\
  dict_get _status_messages (status r) = Returned (message r).
Proof.
  intros H. apply tanhsinh_inv in H as (iv & _ & H). eapply engine_record, H.
Qed.

(** X11: the evaluation count of a result is the evaluation multiplier (2
    for a doubly infinite range, else 1) times the number of points of the
    first [m] levels, [m] being the number of levels evaluated: 14 points at
    level 0 and [2 * floor(ceil(6.115 * 2^k) / 2)] at level [k > 0].  With
    status 2, [m] is [maxiter]; with status 1, the next level would have
    taken the count past [maxfun]; with status 0 or 3, at least one level
    was evaluated. *)
Theorem feval_counts_levels f a b maxfun maxiter atol rtol minweight r :
  _tanhsinh P f a b maxfun maxiter atol rtol minweight = Returned r ->
  let ff := (if F.isinf a && F.isinf b then 2 else 1)%Z in
  exists m, (m <= Z.to_nat maxiter)%nat /\
    feval r = (ff * evaluations m)%Z /\
    (status r = 2%Z -> m = Z.to_nat maxiter) /\
    (status r = 1%Z ->
     (m < Z.to_nat maxiter)%nat /\ (maxfun < ff * evaluations (S m))%Z) /\
    (status r = 0%Z \/ status r = 3%Z -> (1 <= m)%nat).
Proof.
  intros H ff. apply tanhsinh_inv in H as (iv & Hiv & H).
  apply engine_inv in H as (fin & Hl & Hrep).
  apply report_fields in Hrep as (_ & _ & -> & -> & _).
  unfold ff. rewrite <- (quadts_iv_feval_factor _ _ _ _ _ _ _ _ _ _ Hiv).
  apply (run_loop_evaluations _ _ _ _ _ _ _ _ _ _ _ Hl).
Qed.

(** X12: a run that does not converge (status 1, 2 or 3) reports the
    estimate of the last completed iteration as its integral, NaN when no
    iteration was completed, and the error estimate as that iteration left
    it: with [st] the state in which the loop stopped, by a [break] in the
    iteration [n] it had entered or after all [maxiter] iterations, [n]
    iterations were completed, and the integral is the last of the [n]
    estimates of [st]. *)
Theorem unconverged_run_reports_last_estimate f a b maxfun maxiter atol rtol minweight iv r :
  _quadts_iv P f a b maxfun maxiter atol rtol minweight = Returned iv ->
  _tanhsinh P f a b maxfun maxiter atol rtol minweight = Returned r ->
  status r <> 0%Z ->
  exists n st fin,
    reaches P (iv_f iv) (iv_a iv) (iv_b iv) maxfun atol rtol minweight
      (iv_feval_factor iv) n st /\
    length (st_Sk st) = n /\
    (((n < Z.to_nat maxiter)%nat /\
      iteration P (iv_f iv) (iv_a iv) (iv_b iv) maxfun atol rtol minweight
        (iv_feval_factor iv) n st = Returned (Break fin)) \/
     (n = Z.to_nat maxiter /\ fin = exhausted st)) /\
    report fin = Returned r /\
    integral r = last (st_Sk st) nan /\ error r = st_aerr st /\
    (n = O -> integral r = nan).
Proof.
  intros Hiv H Hs. rewrite (tanhsinh_unfold _ _ _ _ _ _ _ _ _ _ Hiv) in H.
  apply engine_inv in H as (fin & Hl & Hrep).
  pose proof (report_fields _ _ Hrep) as (HI & HE & _ & Hst & _). rewrite Hst in Hs.
  destruct (run_loop_last_estimate _ _ _ _ _ _ _ _ _ _ _ Hl Hs)
    as (n & st & Hr & HSk & Hstop & HSn & Haerr & H0).
  exists n, st, fin. rewrite HI, HE. repeat split; assumption.
Qed.

(** X13: a call does not succeed before its third iteration.  A result
    with [success] set comes from a call with [maxiter >= 3] that evaluated
    the levels 0, 1 and 2 at least, 50 points (times the evaluation
    multiplier), so [maxfun] was at least that. *)
Theorem success_needs_three_levels f a b maxfun maxiter atol rtol minweight r :
  _tanhsinh P f a b maxfun maxiter atol rtol minweight = Returned r ->
  success r = true ->
  let ff := (if F.isinf a && F.isinf b then 2 else 1)%Z in
  (3 <= maxiter)%Z /\ (50 * ff <= feval r)%Z /\ (50 * ff <= maxfun)%Z.
Proof.
  intros H Hs ff. apply tanhsinh_inv in H as (iv & Hiv & H).
  pose proof (feval_factor_nonneg _ _ _ _ _ _ _ _ _ _ Hiv) as Hff.
  assert (Hmax : (0 <= maxfun)%Z) by (apply quadts_iv_inv in Hiv; lia).
  apply engine_inv in H as (fin & Hl & Hrep).
  apply report_fields in Hrep as (_ & _ & -> & _ & Hsu).
  rewrite Hsu in Hs. apply Z.eqb_eq in Hs.
  pose proof (run_loop_feval _ _ _ _ _ _ _ _ _ _ _ Hff Hmax Hl) as Hb.
  unfold ff. rewrite <- (quadts_iv_feval_factor _ _ _ _ _ _ _ _ _ _ Hiv).
  destruct (run_loop_converged _ _ _ _ _ _ _ _ _ _ _ Hff Hl Hs) as [H3 H50].
  split; [exact H3|]. split; [exact H50|lia].
Qed.

(** X14: a result whose status is not 1 does not depend on [maxfun]: the
    same call with a larger [maxfun] returns the same record. *)
Theorem raising_maxfun_keeps_result f a b maxfun maxfun' maxiter atol rtol minweight r :
  _tanhsinh P f a b maxfun maxiter atol rtol minweight = Returned r ->
  status r <> 1%Z -> (maxfun <= maxfun')%Z -> fits_int64 maxfun' ->
  _tanhsinh P f a b maxfun' maxiter atol rtol minweight = Returned r.
Proof.
  intros H Hs Hle _. apply tanhsinh_inv in H as (iv & Hiv & H).
  pose proof (quadts_iv_inv _ _ _ _ _ _ _ _ _ _ Hiv) as Hinv.
  destruct (quadts_iv_budgets _ _ _ _ _ maxfun' maxiter _ _ _ _ Hiv)
    as (iv' & Hiv' & Ef & Ea & Eb & Eff); [lia|lia|].
  rewrite (tanhsinh_unfold _ _ _ _ _ _ _ _ _ _ Hiv'), Ef, Ea, Eb, Eff.
  apply engine_inv in H as (fin & Hl & Hrep).
  pose proof (report_fields _ _ Hrep) as (_ & _ & _ & Hst & _). rewrite Hst in Hs.
  unfold engine.
  rewrite (run_loop_larger_maxfun _ _ _ _ _ _ _ _ _ _ _ Hle _ Hl Hs).
  exact Hrep.
Qed.

(** X15: a result whose status is not 2 does not depend on [maxiter]: the
    same call with a larger [maxiter] returns the same record. *)
Theorem raising_maxiter_keeps_result f a b maxfun maxiter maxiter' atol rtol minweight r :
  _tanhsinh P f a b maxfun maxiter atol rtol minweight = Returned r ->
  status r <> 2%Z -> (maxiter <= maxiter')%Z -> fits_int64 maxiter' ->
  _tanhsinh P f a b maxfun maxiter' atol rtol minweight = Returned r.
Proof.
  intros H Hs Hle _. apply tanhsinh_inv in H as (iv & Hiv & H).
  pose proof (quadts_iv_inv _ _ _ _ _ _ _ _ _ _ Hiv) as Hinv.
  destruct (quadts_iv_budgets _ _ _ _ _ maxfun maxiter' _ _ _ _ Hiv)
    as (iv' & Hiv' & Ef & Ea & Eb & Eff); [lia|lia|].
  rewrite (tanhsinh_unfold _ _ _ _ _ _ _ _ _ _ Hiv'), Ef, Ea, Eb, Eff.
  apply engine_inv in H as (fin & Hl & Hrep).
  pose proof (report_fields _ _ Hrep) as (_ & _ & _ & Hst & _). rewrite Hst in Hs.
  unfold engine.
  rewrite (run_loop_larger_maxiter _ _ _ _ _ _ _ _ _ _ _ Hle _ Hl Hs).
  exact Hrep.
Qed.

(** X16: over finite limits the values of the integrand at the limits and
    outside them play no part: two integrands that agree at every point
    the filter [(xj <= a) | (xj >= b)] lets through (the points strictly
    between the limits, and NaN) give the same outcome. *)
Theorem endpoint_values_ignored f g a b maxfun maxiter atol rtol minweight :
  F.isinf a = false -> F.isinf b = false ->
  (forall x, (x <=? (if b <? a then b else a)) = false ->
             ((if b <? a then a else b) <=? x) = false -> f x = g x) ->
  _tanhsinh P f a b maxfun maxiter atol rtol minweight
  = _tanhsinh P g a b maxfun maxiter atol rtol minweight.
Proof.
  intros Ha Hb Hfg. unfold _tanhsinh, _quadts_iv.
  destruct (existsb F.isnan _); [reflexivity|].
  destruct (_ || _)%bool; [reflexivity|].
  destruct (_ || _)%bool; [reflexivity|].
  destruct (existsb _ _); [reflexivity|].
  unfold orient, fold_infinite, compactify.
  destruct (b <? a); rewrite ?Ha, ?Hb; cbn [andb]; rewrite ?Ha, ?Hb;
    cbn [bind iv_f iv_a iv_b iv_maxfun iv_maxiter iv_atol iv_rtol iv_minweight
         iv_feval_factor].
  - apply engine_ext. intros x H1 H2. rewrite (Hfg x H1 H2). reflexivity.
  - apply engine_ext. exact Hfg.
Qed.

(** X17: past the validation, nothing in the loop of [_tanhsinh] fails but
    the pair generator.  In a state the loop reaches, a pass whose level the
    pair generator returns completes: the unpacking of the last two
    estimates, the [np.max] reductions and the reshape never raise; the
    status the loop ends with is always a key of [_status_messages]; so an
    exception out of a validated call is one the pair generator raised at a
    level below [maxiter]. *)
Theorem loop_operations_never_fail f a b maxfun maxiter atol rtol minweight iv :
  _quadts_iv P f a b maxfun maxiter atol rtol minweight = Returned iv ->
  (forall n st h xjc wj,
     reaches P (iv_f iv) (iv_a iv) (iv_b iv) maxfun atol rtol minweight
       (iv_feval_factor iv) n st ->
     _compute_pairs P n = Returned (h, xjc, wj) ->
     exists r,
       iteration P (iv_f iv) (iv_a iv) (iv_b iv) maxfun atol rtol minweight
         (iv_feval_factor iv) n st = Returned r) /\
  (forall fin,
     run_loop P (iv_f iv) (iv_a iv) (iv_b iv) maxfun maxiter atol rtol minweight
       (iv_feval_factor iv) = Returned fin ->
     exists r, report fin = Returned r) /\
  (forall e,
     _tanhsinh P f a b maxfun maxiter atol rtol minweight = Raised e ->
     exists n, (n < Z.to_nat maxiter)%nat /\ _compute_pairs P n = Raised e).
Proof.
  intros Hiv. split; [|split].
  - intros n st h xjc wj Hr Hp.
    eapply iteration_returns; [|exact Hp].
    apply (reaches_Sk_length _ _ _ _ _ _ _ _ _ _ _ Hr).
  - intros fin Hl. eapply report_returns, Hl.
  - intros e H. rewrite (tanhsinh_unfold _ _ _ _ _ _ _ _ _ _ Hiv) in H.
    eapply engine_raises, H.
Qed.

End TanhsinhMore.

(** The theorem at the integral of the constant 1 over (0, 1) with the
    default settings. *)
Lemma result_record_consistent_witness :
  exists r,
    _tanhsinh ref_platform (fun _ => 1%float) 0 1
      default_maxfun default_maxiter default_atol default_rtol default_minweight
    = Returned r /\
    success r = (status r =? 0)%Z /\
    dict_get _status_messages (status r) = Returned (message r).
Proof.
  eexists. split; [vm_compute; reflexivity|].
  eapply (result_record_consistent ref_platform (fun _ => 1%float) 0 1
            default_maxfun default_maxiter default_atol default_rtol default_minweight).
  vm_compute. reflexivity.
Defined.

(** The theorem at the same run: it evaluates the levels 0 to 3, 98
    points. *)
Lemma feval_counts_levels_witness :
  exists r,
    _tanhsinh ref_platform (fun _ => 1%float) 0 1
      default_maxfun default_maxiter default_atol default_rtol default_minweight
    = Returned r /\
    exists m, (m <= Z.to_nat default_maxiter)%nat /\ feval r = (1 * evaluations m)%Z.
Proof.
  eexists. split; [vm_compute; reflexivity|].
  edestruct (feval_counts_levels ref_platform (fun _ => 1%float) 0 1
               default_maxfun default_maxiter default_atol default_rtol default_minweight)
    as (m & Hm & Hf & _).
  - vm_compute. reflexivity.
  - exists m. split; [exact Hm|exact Hf].
Defined.

(** The theorem at a run of two iterations, which ends with status 2. *)
Lemma unconverged_run_reports_last_estimate_witness :
  exists r iv,
    _tanhsinh ref_platform (fun _ => 1%float) 0 1
      default_maxfun 2 default_atol default_rtol default_minweight
    = Returned r /\
    _quadts_iv ref_platform (fun _ => 1%float) 0 1
      default_maxfun 2 default_atol default_rtol default_minweight
    = Returned iv /\
    exists n st fin,
      reaches ref_platform (iv_f iv) (iv_a iv) (iv_b iv)
        default_maxfun default_atol default_rtol default_minweight
        (iv_feval_factor iv) n st /\
      length (st_Sk st) = n /\
      (((n < Z.to_nat 2)%nat /\
        iteration ref_platform (iv_f iv) (iv_a iv) (iv_b iv)
          default_maxfun default_atol default_rtol default_minweight
          (iv_feval_factor iv) n st = Returned (Break fin)) \/
       (n = Z.to_nat 2 /\ fin = exhausted st)) /\
      report fin = Returned r /\
      integral r = last (st_Sk st) nan /\ error r = st_aerr st /\
      (n = O -> integral r = nan).
Proof.
  do 2 eexists. split; [vm_compute; reflexivity|]. split; [reflexivity|].
  eapply (unconverged_run_reports_last_estimate ref_platform (fun _ => 1%float) 0 1
            default_maxfun 2 default_atol default_rtol default_minweight).
  - reflexivity.
  - vm_compute. reflexivity.
  - vm_compute. discriminate.
Defined.

(** The theorem at the default run, which succeeds in its fourth
    iteration. *)
Lemma success_needs_three_levels_witness :
  exists r,
    _tanhsinh ref_platform (fun _ => 1%float) 0 1
      default_maxfun default_maxiter default_atol default_rtol default_minweight
    = Returned r /\
    (3 <= default_maxiter)%Z /\ (50 * 1 <= feval r)%Z /\ (50 * 1 <= default_maxfun)%Z.
Proof.
  eexists. split; [vm_compute; reflexivity|].
  eapply (success_needs_three_levels ref_platform (fun _ => 1%float) 0 1
            default_maxfun default_maxiter default_atol default_rtol default_minweight).
  - vm_compute. reflexivity.
  - reflexivity.
Defined.

(** The theorem at the default run and twice its [maxfun]. *)
Lemma raising_maxfun_keeps_result_witness :
  exists r,
    _tanhsinh ref_platform (fun _ => 1%float) 0 1
      default_maxfun default_maxiter default_atol default_rtol default_minweight
    = Returned r /\
    _tanhsinh ref_platform (fun _ => 1%float) 0 1
      10000 default_maxiter default_atol default_rtol default_minweight
    = Returned r.
Proof.
  eexists. split; [vm_compute; reflexivity|].
  eapply (raising_maxfun_keeps_result ref_platform (fun _ => 1%float) 0 1
            default_maxfun 10000 default_maxiter default_atol default_rtol
            default_minweight).
  - vm_compute. reflexivity.
  - vm_compute. discriminate.
  - unfold default_maxfun. lia.
  - unfold fits_int64. lia.
Defined.

(** The theorem at the default run and [maxiter = 12]. *)
Lemma raising_maxiter_keeps_result_witness :
  exists r,
    _tanhsinh ref_platform (fun _ => 1%float) 0 1
      default_maxfun default_maxiter default_atol default_rtol default_minweight
    = Returned r /\
    _tanhsinh ref_platform (fun _ => 1%float) 0 1
      default_maxfun 12 default_atol default_rtol default_minweight
    = Returned r.
Proof.
  eexists. split; [vm_compute; reflexivity|].
  eapply (raising_maxiter_keeps_result ref_platform (fun _ => 1%float) 0 1
            default_maxfun default_maxiter 12 default_atol default_rtol
            default_minweight).
  - vm_compute. reflexivity.
  - vm_compute. discriminate.
  - unfold default_maxiter. lia.
  - unfold fits_int64. lia.
Defined.

(** The theorem at the constant 1 over (0, 1) and an integrand that is NaN
    at 0, at 1 and outside. *)
Lemma endpoint_values_ignored_witness :
  _tanhsinh ref_platform (fun _ => 1%float) 0 1
    default_maxfun default_maxiter default_atol default_rtol default_minweight
  = _tanhsinh ref_platform
      (fun x => if ((x <=? 0) || (1 <=? x))%float then nan else 1%float) 0 1
      default_maxfun default_maxiter default_atol default_rtol default_minweight.
Proof.
  apply (endpoint_values_ignored ref_platform (fun _ => 1%float)
           (fun x => if ((x <=? 0) || (1 <=? x))%float then nan else 1%float) 0 1
           default_maxfun default_maxiter default_atol default_rtol default_minweight).
  - reflexivity.
  - reflexivity.
  - intros x H1 H2.
    change ((x <=? 0)%float = false) in H1. change ((1 <=? x)%float = false) in H2.
    cbv beta. rewrite H1, H2. reflexivity.
Defined.

(** The theorem at the first pass of the integral of the constant 1 over
    (0, 1) with the default settings. *)
Lemma loop_operations_never_fail_witness :
  exists r,
    iteration ref_platform (fun _ => 1%float) 0 1
      default_maxfun default_atol default_rtol default_minweight 1 0 initial_state
    = Returned r.
Proof.
  edestruct (loop_operations_never_fail ref_platform (fun _ => 1%float) 0 1
               default_maxfun default_maxiter default_atol default_rtol
               default_minweight) as (H & _).
  - reflexivity.
  - eapply (H 0%nat initial_state).
    + apply steps_refl.
    + vm_compute. reflexivity.
Defined.

(* ================================================================== *)
(** ** The tolerances and the error estimate *)

Module FloatNonneg.

Import FloatFacts.

Local Open Scope float_scope.

(** NaN, or a number whose sign bit is clear. *)
Definition SFnonneg (x : spec_float) : bool :=
  match x with
  | S754_nan => true
  | S754_zero s | S754_infinity s | S754_finite s _ _ => negb s
  end.

Lemma binary_round_aux_nonneg m e l :
  SFnonneg (binary_round_aux prec emax false m e l) = true.
Proof.
  unfold binary_round_aux.
  destruct (shr_fexp prec emax m e l) as [mrs' e'].
  destruct (shr_fexp prec emax _ e' loc_Exact) as [mrs'' e''].
  destruct (shr_m mrs''); try reflexivity.
  destruct (e'' <=? emax - prec)%Z; reflexivity.
Qed.

(** A positive number times an absolute value is NaN or not negative. *)
Lemma mul_pos_abs m x :
  FloatOrder.SFis_pos (Prim2SF m) = true -> SFnonneg (Prim2SF (m * abs x)) = true.
Proof.
  rewrite mul_spec, abs_spec. unfold SF64mul.
  destruct (Prim2SF m) as [sm|[]| |[] mm em]; try discriminate; intros _;
    destruct (Prim2SF x) as [sx|sx| |sx mx ex]; try reflexivity.
  apply binary_round_aux_nonneg.
Qed.

(** [max(eps, rerr)] is positive, whatever [rerr] is. *)
Lemma py_max_eps_pos r : FloatOrder.SFis_pos (Prim2SF (F.py_max F.eps r)) = true.
Proof.
  unfold F.py_max. destruct (F.eps <? r) eqn:E; [|reflexivity].
  apply (FloatOrder.above_positive_spec F.eps r); [reflexivity|exact E].
Qed.

Lemma nonneg_spec x :
  SFnonneg (Prim2SF x) = true -> F.isnan x = true \/ (0 <=? x) = true.
Proof.
  rewrite isnan_spec, leb_spec. change (Prim2SF 0) with (S754_zero false).
  unfold SFleb. destruct (Prim2SF x) as [[]|[]| |[] m e]; simpl; intros H;
    try discriminate H; auto.
Qed.

End FloatNonneg.

Section Tolerances.

Variable P : Platform.
Variable f : integrand.
Variables a b : float.
Variables maxfun maxiter : Z.
Variables atol rtol atol' rtol' minweight : float.
Variable feval_factor : Z.

Local Open Scope float_scope.

(** A pass that falls through leaves the same state whatever the
    tolerances. *)
Lemma iteration_continue_tolerances n st st1 st1' :
  iteration P f a b maxfun atol rtol minweight feval_factor n st
  = Returned (Continue st1) ->
  iteration P f a b maxfun atol' rtol' minweight feval_factor n st
  = Returned (Continue st1') ->
  st1 = st1'.
Proof.
  unfold iteration.
  destruct (_compute_pairs P n) as [[[h xjc] wj]|e]; cbn [bind]; [|discriminate].
  destruct (_ >? _)%Z; [discriminate|].
  destruct (forallb _ _); cbn [negb]; [|discriminate].
  destruct (Nat.leb 2 n).
  - destruct (error_estimate P _ _ _) as [[rerr aerr]|e]; cbn [bind]; [|discriminate].
    destruct (converged atol rtol _ _); [discriminate|].
    destruct (converged atol' rtol' _ _); [discriminate|].
    intros H1 H2. injection H1 as <-. injection H2 as <-. reflexivity.
  - intros H1 H2. injection H1 as <-. injection H2 as <-. reflexivity.
Qed.

Lemma steps_snoc_inv (at0 rt0 : float) n st m st'' :
  steps P f a b maxfun at0 rt0 minweight feval_factor n st m st'' ->
  (n < m)%nat ->
  exists st',
    steps P f a b maxfun at0 rt0 minweight feval_factor n st (pred m) st' /\
    iteration P f a b maxfun at0 rt0 minweight feval_factor (pred m) st'
    = Returned (Continue st'').
Proof.
  induction 1 as [n st|n st st1 m st2 Hit Hs IH]; intros Hlt; [lia|].
  pose proof (steps_le _ _ _ _ _ _ _ _ _ _ _ _ _ Hs) as Hle.
  destruct (Nat.eq_dec (S n) m) as [E|E].
  - subst m. inversion Hs; subst.
    + exists st. split; [constructor|exact Hit].
    + match goal with H : steps _ _ _ _ _ _ _ _ _ (S (S n)) _ (S n) _ |- _ =>
        apply steps_le in H; lia end.
  - destruct IH as (st' & Hs' & Hit'); [lia|].
    exists st'. split; [|exact Hit'].
    econstructor; [exact Hit|exact Hs'].
Qed.

(** X18: the tolerances decide when the loop stops and nothing else: two
    runs that differ only in [atol] and [rtol] are in the same state, with
    the same estimates, error estimate and evaluation count, whenever both
    enter iteration [n]. *)
Theorem tolerances_only_stop n st st' :
  reaches P f a b maxfun atol rtol minweight feval_factor n st ->
  reaches P f a b maxfun atol' rtol' minweight feval_factor n st' ->
  st = st'.
Proof.
  intros Hr. revert n st Hr st'.
  apply (reaches_ind_inv P f a b maxfun atol rtol minweight feval_factor
           (fun n st => forall st',
              reaches P f a b maxfun atol' rtol' minweight feval_factor n st' ->
              st = st')).
  - intros st' Hr'. inversion Hr'; subst; [reflexivity|].
    match goal with H : steps _ _ _ _ _ _ _ _ _ 1 _ 0 _ |- _ =>
      apply steps_le in H; lia end.
  - intros n st st1 _ IH Hit st1' Hr'.
    apply steps_snoc_inv in Hr' as (st0' & Hr0 & Hit'); [|lia].
    cbn [pred] in Hr0, Hit'.
    rewrite <- (IH st0' Hr0) in Hit'.
    eapply iteration_continue_tolerances; eassumption.
Qed.

(** *** The error estimate is not negative *)

Lemma error_estimate_inv Sk Sn fjwj rerr aerr :
  error_estimate P Sk Sn fjwj = Returned (rerr, aerr) ->
  aerr = F.py_max F.eps rerr * abs Sn.
Proof.
  unfold error_estimate.
  destruct (last_two Sk) as [[Snm2 Snm1]|e]; cbn [bind]; [|discriminate].
  destruct (np_max (map abs fjwj)) as [m|e]; cbn [bind]; [|discriminate].
  destruct (d4_term P fjwj) as [d4|e]; cbn [bind]; [|discriminate].
  destruct (np_max _) as [d|e]; cbn [bind]; [|discriminate].
  intros H. injection H as <- <-. reflexivity.
Qed.

Lemma error_estimate_nonneg Sk Sn fjwj rerr aerr :
  error_estimate P Sk Sn fjwj = Returned (rerr, aerr) ->
  FloatNonneg.SFnonneg (Prim2SF aerr) = true.
Proof.
  intros H. apply error_estimate_inv in H. subst aerr.
  apply FloatNonneg.mul_pos_abs, FloatNonneg.py_max_eps_pos.
Qed.

Lemma reaches_aerr_nonneg n st :
  reaches P f a b maxfun atol rtol minweight feval_factor n st ->
  FloatNonneg.SFnonneg (Prim2SF (st_aerr st)) = true.
Proof.
  intros Hr. revert n st Hr. apply reaches_ind_inv.
  - reflexivity.
  - intros n st st' _ HI Hit. apply iteration_inv in Hit.
    inversion Hit; subst; cbn [st_aerr]; [exact HI|].
    eapply error_estimate_nonneg; eassumption.
Qed.

Lemma run_loop_aerr_nonneg fin :
  run_loop P f a b maxfun maxiter atol rtol minweight feval_factor = Returned fin ->
  FloatNonneg.SFnonneg (Prim2SF (st_aerr fin)) = true.
Proof.
  intros H. apply run_loop_inv in H as [(n & st & Hn & Hr & Hi)|(st' & Hr & ->)].
  - pose proof (reaches_aerr_nonneg _ _ Hr) as HI.
    apply iteration_inv in Hi.
    inversion Hi; subst; cbn [st_aerr]; try exact HI.
    eapply error_estimate_nonneg; eassumption.
  - cbn [exhausted st_aerr]. apply (reaches_aerr_nonneg _ _ Hr).
Qed.

End Tolerances.

Section ErrorSign.

Variable P : Platform.

Local Open Scope float_scope.

(** X19: the error estimate of a result is never negative: it is NaN
    (nothing was estimated, or the integral estimate is NaN), or it is
    [max(eps, rerr) * |Sn| >= 0]. *)
Theorem error_never_negative f a b maxfun maxiter atol rtol minweight r :
  _tanhsinh P f a b maxfun maxiter atol rtol minweight = Returned r ->
  F.isnan (error r) = true \/ (0 <=? error r) = true.
Proof.
  intros H. apply tanhsinh_inv in H as (iv & _ & H).
  apply engine_inv in H as (fin & Hl & Hrep).
  apply report_fields in Hrep as (_ & -> & _).
  apply FloatNonneg.nonneg_spec. eapply run_loop_aerr_nonneg, Hl.
Qed.

End ErrorSign.

(** The theorem at two runs over (0, 1), with the default tolerances and
    with [rtol = 1e-3] (rounded), after the first iteration. *)
Lemma tolerances_only_stop_witness :
  exists st st',
    reaches ref_platform (fun x => (x * x)%float) 0 1
      default_maxfun default_atol default_rtol default_minweight 1 1 st /\
    reaches ref_platform (fun x => (x * x)%float) 0 1
      default_maxfun default_atol 0x1p-10%float default_minweight 1 1 st' /\
    st = st'.
Proof.
  assert (H1 : exists st,
             reaches ref_platform (fun x => (x * x)%float) 0 1
               default_maxfun default_atol default_rtol default_minweight 1 1 st).
  { eexists. eapply steps_cons; [vm_compute; reflexivity|apply steps_refl]. }
  assert (H2 : exists st,
             reaches ref_platform (fun x => (x * x)%float) 0 1
               default_maxfun default_atol 0x1p-10%float default_minweight 1 1 st).
  { eexists. eapply steps_cons; [vm_compute; reflexivity|apply steps_refl]. }
  destruct H1 as [st H1], H2 as [st' H2]. exists st, st'.
  split; [exact H1|]. split; [exact H2|].
  exact (tolerances_only_stop ref_platform (fun x => (x * x)%float) 0 1
           default_maxfun default_atol default_rtol default_atol 0x1p-10%float
           default_minweight 1 1 st st' H1 H2).
Defined.

(** The theorem at the integral of the constant 1 over (0, 1) with the
    default settings. *)
Lemma error_never_negative_witness :
  exists r,
    _tanhsinh ref_platform (fun _ => 1%float) 0 1
      default_maxfun default_maxiter default_atol default_rtol default_minweight
    = Returned r /\
    (F.isnan (error r) = true \/ (0 <=? error r)%float = true).
Proof.
  eexists. split; [vm_compute; reflexivity|].
  eapply (error_never_negative ref_platform (fun _ => 1%float) 0 1
            default_maxfun default_maxiter default_atol default_rtol default_minweight).
  vm_compute. reflexivity.
Defined.
